(** * dwv: DICOM parser, writer and image model

    A shallow embedding of the DICOM core of the dwv sources
    (dicomParser.js, dicomWriter.js, geometry.js and image.js) together
    with the properties stated about it.

    Conventions of the embedding:
    - an [ArrayBuffer] is a [list byte]; offsets and byte counts are [nat];
    - the numbers stored in typed arrays and read from the buffer are [Z],
      with the wrap-around of each typed array kind written out;
    - a JavaScript exception is the [Throw] case of [result];
    - objects that the source mutates in place are threaded explicitly. *)

From Stdlib Require Import ZArith Lia Strings.Byte Ascii String.
From stdpp Require Import base option list strings pretty gmap.

Local Open Scope string_scope.
Local Open Scope Z_scope.

(** ** Exceptions and results *)

Inductive exn :=
| RangeError                 (* out of bounds access of a buffer or view *)
| TypeError                  (* property access on undefined, call of a non function *)
| Error (msg : string)       (* [throw new Error(msg)] *)
| OutOfFuel                  (* the bound of a loop of the embedding was reached *)
| Unmodelled.                (* the input leaves the fragment of JavaScript embedded here *)

Inductive result (A : Type) :=
| Ok (a : A)
| Throw (e : exn).
Arguments Ok {A} a.
Arguments Throw {A} e.

#[global] Instance result_ret : MRet result := @Ok.
#[global] Instance result_bind : MBind result :=
  fun A B f m => match m with Ok a => f a | Throw e => Throw e end.
#[global] Instance result_fmap : FMap result :=
  fun A B f m => match m with Ok a => Ok (f a) | Throw e => Throw e end.

Definition of_option {A} (e : exn) (o : option A) : result A :=
  match o with Some a => Ok a | None => Throw e end.

(** A loop over the elements of an array that threads a state and stops
    at the first exception. *)
Fixpoint foldM {A S : Type} (f : S -> A -> result S) (s : S) (l : list A) : result S :=
  match l with
  | [] => Ok s
  | x :: r => s' ← f s x; foldM f s' r
  end.

#[global] Instance exn_eq_dec : EqDecision exn.
Proof. solve_decision. Defined.

(** ** Bytes *)

Definition u8 (b : byte) : Z := Z.of_N (Byte.to_N b).

(** The byte holding [z] modulo 256 (what [DataView.setUint8] stores). *)
Definition byte_of_Z (z : Z) : byte :=
  match Byte.of_N (Z.to_N (z mod 256)) with
  | Some b => b
  | None => x00
  end.

(** ** Typed arrays *)

Inductive TypedArrayKind :=
| Uint8Array | Int8Array | Uint16Array | Int16Array
| Uint32Array | Int32Array | Float32Array | Float64Array.

#[global] Instance TypedArrayKind_eq_dec : EqDecision TypedArrayKind.
Proof. solve_decision. Defined.

Definition BYTES_PER_ELEMENT (k : TypedArrayKind) : nat :=
  match k with
  | Uint8Array | Int8Array => 1
  | Uint16Array | Int16Array => 2
  | Uint32Array | Int32Array | Float32Array => 4
  | Float64Array => 8
  end%nat.

(** Two's complement reading of an unsigned [bits]-bit number. *)
Definition to_signed (bits : Z) (u : Z) : Z :=
  if u <? 2 ^ (bits - 1) then u else u - 2 ^ bits.

(** Conversion applied when a number is stored in a typed array
    (ToUint8, ToInt8, ...). An element of a float array is kept as its
    IEEE bit pattern, a number of 32 resp. 64 bits. *)
Definition wrap (k : TypedArrayKind) (z : Z) : Z :=
  match k with
  | Uint8Array => z mod 2 ^ 8
  | Int8Array => to_signed 8 (z mod 2 ^ 8)
  | Uint16Array => z mod 2 ^ 16
  | Int16Array => to_signed 16 (z mod 2 ^ 16)
  | Uint32Array => z mod 2 ^ 32
  | Int32Array => to_signed 32 (z mod 2 ^ 32)
  | Float32Array => z mod 2 ^ 32
  | Float64Array => z mod 2 ^ 64
  end.

(** [dest.set(src, offset)] between typed arrays, on the elements of a
    destination of kind [k]. *)
Definition typedSet (k : TypedArrayKind) (dest src : list Z) (off : nat)
  : result (list Z) :=
  if decide (off + length src <= length dest)%nat then
    Ok (take off dest ++ (wrap k <$> src) ++ drop (off + length src) dest)%list
  else Throw RangeError.

(** The bounds of [arr.slice(begin, end)] and [arr.subarray(begin, end)]:
    [NaN] counts as 0, a negative index counts from the end. *)
Definition sliceList {A} (l : list A) (b e : option Z) : list A :=
  let len := Z.of_nat (length l) in
  let rel (i : option Z) :=
    match i with
    | None => 0
    | Some i => if i <? 0 then Z.max (len + i) 0 else Z.min i len
    end in
  take (Z.to_nat (rel e) - Z.to_nat (rel b)) (drop (Z.to_nat (rel b)) l).

(** [arr.splice(index, 0, x)]. *)
Definition splice {A} (l : list A) (index : nat) (x : A) : list A :=
  (take index l ++ x :: drop index l)%list.

(** ** The execution environment *)

(** [isNativeLittleEndianFunc] and [window.TextDecoder] depend on the
    platform.  A decoder maps a label and bytes to text; [None] as its
    result stands for text with code units above 255, which the strings
    of this embedding (8-bit code units) cannot hold. *)
Record Env := {
  isNativeLittleEndian : bool;
  TextDecoder : option (string -> list byte -> option string)
}.

(** ** DataView and DataReader (dicomParser.js) *)

Module DataReader.

  (** Big endian value of a byte sequence. *)
Fixpoint be_value (bs : list byte) : Z :=
    match bs with
    | [] => 0
    | b :: r => u8 b * 256 ^ Z.of_nat (length r) + be_value r
    end.

  (** [n] bytes of [buf] from [off], [None] when they are not all there. *)
Definition bytes_at (buf : list byte) (off n : nat) : option (list byte) :=
    if decide (off + n <= length buf)%nat then Some (take n (drop off buf)) else None.

  (** [DataView.prototype.getUintN(byteOffset, littleEndian)] for N = 8 * n. *)
Definition getUint (n : nat) (buf : list byte) (off : nat) (littleEndian : bool)
    : result Z :=
    bs ← of_option RangeError (bytes_at buf off n);
    Ok (be_value (if littleEndian then rev bs else bs)).

Definition getInt (n : nat) (buf : list byte) (off : nat) (littleEndian : bool)
    : result Z :=
    u ← getUint n buf off littleEndian;
    Ok (to_signed (8 * Z.of_nat n) u).

Record t := {
    isLittleEndian : bool;
    utfLabel : string          (* label of the installed TextDecoder *)
  }.

  (** [new DataReader(buffer, isLittleEndian = true)]. *)
Definition new (isLittleEndian : bool) : t :=
    {| isLittleEndian := isLittleEndian; utfLabel := "iso-8859-1" |}.

Definition setUtfLabel (env : Env) (r : t) (label : string) : t :=
    match TextDecoder env with
    | Some _ => {| isLittleEndian := isLittleEndian r; utfLabel := label |}
    | None => r
    end.

Definition needFlip (env : Env) (r : t) : bool :=
    negb (eqb (isLittleEndian r) (isNativeLittleEndian env)).

  (** [flipArrayEndianness]: every group of [bpel] bytes of the viewed
      bytes is reversed in place ([n] groups). *)
Fixpoint flipArrayEndianness (bpel n : nat) (u8s : list byte) : list byte :=
    match n with
    | O => u8s
    | S n' => rev (take bpel u8s) ++ flipArrayEndianness bpel n' (drop bpel u8s)
    end.

Definition readUint16 (r : t) (buf : list byte) (byteOffset : nat) : result Z :=
    getUint 2 buf byteOffset (isLittleEndian r).

Definition readUint32 (r : t) (buf : list byte) (byteOffset : nat) : result Z :=
    getUint 4 buf byteOffset (isLittleEndian r).

Definition readInt32 (r : t) (buf : list byte) (byteOffset : nat) : result Z :=
    getInt 4 buf byteOffset (isLittleEndian r).

  (** [new Uint8Array(buffer, byteOffset, size)] and the like: a view of
      [len] elements, shown by the values it has when it is created. The
      elements are read in the byte order of the platform. *)
Definition view (env : Env) (k : TypedArrayKind) (buf : list byte)
      (byteOffset len : nat) : result (list Z) :=
    let bpel := BYTES_PER_ELEMENT k in
    if decide (byteOffset + len * bpel <= length buf)%nat then
      Ok (map (fun i =>
                 let bs := take bpel (drop (byteOffset + i * bpel) buf) in
                 wrap k (be_value (if isNativeLittleEndian env then rev bs else bs)))
              (seq 0 len))
    else Throw RangeError.

Definition readUint8Array (env : Env) (buf : list byte) (byteOffset size : nat)
    : result (list Z) :=
    view env Uint8Array buf byteOffset size.

Definition readInt8Array (env : Env) (buf : list byte) (byteOffset size : nat)
    : result (list Z) :=
    view env Int8Array buf byteOffset size.

  (** The buffer after [flipArrayEndianness] of a view of [len] elements. *)
Definition flipped (bpel : nat) (buf : list byte) (byteOffset len : nat) : list byte :=
    take byteOffset buf
      ++ flipArrayEndianness bpel len (take (len * bpel) (drop byteOffset buf))
      ++ drop (byteOffset + len * bpel) buf.

  (** The element by element loop
      [for (i = 0; i < arraySize; ++i) data[i] = get(byteOffset + bpel * i)];
      a store past the end of [data] is ignored, as for every typed array. *)
Fixpoint fill (k : TypedArrayKind) (get : nat -> result Z) (byteOffset : nat)
      (count i : nat) (data : list Z) : result (list Z) :=
    match count with
    | O => Ok data
    | S count' =>
        v ← get (byteOffset + BYTES_PER_ELEMENT k * i)%nat;
        fill k get byteOffset count' (S i) (<[i := wrap k v]> data)
    end.

  (** The common shape of [readUint16Array] ... [readFloat64Array].
      [arraySize = size / bpel] need not be whole: the constructors
      truncate it, the loop [i < arraySize] runs up to its ceiling. The
      result is the array and the buffer, which the aligned path flips in
      place when the byte orders differ. *)
Definition readArray (env : Env) (r : t) (k : TypedArrayKind)
      (get : list byte -> nat -> bool -> result Z)
      (buf : list byte) (byteOffset size : nat) : result (list Z * list byte) :=
    let bpel := BYTES_PER_ELEMENT k in
    let len := (size / bpel)%nat in
    if decide (byteOffset mod bpel = 0)%nat then
      _ ← view env k buf byteOffset len;
      if needFlip env r then
        let buf' := flipped bpel buf byteOffset len in
        data ← view env k buf' byteOffset len;
        Ok (data, buf')
      else
        data ← view env k buf byteOffset len;
        Ok (data, buf)
    else
      let iterations := ((size + bpel - 1) / bpel)%nat in
      data ← fill k (fun off => get buf off (isLittleEndian r)) byteOffset
             iterations 0%nat (replicate len 0);
      Ok (data, buf).

Definition readUint16Array env r := readArray env r Uint16Array (getInt 2).
Definition readInt16Array env r := readArray env r Int16Array (getInt 2).
Definition readUint32Array env r := readArray env r Uint32Array (getUint 4).
Definition readInt32Array env r := readArray env r Int32Array (getInt 4).
  (** [getFloat32] and [getFloat64] return the number whose bit pattern is
      read; it is stored with the same bit pattern. *)
Definition readFloat32Array env r := readArray env r Float32Array (getUint 4).
Definition readFloat64Array env r := readArray env r Float64Array (getUint 8).

End DataReader.

(** ** Strings and numbers of JavaScript

    A string of the embedding is a [string] of 8-bit code units: what
    [String.fromCharCode] makes of the bytes of a buffer.  A number is an
    integer or [NaN]; [num] is [option Z] with [None] for [NaN]. *)

Module JS.

Definition num := option Z.

Definition code (c : ascii) : Z := Z.of_N (N_of_ascii c).
Definition fromCharCode (z : Z) : ascii := ascii_of_N (Z.to_N (z mod 256)).

  (** [String.fromCharCode(buf[i])] over a byte array: [defaultTextDecoder.decode]. *)
Definition string_of_bytes (bs : list byte) : string :=
    string_of_list_ascii (map ascii_of_byte bs).

  (** [str.charCodeAt(i)] for every [i], as stored by [setUint8]. *)
Definition bytes_of_string (s : string) : list byte :=
    map byte_of_ascii (list_ascii_of_string s).

Definition isDigit (c : ascii) : bool := (48 <=? code c) && (code c <=? 57).
Definition isLower (c : ascii) : bool := (97 <=? code c) && (code c <=? 122).
Definition isUpper (c : ascii) : bool := (65 <=? code c) && (code c <=? 90).

  (** White space and line terminators below 256, the characters removed
      by [String.prototype.trim] and skipped by [parseInt]. *)
Definition isWhiteSpace (c : ascii) : bool :=
    let n := code c in
    (n =? 9) || (n =? 10) || (n =? 11) || (n =? 12) || (n =? 13) || (n =? 32) || (n =? 160).

Fixpoint trimStart (s : string) : string :=
    match s with
    | String c r => if isWhiteSpace c then trimStart r else s
    | EmptyString => EmptyString
    end.

Definition reverse (s : string) : string :=
    string_of_list_ascii (rev (list_ascii_of_string s)).

Definition trimEnd (s : string) : string := reverse (trimStart (reverse s)).

Definition trim (s : string) : string := trimEnd (trimStart s).

  (** [str.substr(start, length)]. *)
Definition substr (s : string) (start len : nat) : string := substring start len s.

  (** [str.substring(start, end)] for [start <= end]. *)
Definition substring' (s : string) (i j : nat) : string := substring i (j - i) s.

  (** The last character, [str[str.length - 1]]. *)
Definition lastChar (s : string) : option ascii :=
    last (list_ascii_of_string s).

  (** [toUpperCase], used by the sources on hexadecimal digits only; the
      letters of ASCII are mapped, every other character is kept. *)
Definition toUpperCase (s : string) : string :=
    string_of_list_ascii
      (map (fun c => if isLower c then fromCharCode (code c - 32) else c)
           (list_ascii_of_string s)).

Definition hexDigit (d : Z) : ascii :=
    if d <? 10 then fromCharCode (48 + d) else fromCharCode (87 + d).

  (** [n.toString(16)] for a number [0 <= n]: lower case digits, no padding. *)
Fixpoint toString16_aux (fuel : nat) (z : Z) (acc : string) : string :=
    match fuel with
    | O => acc
    | S fuel' =>
        let acc' := String (hexDigit (z mod 16)) acc in
        if z / 16 =? 0 then acc' else toString16_aux fuel' (z / 16) acc'
    end.
Definition toString16 (z : Z) : string := toString16_aux 16 z "".

Definition digitValue (c : ascii) : option Z :=
    if isDigit c then Some (code c - 48)
    else if isLower c then Some (code c - 87)
    else if isUpper c then Some (code c - 55)
    else None.

Fixpoint parseDigits (radix : Z) (s : string) (acc : num) : num :=
    match s with
    | EmptyString => acc
    | String c r =>
        match digitValue c with
        | Some d =>
            if d <? radix
            then parseDigits radix r (Some (default 0 acc * radix + d))
            else acc
        | None => acc
        end
    end.

  (** [parseInt(str, radix)] for radix 10 and 16. *)
Definition parseInt (s : string) (radix : Z) : num :=
    let s := trimStart s in
    let '(neg, s) :=
      match s with
      | String "-" r => (true, r)
      | String "+" r => (false, r)
      | _ => (false, s)
      end in
    let s :=
      match s with
      | String "0" (String "x" r) | String "0" (String "X" r) =>
          if radix =? 16 then r else s
      | _ => s
      end in
    (fun z : Z => if neg then - z else z) <$> parseDigits radix s None.

  (** Decimal literals. *)
Fixpoint allDigits (s : string) : bool :=
    match s with
    | EmptyString => true
    | String c r => isDigit c && allDigits r
    end.

  (** Characters by which a numeric literal leaves the integers. *)
Definition beyondInteger (c : ascii) : bool :=
    let n := code c in
    (n =? 46) || (n =? 69) || (n =? 101) || (n =? 88) || (n =? 120)        (* . E e X x *)
    || (n =? 79) || (n =? 111) || (n =? 66) || (n =? 98) || (n =? 73).    (* O o B b I *)

Fixpoint anyChar (p : ascii -> bool) (s : string) : bool :=
    match s with
    | EmptyString => false
    | String c r => p c || anyChar p r
    end.

  (** [ToNumber] of a string: the empty string is 0, an integer literal
      its value, any other text [NaN].  Literals with a fraction, an
      exponent, a radix prefix or [Infinity] have no counterpart in [num]
      and are reported as [Unmodelled]. *)
Definition toNumber (s : string) : result num :=
    let s := trim s in
    let body :=
      match s with
      | String "-" r | String "+" r => r
      | _ => s
      end in
    match s with
    | EmptyString => Ok (Some 0)
    | _ =>
        if allDigits body && negb (String.eqb body "") then Ok (parseInt s 10)
        else if anyChar beyondInteger s then Throw Unmodelled
        else Ok None
    end.

  (** [str.split(sep)] for a separator of one character. *)
Fixpoint split_aux (sep : ascii) (s : string) (cur : string) : list string :=
    match s with
    | EmptyString => [reverse cur]
    | String c r =>
        if Ascii.eqb c sep then reverse cur :: split_aux sep r ""
        else split_aux sep r (String c cur)
    end.
Definition split (sep : ascii) (s : string) : list string := split_aux sep s "".

  (** The regular expressions of the sources are plain texts in which
      [.] stands for any character except a line terminator;
      [str.match(re) !== null] looks for the pattern anywhere in [str]. *)
Fixpoint matchHere (pat : string) (s : string) : bool :=
    match pat, s with
    | EmptyString, _ => true
    | String _ _, EmptyString => false
    | String p pr, String c r =>
        (if Ascii.eqb p "." then negb ((code c =? 10) || (code c =? 13))
         else Ascii.eqb p c)
        && matchHere pr r
    end.

Fixpoint matches (pat : string) (s : string) : bool :=
    matchHere pat s ||
    match s with
    | EmptyString => false
    | String _ r => matches pat r
    end.

End JS.

(** ** DICOM elements and the data dictionary (dicomParser.js) *)

Module Dicom.

  (** An entry [dictionary[group][element] = [vr, vm, keyword]].  The
      dictionary and the table of group names are data files of the
      repository; they are parameters here.  A dictionary is kept in the
      order of [Object.keys]. *)
Record DictEntry := { entry_vr : string; entry_vm : string; entry_keyword : string }.

Record Tables := {
    dictionary : list (string * list (string * DictEntry));
    TagGroups : string -> option string
  }.

  (** [obj[key]] on an object kept as the list of its own properties. *)
Fixpoint get {A} (key : string) (obj : list (string * A)) : option A :=
    match obj with
    | [] => None
    | (k, v) :: r => if String.eqb k key then Some v else get key r
    end.

  (** [obj[key] = v]: an existing property keeps its place. *)
Fixpoint set {A} (key : string) (v : A) (obj : list (string * A)) : list (string * A) :=
    match obj with
    | [] => [(key, v)]
    | (k, w) :: r => if String.eqb k key then (k, v) :: r else (k, w) :: set key v r
    end.

  (** [dictionary[group] && dictionary[group][element]]. *)
Definition lookupDict (tb : Tables) (group element : string) : option DictEntry :=
    els ← get group (dictionary tb); get element els.

Record Tag := { group : string; element : string; name : option string }.

  (** The value length of an element: a number, or a string such as ['u/l']. *)
Inductive VL := VLnum (n : Z) | VLstr (s : string).

#[global] Instance VL_eq_dec : EqDecision VL.
Proof. solve_decision. Defined.

Definition undefinedLength : VL := VLstr "u/l".

Definition isUndefinedLength (vl : VL) : bool :=
    match vl with VLstr s => String.eqb s "u/l" | VLnum _ => false end.

#[warnings="-register-all"] Inductive JSValue :=
  | JUndefined
  | JNull
  | JNumber (z : Z)
  | JString (s : string)
  | JTypedArray (k : TypedArrayKind) (data : list Z)
  | JArray (l : list JSValue)
  | JItem (m : list (string * Element))
  with Element :=
  | mkElement (tag : Tag) (vr : string) (vl : VL) (value : JSValue)
              (startOffset endOffset : nat).

Definition tag (e : Element) : Tag := let 'mkElement t _ _ _ _ _ := e in t.
Definition vr (e : Element) : string := let 'mkElement _ v _ _ _ _ := e in v.
Definition vl (e : Element) : VL := let 'mkElement _ _ l _ _ _ := e in l.
Definition value (e : Element) : JSValue := let 'mkElement _ _ _ v _ _ := e in v.
Definition startOffset (e : Element) : nat := let 'mkElement _ _ _ _ s _ := e in s.
Definition endOffset (e : Element) : nat := let 'mkElement _ _ _ _ _ n := e in n.

Definition ElementMap := list (string * Element).

  (** [element.tag.name === key]. *)
Definition nameIs (e : Element) (key : string) : bool :=
    match name (tag e) with Some n => String.eqb n key | None => false end.

  (** [v[0]] for the value of an element. *)
Definition index0 (v : JSValue) : result JSValue :=
    match v with
    | JTypedArray _ (z :: _) => Ok (JNumber z)
    | JArray (x :: _) => Ok x
    | JTypedArray _ [] | JArray [] | JNumber _ | JItem _ => Ok JUndefined
    | JString s => Ok (match s with String c _ => JString (String c "") | _ => JUndefined end)
    | JUndefined | JNull => Throw TypeError
    end.

  (** [v.length]. *)
Definition jsLength (v : JSValue) : result JSValue :=
    match v with
    | JTypedArray _ d => Ok (JNumber (Z.of_nat (length d)))
    | JArray l => Ok (JNumber (Z.of_nat (length l)))
    | JString s => Ok (JNumber (Z.of_nat (String.length s)))
    | JNumber _ | JItem _ => Ok JUndefined
    | JUndefined | JNull => Throw TypeError
    end.

  (** [ToNumber] where the sources compute with a value read from an
      element; arrays and objects are not used that way. *)
Definition toNumber (v : JSValue) : result JS.num :=
    match v with
    | JNumber z => Ok (Some z)
    | JString s => JS.toNumber s
    | JUndefined => Ok None
    | JNull => Ok (Some 0)
    | JTypedArray _ _ | JArray _ | JItem _ => Throw Unmodelled
    end.

  (** [cleanString]: trim, then drop one final [String.fromCharCode('u200B')],
      which is the character of code 0. A value that is not a string has
      no [trim], or is returned as it is and fails at its first use as a
      string. *)
Definition cleanString (s : string) : string :=
    match s with
    | EmptyString => s
    | _ =>
        let res := JS.trim s in
        match JS.lastChar res with
        | Some c => if (JS.code c =? 0) then JS.substring' res 0 (String.length res - 1) else res
        | None => res
        end
    end.

Definition getGroupElementKey (group element : string) : string :=
    "x" ++ JS.substr group 2 6 ++ JS.substr element 2 6.

Definition isImplicitTransferSyntax (syntax : string) : bool :=
    String.eqb syntax "1.2.840.10008.1.2".

Definition isBigEndianTransferSyntax (syntax : string) : bool :=
    String.eqb syntax "1.2.840.10008.1.2.2".

Definition isJpegBaselineTransferSyntax (syntax : string) : bool :=
    String.eqb syntax "1.2.840.10008.1.2.4.50" || String.eqb syntax "1.2.840.10008.1.2.4.51".

Definition isJpegLosslessTransferSyntax (syntax : string) : bool :=
    String.eqb syntax "1.2.840.10008.1.2.4.57" || String.eqb syntax "1.2.840.10008.1.2.4.70".

Definition isJpeg2000TransferSyntax (syntax : string) : bool :=
    JS.matches "1.2.840.10008.1.2.4.9" syntax.

Definition isReadSupportedTransferSyntax (syntax : string) : bool :=
    String.eqb syntax "1.2.840.10008.1.2"
    || String.eqb syntax "1.2.840.10008.1.2.1"
    || String.eqb syntax "1.2.840.10008.1.2.2"
    || isJpegBaselineTransferSyntax syntax
    || isJpegLosslessTransferSyntax syntax
    || isJpeg2000TransferSyntax syntax.

  (** [getTypedArray(bitsAllocated, pixelRepresentation, size)]: the kind
      of the new array, [None] for the result [null]. *)
Definition getTypedArray (bitsAllocated pixelRepresentation : Z) : option TypedArrayKind :=
    if bitsAllocated =? 8 then
      Some (if pixelRepresentation =? 0 then Uint8Array else Int8Array)
    else if bitsAllocated =? 16 then
      Some (if pixelRepresentation =? 0 then Uint16Array else Int16Array)
    else if bitsAllocated =? 32 then
      Some (if pixelRepresentation =? 0 then Uint32Array else Int32Array)
    else None.

Definition is32bitVLVRFunc (vr : string) : bool :=
    String.eqb vr "OB" || String.eqb vr "OW" || String.eqb vr "OF" || String.eqb vr "ox"
    || String.eqb vr "UT" || String.eqb vr "SQ" || String.eqb vr "UN".

Definition isTagWithVR (group element : string) : bool :=
    negb (String.eqb group "0xFFFE"
          && (String.eqb element "0xE000" || String.eqb element "0xE00D"
              || String.eqb element "0xE0DD")).

Definition getDataElementPrefixByteSize (vr : string) (isImplicit : bool) : nat :=
    if isImplicit || negb (is32bitVLVRFunc vr) then 8%nat else 12%nat.

  (** [getGroupElementFromName]: the search stops at the first entry with
      the keyword; when there is none, the last group and element that
      were visited are returned. *)
Fixpoint scanElements (tagName : string) (els : list (string * DictEntry))
      (element : option string) : option string * bool :=
    match els with
    | [] => (element, false)
    | (e, entry) :: r =>
        if String.eqb (entry_keyword entry) tagName then (Some e, true)
        else scanElements tagName r (Some e)
    end.

Fixpoint scanGroups (tagName : string) (gs : list (string * list (string * DictEntry)))
      (group element : option string) : option string * option string :=
    match gs with
    | [] => (group, element)
    | (g, els) :: r =>
        let '(element', found) := scanElements tagName els element in
        if found then (Some g, element') else scanGroups tagName r (Some g) element'
    end.

Definition getGroupElementFromName (tb : Tables) (tagName : string)
    : option string * option string :=
    scanGroups tagName (dictionary tb) None None.

End Dicom.

(** ** DicomParser (dicomParser.js) *)

Module DicomParser.
Import Dicom.

  (** A loop of the sources, run at most [n] times; the body answers
      [inl s] to go on and [inr r] to leave the loop. *)
Fixpoint loop {S R : Type} (n : nat) (body : S -> result (S + R)) (s : S) : result R :=
    match n with
    | O => Throw OutOfFuel
    | S n' =>
        x ← body s;
        match x with
        | inl s' => loop n' body s'
        | inr r => Ok r
        end
    end.

Section Reading.
Context (env : Env) (tb : Tables).

    (** [reader.readHex(byteOffset)]. *)
Definition readHex (r : DataReader.t) (buf : list byte) (byteOffset : nat)
      : result string :=
      v ← DataReader.readUint16 r buf byteOffset;
      let str := JS.toString16 v in
      Ok (JS.substr "0x0000" 0 (6 - String.length str) ++ JS.toUpperCase str).

    (** [reader.readString(byteOffset, nChars)]. *)
Definition readString (buf : list byte) (byteOffset nChars : nat) : result string :=
      bs ← of_option RangeError (DataReader.bytes_at buf byteOffset nChars);
      Ok (JS.string_of_bytes bs).

    (** [reader.readSpecialString(byteOffset, nChars)]. *)
Definition readSpecialString (r : DataReader.t) (buf : list byte)
        (byteOffset nChars : nat) : result string :=
      bs ← of_option RangeError (DataReader.bytes_at buf byteOffset nChars);
      match TextDecoder env with
      | Some decode => of_option Unmodelled (decode (DataReader.utfLabel r) bs)
      | None => Ok (JS.string_of_bytes bs)
      end.

    (** [readTag]; the field [endOffset] of the tag is the second component. *)
Definition readTag (r : DataReader.t) (buf : list byte) (offset : nat)
      : result (Tag * nat) :=
      group ← readHex r buf offset;
      element ← readHex r buf (offset + 2);
      Ok ({| group := group; element := element;
             name := Some (getGroupElementKey group element) |}, (offset + 4)%nat).

    (** What [readDataElement] knows when it has read the tag, the VR and
        the VL of an element (the part of its body up to [startOffset]). *)
Record Header := {
      h_tag : Tag;
      h_vr : string;
      h_is32bitVLVR : bool;
      h_vlString : VL;
      h_vl : nat;
      h_startOffset : nat
    }.

Definition readHeader (r : DataReader.t) (buf : list byte) (offset : nat)
        (implicit : bool) : result Header :=
      '(tag, offset) ← readTag r buf offset;
      '(vr, is32bitVLVR, offset) ←
        (if isTagWithVR (group tag) (element tag) then
           if implicit then
             let vr := match lookupDict tb (group tag) (element tag) with
                       | Some entry => entry_vr entry
                       | None => "UN"
                       end in
             Ok (vr, true, offset)
           else
             vr ← readString buf offset 2;
             let offset := (offset + 2)%nat in
             let is32bitVLVR := is32bitVLVRFunc vr in
             Ok (vr, is32bitVLVR, if is32bitVLVR then (offset + 2)%nat else offset)
         else Ok ("UN", true, offset));
      '(vl, offset) ←
        (if is32bitVLVR : bool then
           vl ← DataReader.readUint32 r buf offset; Ok (vl, (offset + 4)%nat)
         else
           vl ← DataReader.readUint16 r buf offset; Ok (vl, (offset + 2)%nat));
      let undefinedLen := vl =? 4294967295 in
      Ok {| h_tag := tag; h_vr := vr; h_is32bitVLVR := is32bitVLVR;
            h_vlString := if undefinedLen then undefinedLength else VLnum vl;
            h_vl := if undefinedLen then 0%nat else Z.to_nat vl;
            h_startOffset := offset |}.

    (** The strings of an [AT] value: ["(GGGG,EEEE)"] for every pair. *)
Definition pad4 (z : Z) : string :=
      let s := JS.toString16 z in
      JS.substr "0000" 0 (4 - String.length s) ++ JS.toUpperCase s.

Fixpoint formatAT (raw : list Z) : result (list JSValue) :=
      match raw with
      | [] => Ok []
      | [_] => Throw TypeError
      | g :: e :: r =>
          rest ← formatAT r;
          Ok (JString ("(" ++ pad4 g ++ "," ++ pad4 e ++ ")") :: rest)
      end.

Definition typed (k : TypedArrayKind) (x : result (list Z * list byte))
      : result (JSValue * list byte) :=
      '(d, buf) ← x; Ok (JTypedArray k d, buf).

    (** The pixel data of an element with explicit length. *)
Definition readPixelData (dicomElements : ElementMap) (r : DataReader.t)
        (buf : list byte) (offset vl : nat) (vr : string)
      : result (JSValue * list byte) :=
      bitsAllocated ←
        match get "x00280100" dicomElements with
        | Some e => index0 (value e)
        | None => Ok (JNumber 16)
        end;
      pixelRepresentation ←
        match get "x00280103" dicomElements with
        | Some e => index0 (value e)
        | None => Ok (JNumber 0)
        end;
      let unsigned := match pixelRepresentation with JNumber 0 => true | _ => false end in
      match bitsAllocated with
      | JNumber 8 =>
          if unsigned
          then d ← DataReader.readUint8Array env buf offset vl; Ok (JTypedArray Uint8Array d, buf)
          else d ← DataReader.readInt8Array env buf offset vl; Ok (JTypedArray Int8Array d, buf)
      | JNumber 16 =>
          if unsigned
          then typed Uint16Array (DataReader.readUint16Array env r buf offset vl)
          else typed Int16Array (DataReader.readInt16Array env r buf offset vl)
      | JNumber 32 =>
          if unsigned
          then typed Uint32Array (DataReader.readUint32Array env r buf offset vl)
          else typed Int32Array (DataReader.readInt32Array env r buf offset vl)
      | JNumber 64 => Throw TypeError      (* [readUint64Array] is not a function *)
      | _ => Ok (JNull, buf)
      end.

Definition isSpecialTextVR (vr : string) : bool :=
      String.eqb vr "SH" || String.eqb vr "LO" || String.eqb vr "ST"
      || String.eqb vr "PN" || String.eqb vr "LT" || String.eqb vr "UT".

    (** The result of [readItemDataElement]. *)
Record ItemData := {
      i_data : ElementMap;
      i_endOffset : nat;
      i_isSeqDelim : bool
    }.

Section Recursion.
      (** [this.readDataElement] of the recursive calls. *)
Context (self : DataReader.t -> list byte -> nat -> bool -> result (Element * list byte)).
Context (dicomElements : ElementMap).

Definition readItemDataElement (r : DataReader.t) (buf : list byte)
          (offset : nat) (implicit : bool) : result (ItemData * list byte) :=
        '(item, buf) ← self r buf offset implicit;
        let offset := endOffset item in
        if nameIs item "xFFFEE0DD" then
          Ok ({| i_data := []; i_endOffset := endOffset item; i_isSeqDelim := true |}, buf)
        else
          let itemData := set (default "undefined" (name (tag item))) item [] in
          match vl item with
          | VLnum n =>
              if n =? 0 then
                Ok ({| i_data := itemData; i_endOffset := offset; i_isSeqDelim := false |}, buf)
              else
                let endOff := offset in
                let offset := (offset - Z.to_nat n)%nat in
                '(itemData, offset, buf) ←
                  loop (S (length buf))
                    (fun '(itemData, offset, buf) =>
                       if (offset <? endOff)%nat then
                         '(item, buf) ← self r buf offset implicit;
                         Ok (inl (set (default "undefined" (name (tag item))) item itemData,
                                  endOffset item, buf))
                       else Ok (inr (itemData, offset, buf)))
                    (itemData, offset, buf);
                Ok ({| i_data := itemData; i_endOffset := offset; i_isSeqDelim := false |}, buf)
          | VLstr s =>
              if String.eqb s "u/l" then
                '(itemData, offset, buf) ←
                  loop (S (length buf))
                    (fun '(itemData, offset, buf) =>
                       '(item, buf) ← self r buf offset implicit;
                       if nameIs item "xFFFEE00D"
                       then Ok (inr (itemData, endOffset item, buf))
                       else Ok (inl (set (default "undefined" (name (tag item))) item itemData,
                                     endOffset item, buf)))
                    (itemData, offset, buf);
                Ok ({| i_data := itemData; i_endOffset := offset; i_isSeqDelim := false |}, buf)
              else Throw Unmodelled
          end.

      (** [readPixelItemDataElement]: the values of the items after the
          first one, the end offset and the VL of the first item. *)
Definition readPixelItemDataElement (r : DataReader.t) (buf : list byte)
          (offset : nat) (implicit : bool) : result (list JSValue * nat * VL * list byte) :=
        '(item, buf) ← self r buf offset implicit;
        let offsetTableVl := vl item in
        '(itemData, offset, buf) ←
          loop (S (length buf))
            (fun '(itemData, offset, buf) =>
               '(item, buf) ← self r buf offset implicit;
               if nameIs item "xFFFEE0DD"
               then Ok (inr (itemData, endOffset item, buf))
               else Ok (inl ((itemData ++ [value item])%list, endOffset item, buf)))
            ([], endOffset item, buf);
        Ok (itemData, offset, offsetTableVl, buf).

      (** The items of a sequence. *)
Definition readSequence (r : DataReader.t) (buf : list byte) (offset : nat)
          (implicit : bool) (vlString : VL) (vl : nat)
        : result (list JSValue * nat * list byte) :=
        if negb (isUndefinedLength vlString) then
          if (vl =? 0)%nat then Ok ([], offset, buf)
          else
            let sqEndOffset := (offset + vl)%nat in
            loop (S (length buf))
              (fun '(data, offset, buf) =>
                 if (offset <? sqEndOffset)%nat then
                   '(itemData, buf) ← readItemDataElement r buf offset implicit;
                   Ok (inl ((data ++ [JItem (i_data itemData)])%list, i_endOffset itemData, buf))
                 else Ok (inr (data, offset, buf)))
              ([], offset, buf)
        else
          loop (S (length buf))
            (fun '(data, offset, buf) =>
               '(itemData, buf) ← readItemDataElement r buf offset implicit;
               if i_isSeqDelim itemData
               then Ok (inr (data, i_endOffset itemData, buf))
               else Ok (inl ((data ++ [JItem (i_data itemData)])%list, i_endOffset itemData, buf)))
            ([], offset, buf).

      (** The body of [readDataElement]. *)
Definition readDataElementBody (r : DataReader.t) (buf : list byte) (offset : nat)
          (implicit : bool) : result (Element * list byte) :=
        h ← readHeader r buf offset implicit;
        let tag := h_tag h in
        let vr := h_vr h in
        let vl := h_vl h in
        let vlString := h_vlString h in
        let offset := h_startOffset h in
        let startOffset := offset in
        let isPixelData := match name tag with
                           | Some n => String.eqb n "x7FE00010"
                           | None => false
                           end in
        let arr k read :=
          '(d, buf) ← typed k (read env r buf offset vl);
          Ok (startOffset, d, (offset + vl)%nat, buf) in
        '(startOffset, data, offset, buf) ←
          (if isPixelData && isUndefinedLength vlString then
             '(items, endOff, offsetTableVl, buf) ←
               readPixelItemDataElement r buf offset implicit;
             match offsetTableVl with
             | VLnum n => Ok ((startOffset + Z.to_nat n)%nat, JArray items, endOff, buf)
             | VLstr _ => Throw Unmodelled
             end
           else if isPixelData
                   && (String.eqb vr "OB" || String.eqb vr "OW" || String.eqb vr "OF"
                       || String.eqb vr "ox") then
             '(d, buf) ← readPixelData dicomElements r buf offset vl vr;
             Ok (startOffset, d, (offset + vl)%nat, buf)
           else if String.eqb vr "OB" then
             d ← DataReader.readInt8Array env buf offset vl;
             Ok (startOffset, JTypedArray Int8Array d, (offset + vl)%nat, buf)
           else if String.eqb vr "OW" then arr Int16Array DataReader.readInt16Array
           else if String.eqb vr "OF" then arr Int32Array DataReader.readInt32Array
           else if String.eqb vr "OD" then Throw TypeError   (* no [readInt64Array] *)
           else if String.eqb vr "US" then arr Uint16Array DataReader.readUint16Array
           else if String.eqb vr "UL" then arr Uint32Array DataReader.readUint32Array
           else if String.eqb vr "SS" then arr Int16Array DataReader.readInt16Array
           else if String.eqb vr "SL" then arr Int32Array DataReader.readInt32Array
           else if String.eqb vr "FL" then arr Float32Array DataReader.readFloat32Array
           else if String.eqb vr "FD" then arr Float64Array DataReader.readFloat64Array
           else if String.eqb vr "AT" then
             '(raw, buf) ← DataReader.readUint16Array env r buf offset vl;
             data ← formatAT raw;
             Ok (startOffset, JArray data, (offset + vl)%nat, buf)
           else if String.eqb vr "UN" then
             d ← DataReader.readUint8Array env buf offset vl;
             Ok (startOffset, JTypedArray Uint8Array d, (offset + vl)%nat, buf)
           else if String.eqb vr "SQ" then
             '(items, offset, buf) ← readSequence r buf offset implicit vlString vl;
             Ok (startOffset, JArray items, offset, buf)
           else
             s ← (if isSpecialTextVR vr
                  then readSpecialString r buf offset vl
                  else readString buf offset vl);
             Ok (startOffset, JArray (JString <$> JS.split "\" s), (offset + vl)%nat, buf));
        Ok (mkElement tag vr vlString data startOffset offset, buf).

End Recursion.

    (** [readDataElement], to a nesting depth of [fuel] elements. *)
Fixpoint readDataElement (fuel : nat) (dicomElements : ElementMap)
        (r : DataReader.t) (buf : list byte) (offset : nat) (implicit : bool)
      : result (Element * list byte) :=
      match fuel with
      | O => Throw OutOfFuel
      | S fuel' =>
          readDataElementBody (readDataElement fuel' dicomElements) dicomElements
            r buf offset implicit
      end.

    (** [cleanString] on a value that need not be a string. *)
Definition cleanStringV (v : JSValue) : result JSValue :=
      match v with
      | JString s => Ok (JString (cleanString s))
      | JUndefined | JNull | JNumber 0 => Ok v
      | JNumber _ | JTypedArray _ _ | JArray _ | JItem _ => Throw TypeError
      end.

Definition getUtfLabel (charSetTerm : JSValue) : string :=
      match charSetTerm with
      | JString s =>
          if String.eqb s "ISO_IR 100" then "iso-8859-1"
          else if String.eqb s "ISO_IR 101" then "iso-8859-2"
          else if String.eqb s "ISO_IR 109" then "iso-8859-3"
          else if String.eqb s "ISO_IR 110" then "iso-8859-4"
          else if String.eqb s "ISO_IR 144" then "iso-8859-5"
          else if String.eqb s "ISO_IR 127" then "iso-8859-6"
          else if String.eqb s "ISO_IR 126" then "iso-8859-7"
          else if String.eqb s "ISO_IR 138" then "iso-8859-8"
          else if String.eqb s "ISO_IR 148" then "iso-8859-9"
          else if String.eqb s "ISO_IR 13" then "shift-jis"
          else if String.eqb s "ISO_IR 166" then "iso-8859-11"
          else if String.eqb s "ISO 2022 IR 87" then "iso-2022-jp"
          else if String.eqb s "GB18030" then "gb18030"
          else if String.eqb s "GB2312" then "gb2312"
          else if String.eqb s "GBK" then "chinese"
          else "utf-8"
      | _ => "utf-8"
      end.

    (** [isJpegRetiredTransferSyntax]: the two inner tests are called
        without an argument and answer [false]. *)
Definition isJpegRetiredTransferSyntax (syntax : string) : bool :=
      JS.matches "1.2.840.10008.1.2.4.5" syntax || JS.matches "1.2.840.10008.1.2.4.6" syntax.

Definition isJpeglsTransferSyntax (syntax : string) : bool :=
      JS.matches "1.2.840.10008.1.2.4.8" syntax.

Definition getTransferSyntaxName (syntax : string) : string :=
      if String.eqb syntax "1.2.840.10008.1.2" then "Little Endian Implicit"
      else if String.eqb syntax "1.2.840.10008.1.2.1" then "Little Endian Explicit"
      else if String.eqb syntax "1.2.840.10008.1.2.1.99" then "Little Endian Deflated Explicit"
      else if String.eqb syntax "1.2.840.10008.1.2.2" then "Big Endian Explicit"
      else if isJpegBaselineTransferSyntax syntax then
        if String.eqb syntax "1.2.840.10008.1.2.4.50" then "JPEG Baseline"
        else "JPEG Extended, Process 2+4"
      else if isJpegLosslessTransferSyntax syntax then
        if String.eqb syntax "1.2.840.10008.1.2.4.57"
        then "JPEG Lossless, Nonhierarchical (Processes 14)"
        else "JPEG Lossless, Non-hierarchical, 1st Order Prediction"
      else if isJpegRetiredTransferSyntax syntax then "Retired JPEG"
      else if isJpeglsTransferSyntax syntax then "JPEG-LS"
      else if isJpeg2000TransferSyntax syntax then
        if String.eqb syntax "1.2.840.10008.1.2.4.91" then "JPEG 2000 (Lossless or Lossy)"
        else "JPEG 2000 (Lossless only)"
      else if String.eqb syntax "1.2.840.10008.1.2.4.100" then "MPEG2"
      else if String.eqb syntax "1.2.840.10008.1.2.5" then "RLE"
      else "Unknown".

    (** [parseInt(v, 10)] for the first value of an element. *)
Definition parseIntV (v : JSValue) : result JS.num :=
      match v with
      | JNumber z => Ok (Some z)
      | JString s => Ok (JS.parseInt s 10)
      | JUndefined | JNull | JItem _ => Ok None
      | JTypedArray _ _ | JArray _ => Throw Unmodelled
      end.

Definition notDicomMagic : exn :=
      Error "Not a valid DICOM file (no magic DICM word found)".
Definition notDicomSyntax : exn :=
      Error "Not a valid DICOM file (no TransferSyntaxUID found)".
Definition unsupportedSyntax (syntax : string) : exn :=
      Error ("Unsupported DICOM transfer syntax: '" ++ syntax ++ "' ("
             ++ getTransferSyntaxName syntax ++ ")").

    (** The state of [parse] between two elements. *)
Record ParseState := {
      dicomElements : ElementMap;
      buffer : list byte;
      offset : nat
    }.

Definition store (dataElement : Element) (buf : list byte) (st : ParseState)
      : ParseState :=
      {| dicomElements :=
           set (default "undefined" (name (tag dataElement))) dataElement (dicomElements st);
         buffer := buf;
         offset := endOffset dataElement |}.

    (** The first part of [parse]: the magic word and the elements of the
        File Meta group, read with the little endian reader. *)
Definition readMeta (fuel : nat) (dicomElements0 : ElementMap) (buffer0 : list byte)
      : result ParseState :=
      let metaReader := DataReader.new true in
      magicword ← readString buffer0 128 4;
      if negb (String.eqb magicword "DICM") then Throw notDicomMagic
      else
        let st := {| dicomElements := dicomElements0; buffer := buffer0; offset := 132 |} in
        '(dataElement, buf) ←
          readDataElement fuel (dicomElements st) metaReader (buffer st) (offset st) false;
        let st := store dataElement buf st in
        v ← index0 (value dataElement);
        metaLength ← parseIntV v;
        let metaEnd := (fun m => Z.of_nat (offset st) + m) <$> metaLength in
        loop (S (length buffer0))
          (fun st =>
             if match metaEnd with
                | Some m => Z.of_nat (offset st) <? m
                | None => false
                end
             then
               '(dataElement, buf) ←
                 readDataElement fuel (dicomElements st) metaReader (buffer st) (offset st) false;
               Ok (inl (store dataElement buf st))
             else Ok (inr st))
          st.

    (** The transfer syntax of the elements read so far. *)
Definition readSyntax (dicomElements : ElementMap) : result string :=
      match get "x00020010" dicomElements with
      | None => Throw notDicomSyntax
      | Some e =>
          v ← index0 (value e);
          v ← cleanStringV v;
          match v with
          | JString syntax =>
              if isReadSupportedTransferSyntax syntax then Ok syntax
              else Throw (unsupportedSyntax syntax)
          | _ => Throw TypeError
          end
      end.

    (** The loop of [parse] over the elements of the data set. *)
Definition readDataSet (fuel : nat) (dataReader : DataReader.t) (implicit : bool)
        (st : ParseState) : result ParseState :=
      snd <$>
      loop (S (length (buffer st)))
        (fun '(dataReader, st) =>
           if (offset st <? length (buffer st))%nat then
             '(dataElement, buf) ←
               readDataElement fuel (dicomElements st) dataReader (buffer st) (offset st)
                 implicit;
             dataReader ←
               (if nameIs dataElement "x00080005" then
                  len ← jsLength (value dataElement);
                  charSetTerm ←
                    match len, value dataElement with
                    | JNumber 1, v => x ← index0 v; cleanStringV x
                    | _, JArray (_ :: x :: _) => cleanStringV x
                    | _, JTypedArray _ (_ :: z :: _) => cleanStringV (JNumber z)
                    | _, _ => cleanStringV JUndefined
                    end;
                  Ok (DataReader.setUtfLabel env dataReader (getUtfLabel charSetTerm))
                else Ok dataReader);
             Ok (inl (dataReader, store dataElement buf st))
           else Ok (inr (dataReader, st)))
        (dataReader, st).

    (** [arr.slice(begin, end)]. *)
Definition slice (v : JSValue) (b e : JS.num) : result JSValue :=
      match v with
      | JTypedArray k d => Ok (JTypedArray k (sliceList d b e))
      | JArray l => Ok (JArray (sliceList l b e))
      | JString s => Ok (JString (string_of_list_ascii (sliceList (list_ascii_of_string s) b e)))
      | JUndefined | JNull | JNumber _ | JItem _ => Throw TypeError
      end.

Definition mulNum (a b : JS.num) : JS.num := x ← a; y ← b; Some (x * y).
Definition addNum (a b : JS.num) : JS.num := x ← a; y ← b; Some (x + y).

    (** The number of turns of [for (g = 0; g < n; ++g)]. *)
Definition turns (n : JS.num) : nat :=
      match n with Some n => Z.to_nat n | None => 0%nat end.

    (** [elements.key.value[0]] as a number. *)
Definition firstNumber (key : string) (dicomElements : ElementMap) : result JS.num :=
      e ← of_option TypeError (get key dicomElements);
      v ← index0 (value e);
      toNumber v.

    (** The frames of pixel data with explicit length. *)
Definition sliceFrames (pixData : JSValue) (sliceSize : JS.num) (numberOfFrames : JS.num)
      : result (list JSValue) :=
      mapM (fun g : nat =>
              let frameOffset := mulNum (Some (Z.of_nat g)) sliceSize in
              slice pixData frameOffset (addNum frameOffset sliceSize))
           (seq 0 (turns numberOfFrames)).

    (** One frame of encapsulated pixel data: the fragments
        [pixItems[index + i]] for [i < nItemPerFrame], where
        [index = f * nItemPerFrame] and [nItemPerFrame] is the quotient
        [pixItems.length / numberOfFrames].  An index that is not whole, or
        past the end, finds [undefined], whose [length] is a TypeError. *)
Definition concatFragments (pixItems : list JSValue) (numberOfFrames : Z) (f : nat)
      : result JSValue :=
      let len := Z.of_nat (length pixItems) in
      if negb ((Z.of_nat f * len) mod numberOfFrames =? 0) then Throw TypeError
      else
        let index := Z.to_nat (Z.of_nat f * len / numberOfFrames) in
        let count := Z.to_nat ((len + numberOfFrames - 1) / numberOfFrames) in
        frags ← mapM (fun i : nat =>
                        match pixItems !! (index + i)%nat with
                        | Some (JTypedArray k d) => Ok d
                        | None | Some JUndefined | Some JNull => Throw TypeError
                        | Some _ => Throw Unmodelled
                        end)
                     (seq 0 count);
        match pixItems with
        | JTypedArray k _ :: _ => Ok (JTypedArray k (wrap k <$> concat frags))
        | _ => Throw TypeError
        end.

    (** The last part of [parse]: the value of the pixel data element
        becomes an array of frames. *)
Definition reshapePixelData (dicomElements : ElementMap) : result ElementMap :=
      match get "x7FE00010" dicomElements with
      | None => Ok dicomElements
      | Some pix =>
          numberOfFrames ←
            match get "x00280008" dicomElements with
            | Some e => v ← index0 (value e); toNumber v
            | None => Ok (Some 1)
            end;
          let setValue v :=
            set "x7FE00010"
                (mkElement (tag pix) (vr pix) (vl pix) v (startOffset pix) (endOffset pix))
                dicomElements in
          if negb (isUndefinedLength (vl pix)) then
            columns ← firstNumber "x00280011" dicomElements;
            rows ← firstNumber "x00280010" dicomElements;
            samplesPerPixel ← firstNumber "x00280002" dicomElements;
            let sliceSize := mulNum (mulNum columns rows) samplesPerPixel in
            newPixData ← sliceFrames (value pix) sliceSize numberOfFrames;
            Ok (setValue (JArray newPixData))
          else
            match value pix with
            | JArray pixItems =>
                let len := Z.of_nat (length pixItems) in
                if (1 <? len) && match numberOfFrames with
                                 | Some n => n <? len
                                 | None => false
                                 end
                then
                  newPixItems ← mapM (concatFragments pixItems (default 0 numberOfFrames))
                                     (seq 0 (turns numberOfFrames));
                  Ok (setValue (JArray newPixItems))
                else Ok dicomElements
            | _ => Throw Unmodelled
            end
      end.

    (** [parse(buffer)] on a parser whose element map is [dicomElements0]
        ([{}] for a new parser): the element map and the buffer after the
        call.  The nesting depth of elements is bounded by the length of
        the buffer. *)
Definition readElements (defaultCharacterSet : option string)
        (dicomElements0 : ElementMap) (buffer0 : list byte) : result ParseState :=
      let fuel := length buffer0 in
      st ← readMeta fuel dicomElements0 buffer0;
      syntax ← readSyntax (dicomElements st);
      let implicit := isImplicitTransferSyntax syntax in
      let dataReader := DataReader.new (negb (isBigEndianTransferSyntax syntax)) in
      let dataReader :=
        match defaultCharacterSet with
        | Some label => DataReader.setUtfLabel env dataReader label
        | None => dataReader
        end in
      readDataSet fuel dataReader implicit st.

Definition parseFrom (defaultCharacterSet : option string)
        (dicomElements0 : ElementMap) (buffer0 : list byte)
      : result (ElementMap * list byte) :=
      st ← readElements defaultCharacterSet dicomElements0 buffer0;
      els ← reshapePixelData (dicomElements st);
      Ok (els, buffer st).

Definition parse (buffer0 : list byte) : result (ElementMap * list byte) :=
      parseFrom None [] buffer0.

End Reading.

End DicomParser.

(** ** DataWriter (dicomWriter.js) *)

Module DataWriter.
Import Dicom.

  (** The [n] bytes of [z] modulo [256 ^ n], lowest first. *)
Definition le_bytes (n : nat) (z : Z) : list byte :=
    map (fun i : nat => byte_of_Z (z / 256 ^ Z.of_nat i)) (seq 0 n).

  (** [DataView.prototype.setUintN(byteOffset, value, littleEndian)];
      [setIntN] stores the same bytes. *)
Definition setUint (n : nat) (buf : list byte) (off : nat) (z : Z) (littleEndian : bool)
    : result (list byte) :=
    if decide (off + n <= length buf)%nat then
      Ok (take off buf ++ (if littleEndian then le_bytes n z else rev (le_bytes n z))
            ++ drop (off + n) buf)%list
    else Throw RangeError.

  (** The state of a writer: the buffer and the offset reached. *)
Definition Out : Type := list byte * nat.

Section Writing.
Context (isLittleEndian : bool).

Definition writeUint (n : nat) (o : Out) (z : Z) : result Out :=
      buf ← setUint n o.1 o.2 z isLittleEndian; Ok (buf, (o.2 + n)%nat).

Definition writeUint8 := writeUint 1.
Definition writeUint16 := writeUint 2.
Definition writeUint32 := writeUint 4.

    (** [writeHex(byteOffset, str)]. *)
Definition writeHex (o : Out) (str : string) : result Out :=
      writeUint16 o (default 0 (JS.parseInt (JS.substr str 2 (String.length str)) 16)).

    (** [writeString(byteOffset, str)]. *)
Definition writeString (o : Out) (str : string) : result Out :=
      foldM (fun o c => writeUint8 o (JS.code c)) o (list_ascii_of_string str).

    (** The elements [array[i]], [i < array.length], of a value that is
        written as an array. *)
Definition elementsOf (v : JSValue) : result (list JSValue) :=
      match v with
      | JTypedArray _ d => Ok (JNumber <$> d)
      | JArray l => Ok l
      | JNumber _ | JItem _ => Ok []
      | JString s => Ok ((fun c => JString (String c "")) <$> list_ascii_of_string s)
      | JUndefined | JNull => Throw TypeError
      end.

    (** [writeUint8Array] ... [writeInt32Array]: every element is stored
        by the [DataView], which takes [NaN] for 0. *)
Definition writeIntArray (n : nat) (o : Out) (array : JSValue) : result Out :=
      l ← elementsOf array;
      foldM (fun o x => z ← toNumber x; writeUint n o (default 0 z)) o l.

    (** [writeFloat32Array] and [writeFloat64Array].  The elements of a
        float array of the same width are stored with their bit pattern;
        other numbers would have to be converted to a float. *)
Definition writeFloatArray (k : TypedArrayKind) (o : Out) (array : JSValue) : result Out :=
      match array with
      | JTypedArray k' d =>
          if decide (k' = k) then foldM (fun o z => writeUint (BYTES_PER_ELEMENT k) o z) o d
          else if decide (d = []) then Ok o else Throw Unmodelled
      | JArray [] | JNumber _ | JItem _ => Ok o
      | JArray _ | JString _ => Throw Unmodelled
      | JUndefined | JNull => Throw TypeError
      end.

    (** [x.toString()]. *)
Definition toStringV (x : JSValue) : result string :=
      match x with
      | JString s => Ok s
      | JNumber z => Ok (pretty z)
      | JItem _ => Ok "[object Object]"
      | JUndefined | JNull => Throw TypeError
      | JTypedArray _ _ | JArray _ => Throw Unmodelled
      end.

    (** [writeStringArray(byteOffset, array)]. *)
Definition writeStringArray (o : Out) (array : JSValue) : result Out :=
      l ← elementsOf array;
      snd <$>
      foldM (fun '(first, o) x =>
               o ← (if first : bool then Ok o else writeString o "\");
               s ← toStringV x;
               o ← writeString o s;
               Ok (false, o))
            (true, o) l.

    (** The [AT] branch of [writeDataElementValue]. *)
Definition writeAT (o : Out) (value : JSValue) : result Out :=
      l ← elementsOf value;
      foldM (fun o x =>
               hexString ← match x with
                           | JUndefined => Ok "undefined"
                           | JNull => Ok "null"
                           | _ => toStringV x
                           end;
               let dec1 := JS.parseInt (JS.substring' hexString 1 5) 16 in
               let dec2 := JS.parseInt (JS.substring' hexString 6 10) 16 in
               o ← writeUint16 o (default 0 dec1);
               writeUint16 o (default 0 dec2))
            o l.

    (** [flattenArrayOfTypedArrays]. *)
Definition flattenArrayOfTypedArrays (initialArray : list JSValue) : result JSValue :=
      match initialArray with
      | JTypedArray k first :: _ =>
          let arrayLength := length first in
          data ←
            foldM (fun data '(i, x) =>
                     match x with
                     | JTypedArray _ d => typedSet k data d (i * arrayLength)
                     | JUndefined | JNull => Throw TypeError
                     | _ => Throw Unmodelled
                     end)
                  (replicate (length initialArray * arrayLength) 0)
                  (imap (fun i x => (i, x)) initialArray);
          Ok (JTypedArray k data)
      | _ => Throw TypeError
      end.

Definition isImplicitLengthSequence (e : Element) : bool :=
      String.eqb (vr e) "SQ" && isUndefinedLength (vl e).

Definition isImplicitLengthItem (e : Element) : bool :=
      nameIs e "xFFFEE000" && isUndefinedLength (vl e).

Definition isImplicitLengthPixels (e : Element) : bool :=
      nameIs e "x7FE00010" && isUndefinedLength (vl e).

Definition delimiter (elementCode delimName : string) : Element :=
      mkElement {| group := "0xFFFE"; element := elementCode; name := Some delimName |}
                "NONE" (VLnum 0) (JArray []) 0 0.

Definition itemDelimElement : Element := delimiter "0xE00D" "ItemDelimitationItem".
Definition seqDelimElement : Element := delimiter "0xE0DD" "SequenceDelimitationItem".

Definition withValue (e : Element) (v : JSValue) : Element :=
      mkElement (tag e) (vr e) (vl e) v (startOffset e) (endOffset e).

Section Recursion.
      (** [this.writeDataElement] of the recursive calls.  The element is
          returned as the call leaves it: the item elements of a sequence
          are changed in place by [writeDataElementItems]. *)
Context (self : Element -> Out -> bool -> result (Element * Out)).

      (** One item of [writeDataElementItems]. *)
Definition writeItem (item : JSValue) (o : Out) (isImplicit : bool)
        : result (JSValue * Out) :=
        match item with
        | JItem [] | JString "" => Ok (item, o)
        | JItem m =>
            itemElement ← of_option TypeError (get "xFFFEE000" m);
            let implicitLength := isUndefinedLength (vl itemElement) in
            let itemElement :=
              mkElement (tag itemElement) (vr itemElement)
                        (if implicitLength then VLnum 4294967295 else vl itemElement)
                        (JArray []) (startOffset itemElement) (endOffset itemElement) in
            '(itemElement, o) ← self itemElement o isImplicit;
            let m := set "xFFFEE000" itemElement m in
            '(m, o) ←
              foldM (fun '(m, o) key =>
                       if String.eqb key "xFFFEE000" || String.eqb key "xFFFEE00D"
                       then Ok (m, o)
                       else
                         e ← of_option TypeError (get key m);
                         '(e, o) ← self e o isImplicit;
                         Ok (set key e m, o))
                    (m, o) (fst <$> m);
            o ← (if implicitLength
                 then snd <$> self itemDelimElement o isImplicit
                 else Ok o);
            Ok (JItem m, o)
        | JUndefined | JNull => Throw TypeError
        | _ => Throw Unmodelled
        end.

      (** [writeDataElementItems(byteOffset, items, isImplicit)]. *)
Definition writeDataElementItems (o : Out) (items : list JSValue) (isImplicit : bool)
        : result (list JSValue * Out) :=
        foldM (fun '(done, o) item =>
                 '(item, o) ← writeItem item o isImplicit;
                 Ok ((done ++ [item])%list, o))
              ([], o) items.

      (** [writeDataElementValue(vr, byteOffset, value, isImplicit)]. *)
Definition writeDataElementValue (vr : string) (o : Out) (value : JSValue)
          (isImplicit : bool) : result (JSValue * Out) :=
        let plain (x : result Out) := o ← x; Ok (value, o) in
        match value with
        | JTypedArray Uint8Array _ | JTypedArray Int8Array _ => plain (writeIntArray 1 o value)
        | JTypedArray Uint16Array _ | JTypedArray Int16Array _ => plain (writeIntArray 2 o value)
        | JTypedArray Uint32Array _ | JTypedArray Int32Array _ => plain (writeIntArray 4 o value)
        | _ =>
            if String.eqb vr "UN" then plain (writeIntArray 1 o value)
            else if String.eqb vr "OB" then plain (writeIntArray 1 o value)
            else if String.eqb vr "OW" then plain (writeIntArray 2 o value)
            else if String.eqb vr "OF" then plain (writeIntArray 4 o value)
            else if String.eqb vr "OD" then Throw TypeError   (* no [writeInt64Array] *)
            else if String.eqb vr "US" then plain (writeIntArray 2 o value)
            else if String.eqb vr "SS" then plain (writeIntArray 2 o value)
            else if String.eqb vr "UL" then plain (writeIntArray 4 o value)
            else if String.eqb vr "SL" then plain (writeIntArray 4 o value)
            else if String.eqb vr "FL" then plain (writeFloatArray Float32Array o value)
            else if String.eqb vr "FD" then plain (writeFloatArray Float64Array o value)
            else if String.eqb vr "SQ" then
              match value with
              | JArray items =>
                  '(items, o) ← writeDataElementItems o items isImplicit;
                  Ok (JArray items, o)
              | JNumber _ | JItem _ => Ok (value, o)
              | JUndefined | JNull => Throw TypeError
              | _ => Throw Unmodelled
              end
            else if String.eqb vr "AT" then plain (writeAT o value)
            else plain (writeStringArray o value)
        end.

      (** [writePixelDataElementValue(vr, vl, byteOffset, value, isImplicit)].
          The item built for encapsulated data has the keys [0], [1], ...
          and [xFFFEE000]; [Object.keys] lists the whole numbers first. *)
Definition writePixelDataElementValue (vr : string) (vl : VL) (o : Out)
          (value : JSValue) (isImplicit : bool) : result Out :=
        if negb (isUndefinedLength vl) then
          match value with
          | JArray frames =>
              finalValue ← (if (1 <? length frames)%nat
                            then flattenArrayOfTypedArrays frames
                            else index0 value);
              snd <$> writeDataElementValue vr o finalValue isImplicit
          | JTypedArray _ d =>
              if (1 <? length d)%nat then Throw TypeError
              else
                finalValue ← index0 value;
                snd <$> writeDataElementValue vr o finalValue isImplicit
          | JUndefined | JNull => Throw TypeError
          | _ => Throw Unmodelled
          end
        else
          match value with
          | JArray frames =>
              let itemTag := {| group := "0xFFFE"; element := "0xE000";
                                name := Some "xFFFEE000" |} in
              fragments ←
                mapM (fun '(i, x) =>
                        len ← jsLength x;
                        match len with
                        | JNumber n => Ok (pretty (Z.of_nat i), mkElement itemTag vr (VLnum n) x 0 0)
                        | _ => Throw Unmodelled
                        end)
                     (imap (fun i x => (i, x)) frames);
              let item :=
                (fragments ++ [("xFFFEE000", mkElement itemTag "UN" (VLnum 0) (JArray []) 0 0)])%list in
              snd <$> writeDataElementItems o [JItem item] isImplicit
          | JUndefined | JNull => Throw TypeError
          | _ => Throw Unmodelled
          end.

      (** The body of [writeDataElement]. *)
Definition writeDataElementBody (e : Element) (o : Out) (isImplicit : bool)
        : result (Element * Out) :=
        let isTagWithVR := isTagWithVR (group (tag e)) (element (tag e)) in
        let is32bitVLVR :=
          if isImplicit || negb isTagWithVR then true else is32bitVLVRFunc (vr e) in
        o ← writeHex o (group (tag e));
        o ← writeHex o (element (tag e));
        o ← (if isTagWithVR && negb isImplicit then
               o ← writeString o (vr e);
               Ok (if is32bitVLVR then (o.1, (o.2 + 2)%nat) else o)
             else Ok o);
        vlNumber ←
          (if isImplicitLengthSequence e || isImplicitLengthItem e || isImplicitLengthPixels e
           then Ok (Some 4294967295)
           else match vl e with
                | VLnum n => Ok (Some n)
                | VLstr s => JS.toNumber s
                end);
        o ← (if is32bitVLVR then writeUint32 o (default 0 vlNumber)
             else writeUint16 o (default 0 vlNumber));
        let value := match value e with JUndefined => JArray [] | v => v end in
        '(value', o) ←
          (if nameIs e "x7FE00010" then
             o ← writePixelDataElementValue (vr e) (vl e) o value isImplicit;
             Ok (Dicom.value e, o)
           else
             '(v, o) ← writeDataElementValue (vr e) o value isImplicit;
             Ok (match Dicom.value e with JUndefined => JUndefined | _ => v end, o));
        o ← (if isImplicitLengthSequence e || isImplicitLengthPixels e
             then snd <$> self seqDelimElement o isImplicit
             else Ok o);
        Ok (withValue e value', o).

End Recursion.

    (** [writeDataElement], to a nesting depth of [fuel] elements. *)
Fixpoint writeDataElement (fuel : nat) (e : Element) (o : Out) (isImplicit : bool)
      : result (Element * Out) :=
      match fuel with
      | O => Throw OutOfFuel
      | S fuel' => writeDataElementBody (writeDataElement fuel') e o isImplicit
      end.

End Writing.

  (** The nesting depth of a value and of an element. *)
Fixpoint depthV (v : JSValue) : nat :=
    match v with
    | JArray l => S (list_max (map depthV l))
    | JItem m => S (list_max (map (fun p => depthE (snd p)) m))
    | _ => 0%nat
    end
  with depthE (e : Element) : nat :=
    match e with
    | mkElement _ _ _ v _ _ => S (depthV v)
    end.

End DataWriter.

(** ** DicomWriter (dicomWriter.js) *)

Module DicomWriter.
Import Dicom.

  (** A rule [{ action: 'actionName', value: 'optionalValue' }]. *)
Record Rule := { action : string; ruleValue : JSValue }.

  (** The rules of a writer, an object from names to rules.  Properties
      inherited from [Object.prototype] are not part of the embedding. *)
Abbreviation Rules := (gmap string Rule).

Definition defaultRules : Rules :=
    {[ "default" := {| action := "copy"; ruleValue := JNull |} ]}.

Definition anonymisationRules : Rules :=
    list_to_map
      [("default", {| action := "remove"; ruleValue := JNull |});
       ("PatientName", {| action := "replace"; ruleValue := JString "Anonymized" |});
       ("Meta Element", {| action := "copy"; ruleValue := JNull |});
       ("Acquisition", {| action := "copy"; ruleValue := JNull |});
       ("Image Presentation", {| action := "copy"; ruleValue := JNull |});
       ("Procedure", {| action := "copy"; ruleValue := JNull |});
       ("Pixel Data", {| action := "copy"; ruleValue := JNull |})].

  (** [v[0] = x] in strict mode. *)
Definition setIndex0 (v x : JSValue) : result JSValue :=
    match v with
    | JArray [] => Ok (JArray [x])
    | JArray (_ :: r) => Ok (JArray (x :: r))
    | JTypedArray k [] => Ok v
    | JTypedArray k (_ :: r) =>
        match k with
        | Float32Array | Float64Array => Throw Unmodelled
        | _ => z ← toNumber x; Ok (JTypedArray k (wrap k (default 0 z) :: r))
        end
    | JUndefined | JNull | JString _ | JNumber _ => Throw TypeError
    | JItem _ => Throw Unmodelled
    end.

  (** The actions of a writer.  An action is given the element object and
      the value of the rule; the result is the element object as the
      action leaves it and what the action returns, [None] for [null]
      and otherwise the same object. *)
Definition copy (item : Element) : result (Element * option Element) :=
    Ok (item, Some item).

Definition remove (item : Element) : result (Element * option Element) :=
    Ok (item, None).

Definition clear (item : Element) : result (Element * option Element) :=
    v ← setIndex0 (value item) (JString "");
    let item := mkElement (tag item) (vr item) (VLnum 0) v (startOffset item) (startOffset item) in
    Ok (item, Some item).

Definition replace (item : Element) (x : JSValue) : result (Element * option Element) :=
    v ← setIndex0 (value item) x;
    match x with
    | JString s =>
        let len := String.length s in
        let item := mkElement (tag item) (vr item) (VLnum (Z.of_nat len)) v
                              (startOffset item) (startOffset item + len) in
        Ok (item, Some item)
    | JUndefined | JNull => Throw TypeError
    | _ => Throw Unmodelled
    end.

Definition inheritedName (s : string) : bool :=
    bool_decide (s ∈ ["constructor"; "hasOwnProperty"; "isPrototypeOf"; "propertyIsEnumerable";
                      "toLocaleString"; "toString"; "valueOf"; "__proto__";
                      "__defineGetter__"; "__defineSetter__"; "__lookupGetter__";
                      "__lookupSetter__"]).

  (** [actions[rule.action](element, rule.value)]. *)
Definition applyAction (rule : Rule) (e : Element) : result (Element * option Element) :=
    let a := action rule in
    if String.eqb a "copy" then copy e
    else if String.eqb a "remove" then remove e
    else if String.eqb a "clear" then clear e
    else if String.eqb a "replace" then replace e (ruleValue rule)
    else if inheritedName a then Throw Unmodelled
    else Throw TypeError.

Section Writer.
Context (tb : Tables).

    (** [TagGroups[group.substr(1)]]. *)
Definition groupNameOf (e : Element) : option string :=
      TagGroups tb (JS.substr (group (tag e)) 1 (String.length (group (tag e)))).

    (** The rule that [getElementToWrite] selects; a name that is
        [undefined] is looked up as the property ["undefined"]. *)
Definition selectRule (rules : Rules) (e : Element) : option Rule :=
      let tagName := entry_keyword <$> lookupDict tb (group (tag e)) (element (tag e)) in
      match rules !! default "undefined" (name (tag e)) with
      | Some rule => Some rule
      | None =>
          match tagName ≫= (fun n => rules !! n) with
          | Some rule => Some rule
          | None =>
              match rules !! default "undefined" (groupNameOf e) with
              | Some rule => Some rule
              | None => rules !! "default"
              end
          end
      end.

Definition getElementToWrite (rules : Rules) (e : Element)
      : result (Element * option Element) :=
      rule ← of_option TypeError (selectRule rules e);
      applyAction rule e.

    (** [getDicomElement(tagName)]: no value yet, and the multiplicity of
        the dictionary in the place of the length. *)
Definition getDicomElement (tagName : string) : result Element :=
      let '(g, e) := getGroupElementFromName tb tagName in
      g ← of_option TypeError g;
      entry ← of_option TypeError (lookupDict tb g (default "undefined" e));
      Ok (mkElement {| group := g; element := default "undefined" e; name := None |}
                    (entry_vr entry) (VLstr (entry_vm entry)) JUndefined 0 0).

    (** [setElementValue(element, value, isImplicit)] for a value that is
        a string or a number and an element that is not a sequence: the
        element with its value and length, and the size in bytes. *)
Definition setElementValue (e : Element) (v : JSValue) : result (Element * Z) :=
      if String.eqb (vr e) "SQ" then Throw Unmodelled
      else
        size ← match v with
               | JString s => Ok (Z.of_nat (String.length s))
               | JNumber _ | JUndefined => Ok 1
               | JNull => Throw TypeError
               | JTypedArray _ _ | JArray _ | JItem _ => Throw Unmodelled
               end;
        let bytes :=
          if String.eqb (vr e) "US" || String.eqb (vr e) "OW" || String.eqb (vr e) "SS" then 2
          else if String.eqb (vr e) "UL" || String.eqb (vr e) "SL" || String.eqb (vr e) "FL" then 4
          else if String.eqb (vr e) "FD" then 8
          else 1 in
        let size := size * bytes in
        Ok (mkElement (tag e) (vr e) (VLnum size) (JArray [v]) (startOffset e) (endOffset e),
            size).

Definition getVersion : string := "1.0.0".

    (** [tag.equals2(element.tag)]. *)
Definition equals2 (g el : string) (e : Element) : bool :=
      String.eqb g (group (tag e)) && String.eqb el (element (tag e)).

    (** What the first loop of [getBuffer] gathers. *)
Record Sized := {
      dicomElements : ElementMap;                  (* the map of the caller *)
      metaElements : list (option string * Element);
      rawElements : list (option string * Element);
      metaLength : Z;
      totalSize : Z
    }.

Definition sizeStep (rules : Rules) (isImplicit : bool) (s : Sized) (key : string)
      : result Sized :=
      e0 ← of_option TypeError (get key (dicomElements s));
      '(e1, ret) ← getElementToWrite rules e0;
      let s := {| dicomElements := set key e1 (dicomElements s);
                  metaElements := metaElements s; rawElements := rawElements s;
                  metaLength := metaLength s; totalSize := totalSize s |} in
      match ret with
      | Some e =>
          if negb (equals2 "0x0002" "0x0000" e) && negb (equals2 "0x0002" "0x0012" e)
             && negb (equals2 "0x0002" "0x0013" e)
          then
            let isMeta := match groupNameOf e with
                          | Some g => String.eqb g "Meta Element"
                          | None => false
                          end in
            let prefix := getDataElementPrefixByteSize (vr e)
                            (if isMeta then false else isImplicit) in
            let realVl := Z.of_nat (endOffset e) - Z.of_nat (startOffset e) in
            let delim :=
              if DataWriter.isImplicitLengthSequence e || DataWriter.isImplicitLengthPixels e
              then getDataElementPrefixByteSize "NONE" isImplicit else 0%nat in
            let localSize := Z.of_nat prefix + realVl + Z.of_nat delim in
            Ok {| dicomElements := dicomElements s;
                  metaElements := if isMeta then (metaElements s ++ [(Some key, e)])%list
                                  else metaElements s;
                  rawElements := if isMeta then rawElements s
                                 else (rawElements s ++ [(Some key, e)])%list;
                  metaLength := if isMeta then metaLength s + localSize else metaLength s;
                  totalSize := totalSize s + localSize |}
          else Ok s
      | None => Ok s
      end.

    (** Writing the gathered elements; an element of the caller is put
        back in the map as the writer leaves it. *)
Definition writeAll (isLittleEndian isImplicit : bool)
        (st : ElementMap * DataWriter.Out) (l : list (option string * Element))
      : result (ElementMap * DataWriter.Out) :=
      foldM (fun '(m, o) '(key, e) =>
               '(e, o) ← DataWriter.writeDataElement isLittleEndian
                           (S (DataWriter.depthE e)) e o isImplicit;
               Ok (match key with Some k => set k e m | None => m end, o))
            st l.

    (** [getBuffer(dicomElements)] with the rules of the writer: the new
        buffer, and the element map of the caller after the call. *)
Definition getBuffer (rules : Rules) (dicomElements0 : ElementMap)
      : result (list byte * ElementMap) :=
      let keys := fst <$> dicomElements0 in
      ts ← of_option TypeError (get "x00020010" dicomElements0);
      v ← index0 (value ts);
      syntax ← DicomParser.cleanStringV v;
      let isImplicit := match syntax with
                        | JString s => isImplicitTransferSyntax s
                        | _ => false
                        end in
      let isBigEndian := match syntax with
                         | JString s => isBigEndianTransferSyntax s
                         | _ => false
                         end in
      s ← foldM (sizeStep rules isImplicit)
                {| dicomElements := dicomElements0; metaElements := []; rawElements := [];
                   metaLength := 0; totalSize := 128 + 4 |}
                keys;
      icUID ← getDicomElement "ImplementationClassUID";
      '(icUID, size) ← setElementValue icUID
                         (JString ("1.2.826.0.1.3680043.9.7278.1." ++ getVersion));
      let icUIDSize := Z.of_nat (getDataElementPrefixByteSize (vr icUID) isImplicit) + size in
      ivn ← getDicomElement "ImplementationVersionName";
      let ivnValue := "DWV_" ++ getVersion in
      let ivnValue := if (String.length ivnValue mod 2 =? 1)%nat
                      then ivnValue ++ String "000" "" else ivnValue in
      '(ivn, size) ← setElementValue ivn (JString ivnValue);
      let ivnSize := Z.of_nat (getDataElementPrefixByteSize (vr ivn) isImplicit) + size in
      let metaElements := (metaElements s ++ [(None, icUID); (None, ivn)])%list in
      let metaLength := metaLength s + icUIDSize + ivnSize in
      let totalSize := totalSize s + icUIDSize + ivnSize in
      fmigl ← getDicomElement "FileMetaInformationGroupLength";
      '(fmigl, size) ← setElementValue fmigl (JNumber metaLength);
      let fmiglSize := Z.of_nat (getDataElementPrefixByteSize (vr fmigl) isImplicit) + size in
      let totalSize := totalSize + fmiglSize in
      if totalSize <? 0 then Throw RangeError
      else
        let buffer := replicate (Z.to_nat totalSize) x00 in
        o ← DataWriter.writeString true (buffer, 128%nat) "DICM";
        st ← writeAll true false (dicomElements s, o) [(None, fmigl)];
        st ← writeAll true false st metaElements;
        '(m, o) ← writeAll (negb isBigEndian) isImplicit st (rawElements s);
        Ok (o.1, m).

End Writer.

End DicomWriter.

(** ** Points, vectors and matrices (math/point.js, math/vector.js, math/matrix.js)

    The numbers of the image model are integers. *)

Module Math.

Record Point3D := { getX : Z; getY : Z; getZ : Z }.
Record Vector3D := { vx : Z; vy : Z; vz : Z }.

  (** Modelled from the spec: [Point3D.prototype.getDistance] of
      math/point.js, which is not among the sources, the Euclidean
      distance of two points.  Distances are only compared with each
      other; they are kept as their squares, which compare the same way. *)
Definition getDistance (p q : Point3D) : Z :=
    (getX p - getX q) ^ 2 + (getY p - getY q) ^ 2 + (getZ p - getZ q) ^ 2.

  (** Modelled from the spec: [Point3D.prototype.minus] of math/point.js,
      the vector from [q] to [p]. *)
Definition minus (p q : Point3D) : Vector3D :=
    {| vx := getX p - getX q; vy := getY p - getY q; vz := getZ p - getZ q |}.

  (** Modelled from the spec: [Vector3D.prototype.dotProduct] of
      math/vector.js. *)
Definition dotProduct (u v : Vector3D) : Z :=
    vx u * vx v + vy u * vy v + vz u * vz v.

  (** Modelled from the spec: [Matrix33] of math/matrix.js, a matrix by
      its rows, with [get(row, col)] and the identity. *)
Record Matrix33 := { row0 : Vector3D; row1 : Vector3D; row2 : Vector3D }.

Definition getIdentityMat33 : Matrix33 :=
    {| row0 := {| vx := 1; vy := 0; vz := 0 |};
       row1 := {| vx := 0; vy := 1; vz := 0 |};
       row2 := {| vx := 0; vy := 0; vz := 1 |} |}.

End Math.

(** ** Size and Geometry (geometry.js) *)

Module Geometry.
Import Math.

  (** [new Size(numberOfColumns, numberOfRows, numberOfSlices)]; the
      number of slices may be left out. *)
Record Size := {
    getNumberOfColumns : Z;
    getNumberOfRows : Z;
    numberOfSlices : option Z
  }.

  (** [numberOfSlices || 1.0]. *)
Definition getNumberOfSlices (s : Size) : Z :=
    match numberOfSlices s with
    | Some n => if n =? 0 then 1 else n
    | None => 1
    end.

Definition getSliceSize (s : Size) : Z := getNumberOfColumns s * getNumberOfRows s.
Definition getTotalSize (s : Size) : Z := getSliceSize s * getNumberOfSlices s.

Definition isInBounds (s : Size) (i j k : Z) : bool :=
    negb ((i <? 0) || (getNumberOfColumns s - 1 <? i)
          || (j <? 0) || (getNumberOfRows s - 1 <? j)
          || (k <? 0) || (getNumberOfSlices s - 1 <? k)).

Record t := {
    getOrigin : Point3D;
    getOrigins : list Point3D;
    getSize : Size;
    getOrientation : Matrix33
  }.

  (** [new Geometry(origin, size, spacing, orientation)], the spacing left out. *)
Definition new (origin : Point3D) (size : Size) (orientation : Matrix33) : t :=
    {| getOrigin := origin; getOrigins := [origin]; getSize := size;
       getOrientation := orientation |}.

  (** The loop of [getSliceIndex] from index [i] on. *)
Fixpoint closest (point : Point3D) (origins : list Point3D) (i : nat)
      (minDist : Z) (closestSliceIndex : nat) : nat :=
    match origins with
    | [] => closestSliceIndex
    | o :: r =>
        let dist := getDistance point o in
        if dist <? minDist then closest point r (S i) dist i
        else closest point r (S i) minDist closestSliceIndex
    end.

Definition getSliceIndex (g : t) (point : Point3D) : result nat :=
    first ← of_option TypeError (getOrigins g !! 0%nat);
    let closestSliceIndex := closest point (getOrigins g) 0 (getDistance point first) 0 in
    o ← of_option TypeError (getOrigins g !! closestSliceIndex);
    let normal := row2 (getOrientation g) in
    let dotProd := dotProduct normal (minus point o) in
    Ok (if 0 <? dotProd then S closestSliceIndex else closestSliceIndex).

Definition appendOrigin (g : t) (origin : Point3D) (index : nat) : t :=
    {| getOrigin := getOrigin g;
       getOrigins := splice (getOrigins g) index origin;
       getSize := {| getNumberOfColumns := getNumberOfColumns (getSize g);
                     getNumberOfRows := getNumberOfRows (getSize g);
                     numberOfSlices := Some (getNumberOfSlices (getSize g) + 1) |};
       getOrientation := getOrientation g |}.

  (** [indexToOffset] of the index [(i, j, k)]. *)
Definition indexToOffset (g : t) (i j k : Z) : Z :=
    i + j * getNumberOfColumns (getSize g) + k * getSliceSize (getSize g).

End Geometry.

(** ** RescaleSlopeAndIntercept and Image (image.js) *)

Module Image.
Import Math.

Record RescaleSlopeAndIntercept := { getSlope : Z; getIntercept : Z }.

Definition apply (rsi : RescaleSlopeAndIntercept) (value : Z) : Z :=
    value * getSlope rsi + getIntercept rsi.

Definition equals (a b : RescaleSlopeAndIntercept) : bool :=
    (getSlope a =? getSlope b) && (getIntercept a =? getIntercept b).

Definition isID (rsi : RescaleSlopeAndIntercept) : bool :=
    (getSlope rsi =? 1) && (getIntercept rsi =? 0).

  (** A value of the meta information. *)
Inductive MetaValue := MString (s : string) | MNumber (z : Z) | MBool (b : bool).

#[global] Instance MetaValue_eq_dec : EqDecision MetaValue.
Proof. solve_decision. Defined.

Definition truthy (v : option MetaValue) : bool :=
    match v with
    | Some (MString s) => negb (String.eqb s "")
    | Some (MNumber z) => negb (z =? 0)
    | Some (MBool b) => b
    | None => false
    end.

  (** The private state of an image. *)
Record t := {
    getGeometry : Geometry.t;
    getBuffer : list (TypedArrayKind * list Z);
    getNumberOfFrames : nat;
    rsis : list RescaleSlopeAndIntercept;
    isIdentityRSI : bool;
    isConstantRSI : bool;
    getPhotometricInterpretation : string;
    getPlanarConfiguration : Z;
    getMeta : list (string * MetaValue);
    getOverlays : list (option string)
  }.

  (** [new Image(geometry, buffer)]. *)
Definition new (geometry : Geometry.t) (buffer : list (TypedArrayKind * list Z)) : t :=
    {| getGeometry := geometry;
       getBuffer := buffer;
       getNumberOfFrames := length buffer;
       rsis := replicate (Z.to_nat (Geometry.getNumberOfSlices (Geometry.getSize geometry)))
                         {| getSlope := 1; getIntercept := 0 |};
       isIdentityRSI := true;
       isConstantRSI := true;
       getPhotometricInterpretation := "MONOCHROME2";
       getPlanarConfiguration := 0;
       getMeta := [];
       getOverlays := [] |}.

Definition getFrame (img : t) (frame : nat) : option (TypedArrayKind * list Z) :=
    getBuffer img !! frame.

Definition getRescaleSlopeAndIntercept (img : t) (k : nat)
    : option RescaleSlopeAndIntercept :=
    rsis img !! k.

  (** The flags as the loop of [setRescaleSlopeAndIntercept] computes them. *)
Fixpoint allConstant (l : list RescaleSlopeAndIntercept) : bool :=
    match l with
    | a :: (b :: _) as r => equals b a && allConstant r
    | _ => true
    end.

Definition withRsis (img : t) (l : list RescaleSlopeAndIntercept) (idFlag constFlag : bool)
    : t :=
    {| getGeometry := getGeometry img; getBuffer := getBuffer img;
       getNumberOfFrames := getNumberOfFrames img;
       rsis := l; isIdentityRSI := idFlag; isConstantRSI := constFlag;
       getPhotometricInterpretation := getPhotometricInterpretation img;
       getPlanarConfiguration := getPlanarConfiguration img;
       getMeta := getMeta img; getOverlays := getOverlays img |}.

  (** [setRescaleSlopeAndIntercept(inRsi, k)]; past the end of [rsis] the
      assignment leaves holes, on which the loop fails. *)
Definition setRescaleSlopeAndIntercept (img : t) (inRsi : RescaleSlopeAndIntercept)
      (k : nat) : result t :=
    if (length (rsis img) <? k)%nat then Throw TypeError
    else
      let l := if (k =? length (rsis img))%nat then (rsis img ++ [inRsi])%list
               else <[k := inRsi]> (rsis img) in
      Ok (withRsis img l (forallb isID l) (allConstant l)).

Definition setPhotometricInterpretation (img : t) (interp : string) : t :=
    {| getGeometry := getGeometry img; getBuffer := getBuffer img;
       getNumberOfFrames := getNumberOfFrames img;
       rsis := rsis img; isIdentityRSI := isIdentityRSI img;
       isConstantRSI := isConstantRSI img;
       getPhotometricInterpretation := interp;
       getPlanarConfiguration := getPlanarConfiguration img;
       getMeta := getMeta img; getOverlays := getOverlays img |}.

Definition setMeta (img : t) (rhs : list (string * MetaValue)) : t :=
    {| getGeometry := getGeometry img; getBuffer := getBuffer img;
       getNumberOfFrames := getNumberOfFrames img;
       rsis := rsis img; isIdentityRSI := isIdentityRSI img;
       isConstantRSI := isConstantRSI img;
       getPhotometricInterpretation := getPhotometricInterpretation img;
       getPlanarConfiguration := getPlanarConfiguration img;
       getMeta := rhs; getOverlays := getOverlays img |}.

  (** [buffer[frame][offset]]; [None] is [undefined]. *)
Definition getValueAtOffset (img : t) (offset : Z) (frame : nat) : result (option Z) :=
    fr ← of_option TypeError (getBuffer img !! frame);
    Ok (if offset <? 0 then None else fr.2 !! Z.to_nat offset).

  (** [getValue(i, j, k, f)]. *)
Definition getValue (img : t) (i j k : Z) (f : nat) : result (option Z) :=
    getValueAtOffset img (Geometry.indexToOffset (getGeometry img) i j k) f.

  (** [getRescaledValue(i, j, k, f)]; an [undefined] value rescales to [NaN]. *)
Definition getRescaledValue (img : t) (i j k : Z) (f : nat) : result (option Z) :=
    val ← getValue img i j k f;
    if negb (isIdentityRSI img) then
      rsi ← of_option TypeError
            (if k <? 0 then None else getRescaleSlopeAndIntercept img (Z.to_nat k));
      Ok (apply rsi <$> (val : option Z))
    else Ok val.

Definition allMetaEqual (meta rhsMeta : list (string * MetaValue)) : option string :=
    fst <$> List.find (fun '(key, v) => negb (bool_decide (Dicom.get key rhsMeta = Some v))) meta.

  (** [appendSlice(rhs, frame)]: the image after the call and the number
      of the inserted slice. *)
Definition appendSlice (img rhs : t) (frame : option nat) : result (t * nat) :=
    let rhsSize := Geometry.getSize (getGeometry rhs) in
    let size := Geometry.getSize (getGeometry img) in
    if negb (Geometry.getNumberOfSlices rhsSize =? 1) then
      Throw (Error "Cannot append more than one slice")
    else if negb (Geometry.getNumberOfColumns size =? Geometry.getNumberOfColumns rhsSize) then
      Throw (Error "Cannot append a slice with different number of columns")
    else if negb (Geometry.getNumberOfRows size =? Geometry.getNumberOfRows rhsSize) then
      Throw (Error "Cannot append a slice with different number of rows")
    else if negb (String.eqb (getPhotometricInterpretation img)
                             (getPhotometricInterpretation rhs)) then
      Throw (Error "Cannot append a slice with different photometric interpretation")
    else
      match allMetaEqual (getMeta img) (getMeta rhs) with
      | Some key => Throw (Error ("Cannot append a slice with different " ++ key))
      | None =>
          let f := default 0%nat frame in
          let mul := if String.eqb (getPhotometricInterpretation img) "RGB"
                        || String.eqb (getPhotometricInterpretation img) "YBR_FULL_422"
                     then 3 else 1 in
          let sliceSize := Z.to_nat (mul * Geometry.getSliceSize size) in
          let nslices := Z.to_nat (Geometry.getNumberOfSlices size) in
          old ← of_option TypeError (getBuffer img !! f);
          kind ← of_option TypeError
                 (Dicom.getTypedArray (Z.of_nat (BYTES_PER_ELEMENT old.1) * 8)
                    (if truthy (Dicom.get "IsSigned" (getMeta img)) then 1 else 0));
          let newBuffer := replicate (sliceSize * (nslices + 1)) 0 in
          _ ← (if mul * Geometry.getSliceSize size * (Geometry.getNumberOfSlices size + 1) <? 0
               then Throw RangeError else Ok ());
          newSliceNb ← Geometry.getSliceIndex (getGeometry img)
                         (Geometry.getOrigin (getGeometry rhs));
          rhsFrame ← of_option TypeError (getFrame rhs f);
          newBuffer ←
            (if (newSliceNb =? 0)%nat then
               b ← typedSet kind newBuffer rhsFrame.2 0;
               typedSet kind b old.2 sliceSize
             else if (newSliceNb =? nslices)%nat then
               b ← typedSet kind newBuffer old.2 0;
               typedSet kind b rhsFrame.2 (nslices * sliceSize)
             else
               let offset := (newSliceNb * sliceSize)%nat in
               b ← typedSet kind newBuffer
                     (sliceList old.2 (Some 0) (Some (Z.of_nat offset - 1))) 0;
               b ← typedSet kind b rhsFrame.2 offset;
               typedSet kind b (sliceList old.2 (Some (Z.of_nat offset)) (Some (Z.of_nat (length old.2))))
                        (offset + sliceSize));
          rhsRsi ← of_option Unmodelled (getRescaleSlopeAndIntercept rhs 0);
          Ok ({| getGeometry :=
                   Geometry.appendOrigin (getGeometry img)
                     (Geometry.getOrigin (getGeometry rhs)) newSliceNb;
                 getBuffer := <[f := (kind, newBuffer)]> (getBuffer img);
                 getNumberOfFrames := getNumberOfFrames img;
                 rsis := splice (rsis img) newSliceNb rhsRsi;
                 isIdentityRSI := isIdentityRSI img;
                 isConstantRSI := isConstantRSI img;
                 getPhotometricInterpretation := getPhotometricInterpretation img;
                 getPlanarConfiguration := getPlanarConfiguration img;
                 getMeta := getMeta img;
                 getOverlays := splice (getOverlays img) newSliceNb
                                  (mjoin (getOverlays rhs !! 0%nat)) |},
              newSliceNb)
      end.

End Image.

(** ** Reference definitions for the statements *)

(** The values that a sequence of bytes holds for a typed array of kind
    [k], read in the byte order [littleEndian]. *)
Definition decode (k : TypedArrayKind) (littleEndian : bool) (bs : list byte) : list Z :=
  let bpel := BYTES_PER_ELEMENT k in
  map (fun i : nat =>
         let c := take bpel (drop (i * bpel) bs) in
         wrap k (DataReader.be_value (if littleEndian then rev c else c)))
      (seq 0 (length bs / bpel)).

(** A read function agrees with [getUint] up to the conversion of the
    array: the case of [getInt] for an integer array. *)
Definition agrees (k : TypedArrayKind) (get : list byte -> nat -> bool -> result Z) : Prop :=
  forall buf off le,
    wrap k <$> get buf off le
    = wrap k <$> DataReader.getUint (BYTES_PER_ELEMENT k) buf off le.

(** The header that [readDataElement] has read when the value length is
    [vl] and the value starts at [startOffset]. *)
Definition headerOf (tg : Dicom.Tag) (vr : string) (is32 : bool) (vl : Z) (startOffset : nat)
  : DicomParser.Header :=
  {| DicomParser.h_tag := tg; DicomParser.h_vr := vr; DicomParser.h_is32bitVLVR := is32;
     DicomParser.h_vlString := if vl =? 4294967295 then Dicom.undefinedLength else Dicom.VLnum vl;
     DicomParser.h_vl := if vl =? 4294967295 then 0%nat else Z.to_nat vl;
     DicomParser.h_startOffset := startOffset |}.

(** Tables without entries. *)
Definition noTables : Dicom.Tables :=
  {| Dicom.dictionary := []; Dicom.TagGroups := fun _ => None |}.

(** The numbers held by a fragment of encapsulated pixel data. *)
Definition fragmentData (v : Dicom.JSValue) : list Z :=
  match v with Dicom.JTypedArray _ d => d | _ => [] end.

Definition isTypedArray (v : Dicom.JSValue) : Prop :=
  match v with Dicom.JTypedArray _ _ => True | _ => False end.

(** The part of a typed array, string or array from element [from] on, of
    at most [count] elements. *)
Definition window (v : Dicom.JSValue) (from count : nat) : Dicom.JSValue :=
  match v with
  | Dicom.JTypedArray k d => Dicom.JTypedArray k (take count (drop from d))
  | Dicom.JArray l => Dicom.JArray (take count (drop from l))
  | Dicom.JString s =>
      Dicom.JString (string_of_list_ascii (take count (drop from (list_ascii_of_string s))))
  | _ => v
  end.

(** A computation that throws no [Error] object of the sources' own
    ([throw new Error(...)]): it returns, or fails in another way. *)
Definition quiet {A} (m : result A) : Prop :=
  match m with Throw (Error _) => False | _ => True end.

(** The state of a writer that has written the bytes [w] at the start of
    a buffer and has [n] bytes of a new buffer, all 0, before it. *)
Definition outState (w : list byte) (n : nat) : DataWriter.Out :=
  ((w ++ replicate n x00)%list, length w).

(** A step of a writer that appends the bytes [bs] when the buffer has
    room for them. *)
Definition emits (f : DataWriter.Out -> result DataWriter.Out) (bs : list byte) : Prop :=
  forall w m, (length bs <= m)%nat ->
    f (outState w m) = Ok (outState (w ++ bs) (m - length bs)).

(** The text that [readHex] makes of a 16-bit number, and the number that
    [writeHex] makes of a text. *)
Definition hexText (v : Z) : string :=
  JS.substr "0x0000" 0 (6 - String.length (JS.toString16 v)) ++ JS.toUpperCase (JS.toString16 v).

Definition hexBack (s : string) : Z :=
  default 0 (JS.parseInt (JS.substr s 2 (String.length s)) 16).

(** The upper case hexadecimal digit of [d]. *)
Definition upperHexDigit (d : Z) : ascii :=
  let c := JS.hexDigit d in
  if JS.isLower c then JS.fromCharCode (JS.code c - 32) else c.

(** A step of a writer that appends the bytes [bs] and returns [a]. *)
Definition emitsR {A} (f : DataWriter.Out -> result (A * DataWriter.Out)) (a : A)
    (bs : list byte) : Prop :=
  forall w m, (length bs <= m)%nat ->
    f (outState w m) = Ok (a, outState (w ++ bs) (m - length bs)).

(** The typed array that [readDataElement] makes of the value of an
    element that is not pixel data, by the VR. *)
Definition typedVR (vr : string) : option TypedArrayKind :=
  if String.eqb vr "OB" then Some Int8Array
  else if String.eqb vr "OW" then Some Int16Array
  else if String.eqb vr "OF" then Some Int32Array
  else if String.eqb vr "US" then Some Uint16Array
  else if String.eqb vr "UL" then Some Uint32Array
  else if String.eqb vr "SS" then Some Int16Array
  else if String.eqb vr "SL" then Some Int32Array
  else if String.eqb vr "FL" then Some Float32Array
  else if String.eqb vr "FD" then Some Float64Array
  else if String.eqb vr "UN" then Some Uint8Array
  else None.

(** The VRs whose value is read as text. *)
Definition textVR (vr : string) : bool :=
  negb (String.eqb vr "OB" || String.eqb vr "OW" || String.eqb vr "OF" || String.eqb vr "OD"
        || String.eqb vr "US" || String.eqb vr "UL" || String.eqb vr "SS" || String.eqb vr "SL"
        || String.eqb vr "FL" || String.eqb vr "FD" || String.eqb vr "AT" || String.eqb vr "UN"
        || String.eqb vr "SQ").

(** Where the tag of an element starts, and the bytes of the buffer that
    the element takes, header and value. *)
Definition headerStart (implicit : bool) (e : Dicom.Element) : nat :=
  (Dicom.startOffset e - Dicom.getDataElementPrefixByteSize (Dicom.vr e) implicit)%nat.

Definition region (implicit : bool) (B : list byte) (e : Dicom.Element) : list byte :=
  take (Dicom.endOffset e - headerStart implicit e) (drop (headerStart implicit e) B).

(** An element of text or numbers with an explicit length: not an item
    or a delimiter, not pixel data, a whole number of numbers, and the two
    reserved bytes of a 32-bit length are 0. *)
Definition plainElement (implicit : bool) (B : list byte) (e : Dicom.Element) : bool :=
  Dicom.isTagWithVR (Dicom.group (Dicom.tag e)) (Dicom.element (Dicom.tag e))
  && negb (Dicom.nameIs e "x7FE00010")
  && match Dicom.vl e with
     | Dicom.VLnum n =>
         match typedVR (Dicom.vr e) with
         | Some k => n mod Z.of_nat (BYTES_PER_ELEMENT k) =? 0
         | None => textVR (Dicom.vr e)
         end
     | Dicom.VLstr _ => false
     end
  && (implicit || negb (Dicom.is32bitVLVRFunc (Dicom.vr e))
      || match take 2 (drop (headerStart implicit e + 6) B) with
         | [a; b] => (u8 a =? 0) && (u8 b =? 0)
         | _ => false
         end).

(** A platform whose text decoder, when there is one, maps every byte to
    the character of its code, as the decoder of the sources does. *)
Definition latin1 (env : Env) : Prop :=
  match TextDecoder env with
  | Some decode => forall label bs, decode label bs = Some (JS.string_of_bytes bs)
  | None => True
  end.

(** What holds of the result of a computation that returns. *)
Definition whenOk {A} (P : A -> Prop) (m : result A) : Prop :=
  match m with Ok a => P a | Throw _ => True end.

(** A read that leaves the buffer related to what it was and ends at or
    after the offset where it started. *)
Definition steady {A} (R : list byte -> list byte -> Prop) (endOf : A -> nat)
    (buf : list byte) (off : nat) (m : result (A * list byte)) : Prop :=
  whenOk (fun x => R buf x.2 /\ (off <= endOf x.1)%nat) m.

(** Where an element of the map of [parse] comes from: it was read from
    the buffer [B] by the little endian reader of the File Meta group and
    ends at or before [M], or it was read by a little endian reader of the
    data set, at or after [M]. *)
Definition MetaRead (env : Env) (tb : Dicom.Tables) (B : list byte) (M : nat)
    (e : Dicom.Element) : Prop :=
  exists fuel els0 r off,
    DataReader.isLittleEndian r = true /\
    DicomParser.readDataElement env tb fuel els0 r B off false = Ok (e, B) /\
    (Dicom.endOffset e <= M)%nat.

Definition DataRead (env : Env) (tb : Dicom.Tables) (B : list byte) (M : nat)
    (implicit : bool) (e : Dicom.Element) : Prop :=
  exists fuel els0 r off,
    DataReader.isLittleEndian r = true /\
    DicomParser.readDataElement env tb fuel els0 r B off implicit = Ok (e, B) /\
    (M <= off)%nat.

(** ** The buffer that [getBuffer] makes of a parsed file *)

(** An element of the File Meta group, by the group names of the writer. *)
Definition isMetaElement (tb : Dicom.Tables) (e : Dicom.Element) : bool :=
  match DicomWriter.groupNameOf tb e with
  | Some g => String.eqb g "Meta Element"
  | None => false
  end.

(** The three elements that the writer makes itself. *)
Definition isWriterControlled (e : Dicom.Element) : bool :=
  DicomWriter.equals2 "0x0002" "0x0000" e || DicomWriter.equals2 "0x0002" "0x0012" e
  || DicomWriter.equals2 "0x0002" "0x0013" e.

(** The transfer syntax of an element map, as [getBuffer] reads it. *)
Definition syntaxOf (els : Dicom.ElementMap) : option string :=
  match Dicom.get "x00020010" els with
  | Some e =>
      match Dicom.index0 (Dicom.value e) ≫= DicomParser.cleanStringV with
      | Ok (Dicom.JString s) => Some s
      | _ => None
      end
  | None => None
  end.

Definition implicitOf (els : Dicom.ElementMap) : bool :=
  match syntaxOf els with
  | Some s => Dicom.isImplicitTransferSyntax s
  | None => false
  end.

(** The elements of the File Meta group are explicit VR, the others
    follow the transfer syntax. *)
Definition flagOf (tb : Dicom.Tables) (els : Dicom.ElementMap) (e : Dicom.Element) : bool :=
  if isMetaElement tb e then false else implicitOf els.

(** The elements that the writer copies, of the File Meta group and of
    the data set. *)
Definition copiedMeta (tb : Dicom.Tables) (els : Dicom.ElementMap) : list Dicom.Element :=
  List.filter (fun e => negb (isWriterControlled e) && isMetaElement tb e) (snd <$> els).

Definition copiedData (tb : Dicom.Tables) (els : Dicom.ElementMap) : list Dicom.Element :=
  List.filter (fun e => negb (isWriterControlled e) && negb (isMetaElement tb e)) (snd <$> els).

(** The values and the bytes of the elements (0002,0012) and (0002,0013)
    of the writer, and the bytes of the group length (0002,0000). *)
Definition classUID : string := "1.2.826.0.1.3680043.9.7278.1." ++ DicomWriter.getVersion.

Definition versionName : string :=
  let v := "DWV_" ++ DicomWriter.getVersion in
  if (String.length v mod 2 =? 1)%nat then v ++ String "000" "" else v.

Definition writerMetaBytes : list byte :=
  (DataWriter.le_bytes 2 2 ++ DataWriter.le_bytes 2 18 ++ JS.bytes_of_string "UI"
   ++ DataWriter.le_bytes 2 (Z.of_nat (String.length classUID)) ++ JS.bytes_of_string classUID
   ++ DataWriter.le_bytes 2 2 ++ DataWriter.le_bytes 2 19 ++ JS.bytes_of_string "SH"
   ++ DataWriter.le_bytes 2 (Z.of_nat (String.length versionName))
   ++ JS.bytes_of_string versionName)%list.

Definition groupLengthBytes (n : Z) : list byte :=
  (DataWriter.le_bytes 2 2 ++ DataWriter.le_bytes 2 0 ++ JS.bytes_of_string "UL"
   ++ DataWriter.le_bytes 2 4 ++ DataWriter.le_bytes 4 n)%list.

(** The file written for the elements [els] read from [B]: an empty
    preamble, the magic word, the group length, the File Meta elements of
    [B] other than the three of the writer, the two identifications of the
    writer, and the data set of [B]. *)
Definition rewritten (tb : Dicom.Tables) (B : list byte) (els : Dicom.ElementMap) : list byte :=
  let metaBytes := (concat (region false B <$> copiedMeta tb els) ++ writerMetaBytes)%list in
  (replicate 128 x00 ++ JS.bytes_of_string "DICM"
   ++ groupLengthBytes (Z.of_nat (length metaBytes)) ++ metaBytes
   ++ concat (region (implicitOf els) B <$> copiedData tb els))%list.

(** The elements follow one another in the buffer, from [pos] to its end. *)
Fixpoint tiled (flag : Dicom.Element -> bool) (B : list byte) (pos : nat)
    (l : list Dicom.Element) : bool :=
  match l with
  | [] => (pos =? length B)%nat
  | e :: r =>
      (headerStart (flag e) e =? pos)%nat && (pos <=? Dicom.endOffset e)%nat
      && tiled flag B (Dicom.endOffset e) r
  end.

(** A file of plain elements: the transfer syntax is a File Meta element
    and little endian; every element but the three of the writer is plain
    and is of the File Meta group, for the writer, exactly when it ends
    within the group length [M]; the elements fill the buffer. *)
Definition conforming (tb : Dicom.Tables) (B : list byte) (M : nat) (els : Dicom.ElementMap)
  : bool :=
  match Dicom.get "x00020010" els with
  | Some ts => isMetaElement tb ts && negb (isWriterControlled ts)
  | None => false
  end
  && match syntaxOf els with
     | Some s => negb (Dicom.isBigEndianTransferSyntax s)
     | None => false
     end
  && forallb (fun e => isWriterControlled e
                       || (plainElement (flagOf tb els e) B e
                           && Bool.eqb (isMetaElement tb e) (Dicom.endOffset e <=? M)%nat))
             (snd <$> els)
  && tiled (flagOf tb els) B 132 (snd <$> els).

(** The dictionary has the three elements of the writer. *)
Definition hasEntry (tb : Dicom.Tables) (keyword g e vr : string) : bool :=
  match DicomWriter.getDicomElement tb keyword with
  | Ok x => String.eqb (Dicom.group (Dicom.tag x)) g
            && String.eqb (Dicom.element (Dicom.tag x)) e && String.eqb (Dicom.vr x) vr
  | Throw _ => false
  end.

Definition dictionaryOK (tb : Dicom.Tables) : bool :=
  hasEntry tb "ImplementationClassUID" "0x0002" "0x0012" "UI"
  && hasEntry tb "ImplementationVersionName" "0x0002" "0x0013" "SH"
  && hasEntry tb "FileMetaInformationGroupLength" "0x0002" "0x0000" "UL".

(** What the first loop of [getBuffer] counts for an element, and the
    elements that it gathers, with their keys. *)
Definition elementSize (tb : Dicom.Tables) (implicit : bool) (e : Dicom.Element) : Z :=
  Z.of_nat (Dicom.getDataElementPrefixByteSize (Dicom.vr e)
              (if isMetaElement tb e then false else implicit))
  + (Z.of_nat (Dicom.endOffset e) - Z.of_nat (Dicom.startOffset e))
  + Z.of_nat (if DataWriter.isImplicitLengthSequence e || DataWriter.isImplicitLengthPixels e
              then Dicom.getDataElementPrefixByteSize "NONE" implicit else 0%nat).

Definition keyed (p : string * Dicom.Element) : option string * Dicom.Element :=
  (Some p.1, p.2).

Definition gatheredMeta (tb : Dicom.Tables) (l : Dicom.ElementMap)
  : list (option string * Dicom.Element) :=
  keyed <$> List.filter (fun p => negb (isWriterControlled p.2) && isMetaElement tb p.2) l.

Definition gatheredData (tb : Dicom.Tables) (l : Dicom.ElementMap)
  : list (option string * Dicom.Element) :=
  keyed <$> List.filter (fun p => negb (isWriterControlled p.2) && negb (isMetaElement tb p.2)) l.

Definition sumSizes (f : Dicom.Element -> Z) (l : list (option string * Dicom.Element)) : Z :=
  foldr (fun p a => f p.2 + a) 0 l.

(** The bytes of a file after its File Meta group. *)
Definition dataSet (env : Env) (tb : Dicom.Tables) (B : list byte) : result (list byte) :=
  stm ← DicomParser.readMeta env tb (length B) [] B;
  Ok (drop (DicomParser.offset stm) B).

(** The padding of a value: the character of code 0, and [n] spaces. *)
Definition NUL : ascii := "000"%char.

Definition spaces (n : nat) : string := string_of_list_ascii (replicate n " "%char).

(** ** Data for the examples *)

(** An excerpt of the dictionary and of the group names. *)
Definition exampleTables : Dicom.Tables :=
  {| Dicom.dictionary :=
       [("0x0002",
         [("0x0000", Dicom.Build_DictEntry "UL" "1" "FileMetaInformationGroupLength");
          ("0x0010", Dicom.Build_DictEntry "UI" "1" "TransferSyntaxUID");
          ("0x0012", Dicom.Build_DictEntry "UI" "1" "ImplementationClassUID");
          ("0x0013", Dicom.Build_DictEntry "SH" "1" "ImplementationVersionName")]);
        ("0x0008",
         [("0x0008", Dicom.Build_DictEntry "CS" "2-n" "ImageType");
          ("0x1140", Dicom.Build_DictEntry "SQ" "1" "ReferencedImageSequence")]);
        ("0x0010",
         [("0x0010", Dicom.Build_DictEntry "PN" "1" "PatientName")]);
        ("0x0028",
         [("0x0002", Dicom.Build_DictEntry "US" "1" "SamplesPerPixel");
          ("0x0004", Dicom.Build_DictEntry "CS" "1" "PhotometricInterpretation");
          ("0x0008", Dicom.Build_DictEntry "IS" "1" "NumberOfFrames");
          ("0x0010", Dicom.Build_DictEntry "US" "1" "Rows");
          ("0x0011", Dicom.Build_DictEntry "US" "1" "Columns");
          ("0x0100", Dicom.Build_DictEntry "US" "1" "BitsAllocated")]);
        ("0x7FE0",
         [("0x0010", Dicom.Build_DictEntry "ox" "1" "PixelData")])];
     Dicom.TagGroups := fun g =>
       if String.eqb g "x0002" then Some "Meta Element"
       else if String.eqb g "x0008" then Some "Identifying"
       else if String.eqb g "x0010" then Some "Patient"
       else if String.eqb g "x0028" then Some "Image Presentation"
       else if String.eqb g "x7FE0" then Some "Pixel Data"
       else None |}.

(** A little endian platform without [TextDecoder]. *)
Definition exampleEnv : Env := {| isNativeLittleEndian := true; TextDecoder := None |}.

(** Bytes of a number, lowest first, and of a text. *)
Definition u16 (z : Z) : list byte := DataWriter.le_bytes 2 z.
Definition u32 (z : Z) : list byte := DataWriter.le_bytes 4 z.
Definition text (s : string) : list byte := JS.bytes_of_string s.

(** The preamble, the magic word and a File Meta group with the group
    length and the transfer syntax [syntax] (a text of even length). *)
Definition fileHead (syntax : string) : list byte :=
  (replicate 128 x00 ++ text "DICM"
   ++ u16 2 ++ u16 0 ++ text "UL" ++ u16 4 ++ u32 (Z.of_nat (8 + String.length syntax))
   ++ u16 2 ++ u16 16 ++ text "UI" ++ u16 (Z.of_nat (String.length syntax)) ++ text syntax)%list.

Definition explicitLE : string := "1.2.840.10008.1.2.1" ++ String "000" "".
Definition implicitLE : string := "1.2.840.10008.1.2" ++ String "000" "".

(** An element with the two values ORIGINAL and PRIMARY. *)
Definition imageType : Dicom.Element :=
  Dicom.mkElement
    {| Dicom.group := "0x0008"; Dicom.element := "0x0008"; Dicom.name := Some "x00080008" |}
    "CS" (Dicom.VLnum 16) (Dicom.JArray [Dicom.JString "ORIGINAL"; Dicom.JString "PRIMARY"])
    180 196.

(** An explicit VR little endian file with the element [imageType]. *)
Definition imageTypeFile : list byte :=
  (fileHead explicitLE
   ++ u16 8 ++ u16 8 ++ text "CS" ++ u16 16 ++ text "ORIGINAL\PRIMARY")%list.

Definition clearImageType : DicomWriter.Rules :=
  <[ "ImageType" := {| DicomWriter.action := "clear"; DicomWriter.ruleValue := Dicom.JNull |} ]>
    DicomWriter.defaultRules.

Definition replaceImageType : DicomWriter.Rules :=
  <[ "ImageType" := {| DicomWriter.action := "replace";
                       DicomWriter.ruleValue := Dicom.JString "Anonymized" |} ]>
    DicomWriter.defaultRules.

Definition removeAll : DicomWriter.Rules :=
  {[ "default" := {| DicomWriter.action := "remove"; DicomWriter.ruleValue := Dicom.JNull |} ]}.

(** The element [imageType] after the action [clear], as the sources
    compute it, and as it would be with the value set to the empty string. *)
Definition imageTypeCleared : Dicom.Element :=
  Dicom.mkElement (Dicom.tag imageType) "CS" (Dicom.VLnum 0)
    (Dicom.JArray [Dicom.JString ""; Dicom.JString "PRIMARY"]) 180 180.

(** The element map that [parse] makes of [imageTypeFile]. *)
Definition imageTypeElements : Dicom.ElementMap :=
  [("x00020000",
    Dicom.mkElement
      {| Dicom.group := "0x0002"; Dicom.element := "0x0000"; Dicom.name := Some "x00020000" |}
      "UL" (Dicom.VLnum 4) (Dicom.JTypedArray Uint32Array [28]) 140 144);
   ("x00020010",
    Dicom.mkElement
      {| Dicom.group := "0x0002"; Dicom.element := "0x0010"; Dicom.name := Some "x00020010" |}
      "UI" (Dicom.VLnum 20) (Dicom.JArray [Dicom.JString explicitLE]) 152 172);
   ("x00080008", imageType)].

(** An explicit VR little endian file with a patient name. *)
Definition patientFile : list byte :=
  (fileHead explicitLE ++ u16 16 ++ u16 16 ++ text "PN" ++ u16 8 ++ text "DOE^JOHN")%list.

Definition patientName (value : string) (endOffset : nat) : Dicom.Element :=
  Dicom.mkElement
    {| Dicom.group := "0x0010"; Dicom.element := "0x0010"; Dicom.name := Some "x00100010" |}
    "PN" (Dicom.VLnum (Z.of_nat (String.length value))) (Dicom.JArray [Dicom.JString value])
    180 endOffset.

(** The element map that [parse] makes of [patientFile], for a patient name. *)
Definition patientElements (pn : Dicom.Element) : Dicom.ElementMap :=
  [("x00020000",
    Dicom.mkElement
      {| Dicom.group := "0x0002"; Dicom.element := "0x0000"; Dicom.name := Some "x00020000" |}
      "UL" (Dicom.VLnum 4) (Dicom.JTypedArray Uint32Array [28]) 140 144);
   ("x00020010",
    Dicom.mkElement
      {| Dicom.group := "0x0002"; Dicom.element := "0x0010"; Dicom.name := Some "x00020010" |}
      "UI" (Dicom.VLnum 20) (Dicom.JArray [Dicom.JString explicitLE]) 152 172);
   ("x00100010", pn)].

Definition replacePatientName : DicomWriter.Rules :=
  <[ "PatientName" := {| DicomWriter.action := "replace";
                         DicomWriter.ruleValue := Dicom.JString "Anonymized" |} ]>
    DicomWriter.defaultRules.

(** Images of one slice of two pixels in a row, at the height [z]. *)
Definition sliceAt (z : Z) (pixels : list Z) : Image.t :=
  Image.new
    (Geometry.new {| Math.getX := 0; Math.getY := 0; Math.getZ := z |}
                  {| Geometry.getNumberOfColumns := 2; Geometry.getNumberOfRows := 1;
                     Geometry.numberOfSlices := None |}
                  Math.getIdentityMat33)
    [(Uint8Array, pixels)].

Definition rsi25 : Image.RescaleSlopeAndIntercept :=
  {| Image.getSlope := 2; Image.getIntercept := 5 |}.

(** An implicit VR little endian file of two frames of one row and two
    columns, one byte per pixel. *)
Definition twoFramesFile : list byte :=
  (fileHead implicitLE
   ++ u16 40 ++ u16 2 ++ u32 2 ++ u16 1
   ++ u16 40 ++ u16 8 ++ u32 2 ++ text "2 "
   ++ u16 40 ++ u16 16 ++ u32 2 ++ u16 1
   ++ u16 40 ++ u16 17 ++ u32 2 ++ u16 2
   ++ u16 40 ++ u16 256 ++ u32 2 ++ u16 8
   ++ u16 32736 ++ u16 16 ++ u32 4 ++ [x01; x02; x03; x04])%list.

(** The elements that [parse] yields for [twoFramesFile]. *)
Definition twoFramesElements : Dicom.ElementMap :=
  Eval vm_compute in
    match DicomParser.parse exampleEnv exampleTables twoFramesFile with
    | Ok (els, _) => els
    | Throw _ => []
    end.

(** An implicit VR little endian file with encapsulated pixel data: an
    empty offset table and four fragments of two bytes, for two frames. *)
Definition fragment (bs : list byte) : list byte :=
  (u16 65534 ++ u16 57344 ++ u32 (Z.of_nat (length bs)) ++ bs)%list.

Definition fourFragmentsFile : list byte :=
  (fileHead implicitLE
   ++ u16 40 ++ u16 8 ++ u32 2 ++ text "2 "
   ++ u16 40 ++ u16 256 ++ u32 2 ++ u16 8
   ++ u16 32736 ++ u16 16 ++ u32 4294967295
   ++ fragment []
   ++ fragment [x01; x02] ++ fragment [x03; x04]
   ++ fragment [x05; x06] ++ fragment [x07; x08]
   ++ u16 65534 ++ u16 57565 ++ u32 0)%list.

(** The elements that [parse] yields for [fourFragmentsFile]. *)
Definition fourFragmentsElements : Dicom.ElementMap :=
  Eval vm_compute in
    match DicomParser.parse exampleEnv exampleTables fourFragmentsFile with
    | Ok (els, _) => els
    | Throw _ => []
    end.

(** Buffers that are not DICOM files: too short for the magic word, with
    the magic word and nothing after it, with another word in its place,
    and with a File Meta group of the group length alone. *)
Definition shortBuffer : list byte := replicate 131 x00.
Definition magicOnly : list byte := (replicate 128 x00 ++ text "DICM")%list.
Definition wrongMagic : list byte := (replicate 128 x00 ++ text "DICOM")%list.
Definition noSyntaxFile : list byte :=
  (replicate 128 x00 ++ text "DICM" ++ u16 2 ++ u16 0 ++ text "UL" ++ u16 4 ++ u32 0)%list.

(** An explicit VR little endian file with an image type, a patient name
    and a number of rows. *)
Definition studyFile : list byte :=
  (fileHead explicitLE
   ++ u16 8 ++ u16 8 ++ text "CS" ++ u16 16 ++ text "ORIGINAL\PRIMARY"
   ++ u16 16 ++ u16 16 ++ text "PN" ++ u16 8 ++ text "DOE^JOHN"
   ++ u16 40 ++ u16 16 ++ text "US" ++ u16 2 ++ u16 512)%list.

(** The elements that [parse] yields for [studyFile], and the state after
    its File Meta group. *)
Definition studyElements : Dicom.ElementMap :=
  Eval vm_compute in
    match DicomParser.parse exampleEnv exampleTables studyFile with
    | Ok (els, _) => els
    | Throw _ => []
    end.

Definition studyMeta : DicomParser.ParseState :=
  {| DicomParser.dicomElements := take 2 studyElements;
     DicomParser.buffer := studyFile;
     DicomParser.offset := 172 |}.

(** A JPEG baseline file with encapsulated pixel data: an empty offset
    table and four fragments of two bytes, for two frames. *)
Definition jpegBaseline : string := "1.2.840.10008.1.2.4.50".

Definition jpegFile : list byte :=
  (fileHead jpegBaseline
   ++ u16 40 ++ u16 8 ++ text "IS" ++ u16 2 ++ text "2 "
   ++ u16 40 ++ u16 256 ++ text "US" ++ u16 2 ++ u16 8
   ++ u16 32736 ++ u16 16 ++ text "OB" ++ u16 0 ++ u32 4294967295
   ++ fragment []
   ++ fragment [x01; x02] ++ fragment [x03; x04]
   ++ fragment [x05; x06] ++ fragment [x07; x08]
   ++ u16 65534 ++ u16 57565 ++ u32 0)%list.

(** The elements that [parse] yields for [jpegFile], and the buffer that
    [getBuffer] makes of them. *)
Definition jpegElements : Dicom.ElementMap :=
  Eval vm_compute in
    match DicomParser.parse exampleEnv exampleTables jpegFile with
    | Ok (els, _) => els
    | Throw _ => []
    end.

Definition jpegWritten : list byte :=
  match DicomWriter.getBuffer exampleTables DicomWriter.defaultRules jpegElements with
  | Ok (out, _) => out
  | Throw _ => []
  end.

(** ** More of dicomParser.js: the decompression name and the wrapper of
    the elements *)

Module Syntax.
Import Dicom.

  (** [getSyntaxDecompressionName(syntax)], [None] for [null]. *)
Definition getSyntaxDecompressionName (syntax : string) : option string :=
    if isJpeg2000TransferSyntax syntax then Some "jpeg2000"
    else if isJpegBaselineTransferSyntax syntax then Some "jpeg-baseline"
    else if isJpegLosslessTransferSyntax syntax then Some "jpeg-lossless"
    else None.

End Syntax.

Module DicomElementsWrapper.
Import Dicom.

  (** [getDEFromKey(groupElementKey)], [None] for [undefined]. *)
Definition getDEFromKey (dicomElements : ElementMap) (groupElementKey : string)
    : option Element :=
    get groupElementKey dicomElements.

  (** [getFromKey(groupElementKey, asArray)]. *)
Definition getFromKey (dicomElements : ElementMap) (groupElementKey : string)
      (asArray : bool) : result JSValue :=
    match get groupElementKey dicomElements with
    | None => Ok JNull
    | Some dElement =>
        len ← jsLength (value dElement);
        if match len with JNumber 1 => true | _ => false end && negb asArray
        then index0 (value dElement)
        else Ok (value dElement)
    end.

  (** [getFromGroupElement(group, element)]. *)
Definition getFromGroupElement (dicomElements : ElementMap) (group element : string)
    : result JSValue :=
    getFromKey dicomElements (getGroupElementKey group element) false.

  (** [getFromName(name)]: a group or an element that is [undefined] is
      not [null], and has no [substr]. *)
Definition getFromName (tb : Tables) (dicomElements : ElementMap) (name : string)
    : result JSValue :=
    match getGroupElementFromName tb name with
    | (Some group, Some element) =>
        getFromKey dicomElements (getGroupElementKey group element) false
    | _ => Throw TypeError
    end.

End DicomElementsWrapper.

(** ** More of image.js: the data range *)

Module ImageRange.
Import Image.

  (** [a > b] and [a < b] on values that may be [undefined]. *)
Definition gt (a b : option Z) : bool :=
    match a, b with Some x, Some y => y <? x | _, _ => false end.

Definition lt (a b : option Z) : bool :=
    match a, b with Some x, Some y => x <? y | _, _ => false end.

  (** [calculateDataRange()]: [{min, max}] over the first frame. *)
Definition calculateDataRange (img : t) : result (option Z * option Z) :=
    let size := Geometry.getTotalSize (Geometry.getSize (getGeometry img)) in
    min ← getValueAtOffset img 0 0;
    foldM (fun '(min, max) i =>
             value ← getValueAtOffset img (Z.of_nat i) 0;
             let max := if gt value max then value else max in
             let min := if lt value min then value else min in
             Ok (min, max))
          (min, min) (seq 0 (Z.to_nat size)).

  (** [calculateRescaledDataRange()] of an image whose slopes and
      intercepts are the identity or all the same, with a data range that
      is not cached. *)
Definition calculateRescaledDataRange (img : t) : result (option Z * option Z) :=
    if isIdentityRSI img then calculateDataRange img
    else if isConstantRSI img then
      '(min, max) ← calculateDataRange img;
      rsi ← of_option TypeError (getRescaleSlopeAndIntercept img 0);
      let resmin := apply rsi <$> min in
      let resmax := apply rsi <$> max in
      Ok (if lt resmin resmax then resmin else resmax,
          if gt resmin resmax then resmin else resmax)
    else Throw Unmodelled.

End ImageRange.

(** ** More data for the examples *)

(** The image of the two slices at heights 0 and 2. *)
Definition twoSlices : Image.t :=
  Eval vm_compute in
    match Image.appendSlice (sliceAt 0 [1; 2]) (sliceAt 2 [3; 4]) None with
    | Ok (img, _) => img
    | Throw _ => sliceAt 0 []
    end.
(** * Properties

    ** Bytes and numbers *)

Local Open Scope list_scope.

Lemma u8_range b : 0 <= u8 b < 256.
Proof.
  unfold u8. pose proof (Byte.to_N_bounded b) as H. lia.
Qed.

Lemma byte_of_Z_u8 b : byte_of_Z (u8 b) = b.
Proof.
  unfold byte_of_Z. rewrite Z.mod_small by apply u8_range.
  unfold u8. rewrite N2Z.id, Byte.of_to_N. reflexivity.
Qed.

Lemma u8_byte_of_Z z : u8 (byte_of_Z z) = z mod 256.
Proof.
  unfold byte_of_Z, u8.
  assert (Hr : 0 <= z mod 256 < 256) by (apply Z.mod_pos_bound; lia).
  destruct (Byte.of_N (Z.to_N (z mod 256))) as [b|] eqn:E.
  - apply Byte.to_of_N in E. rewrite E, Z2N.id; lia.
  - apply Byte.of_N_None_iff in E. lia.
Qed.


(** ** DataReader: the two paths of the typed array reads *)

Section ReaderFacts.
Import DataReader.

Lemma be_value_range bs : 0 <= be_value bs < 256 ^ Z.of_nat (length bs).
Proof.
    induction bs as [|b r IH]; simpl length; [simpl; lia|].
    cbn [be_value]. pose proof (u8_range b) as Hb.
    rewrite Nat2Z.inj_succ, Z.pow_succ_r by lia.
    assert (0 < 256 ^ Z.of_nat (length r)) by (apply Z.pow_pos_nonneg; lia).
    nia.
Qed.

Lemma bytes_at_Some buf off n bs :
    bytes_at buf off n = Some bs ->
    (off + n <= length buf)%nat /\ bs = take n (drop off buf) /\ length bs = n.
Proof.
    unfold bytes_at. case_decide; [|discriminate]. intros [= <-].
    split; [done|]. split; [done|]. rewrite length_take, length_drop. lia.
Qed.

  (** The [i]-th group of [bpel] bytes of a range is the same in the
      buffer and in the bytes of the range. *)
Lemma chunk_of_range buf off n bpel bs i :
    bytes_at buf off (n * bpel) = Some bs -> (i < n)%nat ->
    take bpel (drop (off + i * bpel) buf) = take bpel (drop (i * bpel) bs)
    /\ length (take bpel (drop (i * bpel) bs)) = bpel.
Proof.
    intros H Hi. apply bytes_at_Some in H as (Hle & -> & Hlen).
    assert (i * bpel + bpel <= n * bpel)%nat by nia.
    split.
    - rewrite (take_drop_commute (take _ _)), take_take.
      replace (min (i * bpel + bpel) (n * bpel))%nat with (i * bpel + bpel)%nat by lia.
      rewrite <- take_drop_commute, drop_drop. reflexivity.
    - rewrite length_take, length_drop, length_take, length_drop. lia.
Qed.

Lemma bpel_pos k : (0 < BYTES_PER_ELEMENT k)%nat.
Proof. destruct k; simpl; lia. Qed.

Lemma view_decode env k buf off n bs :
    bytes_at buf off (n * BYTES_PER_ELEMENT k) = Some bs ->
    view env k buf off n = Ok (decode k (isNativeLittleEndian env) bs).
Proof.
    intros H. pose proof (bytes_at_Some _ _ _ _ H) as (Hle & _ & Hlen).
    unfold view, decode. rewrite decide_True by done.
    rewrite Hlen, Nat.div_mul by (pose proof (bpel_pos k); lia).
    f_equal. apply map_ext_in. intros i Hi%in_seq.
    destruct (chunk_of_range _ _ _ _ _ i H) as [-> _]; [lia|]. reflexivity.
Qed.

Lemma flipArrayEndianness_length bpel n l :
    length l = (n * bpel)%nat -> length (flipArrayEndianness bpel n l) = (n * bpel)%nat.
Proof.
    revert l. induction n as [|n IH]; intros l Hl; simpl; [done|].
    rewrite length_app, length_rev, length_take, IH.
    - simpl in Hl. lia.
    - rewrite length_drop. simpl in Hl. lia.
Qed.

Lemma flipArrayEndianness_chunk bpel n l i :
    length l = (n * bpel)%nat -> (i < n)%nat ->
    take bpel (drop (i * bpel) (flipArrayEndianness bpel n l))
    = rev (take bpel (drop (i * bpel) l)).
Proof.
    revert l i. induction n as [|n IH]; intros l i Hl Hi; [lia|].
    simpl in Hl. cbn [flipArrayEndianness].
    assert (Hrev : length (rev (take bpel l)) = bpel)
      by (rewrite length_rev, length_take; lia).
    destruct i as [|i].
    - change (0 * bpel)%nat with 0%nat. rewrite !drop_0.
      by rewrite take_app_length'.
    - replace (S i * bpel)%nat with (length (rev (take bpel l)) + i * bpel)%nat
        by (rewrite Hrev; simpl; lia).
      rewrite drop_app_add. rewrite IH; [|rewrite length_drop; lia|lia].
      rewrite Hrev, drop_drop. reflexivity.
Qed.

Lemma flipped_length bpel buf off n :
    (off + n * bpel <= length buf)%nat -> length (flipped bpel buf off n) = length buf.
Proof.
    intros H. unfold flipped.
    rewrite !length_app, length_take, length_drop, flipArrayEndianness_length.
    - lia.
    - rewrite length_take, length_drop. lia.
Qed.

Lemma flipped_bytes_at bpel buf off n bs :
    bytes_at buf off (n * bpel) = Some bs ->
    bytes_at (flipped bpel buf off n) off (n * bpel) = Some (flipArrayEndianness bpel n bs).
Proof.
    intros H. apply bytes_at_Some in H as (Hle & -> & Hlen).
    unfold bytes_at. rewrite decide_True by (rewrite flipped_length; lia).
    f_equal. unfold flipped.
    rewrite drop_app_length' by (rewrite length_take; lia).
    rewrite take_app_length'; [done|].
    symmetry. apply flipArrayEndianness_length. exact Hlen.
Qed.

Lemma decode_flip k le n bs :
    length bs = (n * BYTES_PER_ELEMENT k)%nat ->
    decode k le (flipArrayEndianness (BYTES_PER_ELEMENT k) n bs) = decode k (negb le) bs.
Proof.
    intros Hlen. unfold decode.
    rewrite flipArrayEndianness_length, Hlen by done.
    apply map_ext_in. intros i Hi%in_seq.
    rewrite Nat.div_mul in Hi by (pose proof (bpel_pos k); lia).
    rewrite flipArrayEndianness_chunk by (done || lia).
    destruct le; simpl; by rewrite ?rev_involutive.
Qed.

  (** The loop of the fallback path, when every read succeeds. *)
Lemma fill_spec k get off (f : nat -> Z) n :
    (forall i, (i < n)%nat -> get (off + BYTES_PER_ELEMENT k * i)%nat = Ok (f i)) ->
    forall count i,
      (i + count = n)%nat ->
      fill k get off count i (map (fun j => wrap k (f j)) (seq 0 i) ++ replicate count 0)
      = Ok (map (fun j => wrap k (f j)) (seq 0 n)).
Proof.
    intros Hget. induction count as [|count IH]; intros i Hi; simpl.
    - rewrite app_nil_r. by replace i with n by lia.
    - rewrite Hget by lia. simpl.
      replace (<[i:=wrap k (f i)]> (map (fun j => wrap k (f j)) (seq 0 i) ++ 0 :: replicate count 0))
        with (map (fun j => wrap k (f j)) (seq 0 (S i)) ++ replicate count 0).
      + apply IH. lia.
      + rewrite seq_S, map_app. simpl. rewrite <- app_assoc. simpl.
        symmetry.
        rewrite (insert_app_r_alt _ _ i) by (rewrite length_map, length_seq; lia).
        rewrite length_map, length_seq, Nat.sub_diag. reflexivity.
Qed.

Lemma getUint_chunk buf off n bpel bs i le :
    bytes_at buf off (n * bpel) = Some bs -> (i < n)%nat ->
    getUint bpel buf (off + bpel * i) le
    = Ok (be_value (if le then rev (take bpel (drop (i * bpel) bs))
                    else take bpel (drop (i * bpel) bs))).
Proof.
    intros H Hi. unfold getUint, bytes_at.
    pose proof (bytes_at_Some _ _ _ _ H) as (Hle & _ & _).
    rewrite decide_True by nia. simpl.
    replace (off + bpel * i)%nat with (off + i * bpel)%nat by lia.
    destruct (chunk_of_range _ _ _ _ _ i H) as [-> _]; [lia|]. reflexivity.
Qed.

Lemma to_signed_mod bits u :
    0 < bits -> 0 <= u < 2 ^ bits -> to_signed bits u mod 2 ^ bits = u.
Proof.
    intros Hb Hu. unfold to_signed.
    destruct (u <? 2 ^ (bits - 1)).
    - apply Z.mod_small. lia.
    - replace (u - 2 ^ bits) with (u + (-1) * 2 ^ bits) by lia.
      rewrite Z.mod_add by lia. apply Z.mod_small. lia.
Qed.

Lemma agrees_getUint k : agrees k (getUint (BYTES_PER_ELEMENT k)).
Proof. by intros buf off le. Qed.

Lemma wrap_to_signed k (bits : Z) u :
    bits = 8 * Z.of_nat (BYTES_PER_ELEMENT k) -> 0 <= u < 2 ^ bits ->
    wrap k (to_signed bits u) = wrap k u.
Proof.
    intros -> Hu.
    destruct k; cbn [BYTES_PER_ELEMENT wrap] in *; simpl Z.mul in *;
      rewrite to_signed_mod by lia; try reflexivity;
      rewrite Z.mod_small by lia; reflexivity.
Qed.

Lemma agrees_getInt k : agrees k (getInt (BYTES_PER_ELEMENT k)).
Proof.
    intros buf off le. unfold getInt.
    destruct (getUint (BYTES_PER_ELEMENT k) buf off le) as [u|e] eqn:E; [|done].
    simpl. f_equal. apply wrap_to_signed; [done|].
    unfold getUint in E.
    destruct (bytes_at buf off (BYTES_PER_ELEMENT k)) as [bs|] eqn:Eb; [|done].
    apply bytes_at_Some in Eb as (_ & _ & Hlen). simpl in E. injection E as <-.
    rewrite <- Hlen, Z.pow_mul_r by lia. change (2 ^ 8) with 256.
    destruct le.
    - rewrite <- (length_rev bs). apply be_value_range.
    - apply be_value_range.
Qed.

End ReaderFacts.

Section ReadArray.
Import DataReader.

Lemma fill_agrees k get off (f : nat -> Z) n :
    (forall i, (i < n)%nat ->
       wrap k <$> get (off + BYTES_PER_ELEMENT k * i)%nat = Ok (wrap k (f i))) ->
    forall count i,
      (i + count = n)%nat ->
      fill k get off count i (map (fun j => wrap k (f j)) (seq 0 i) ++ replicate count 0)
      = Ok (map (fun j => wrap k (f j)) (seq 0 n)).
Proof.
    intros Hget. induction count as [|count IH]; intros i Hi; simpl.
    - rewrite app_nil_r. by replace i with n by lia.
    - specialize (Hget i ltac:(lia)).
      destruct (get (off + BYTES_PER_ELEMENT k * i)%nat) as [v|e]; [|done].
      simpl in Hget. injection Hget as Hv. simpl. rewrite Hv.
      replace (<[i:=wrap k (f i)]> (map (fun j => wrap k (f j)) (seq 0 i) ++ 0 :: replicate count 0))
        with (map (fun j => wrap k (f j)) (seq 0 (S i)) ++ replicate count 0).
      + apply IH. lia.
      + rewrite seq_S, map_app. simpl. rewrite <- app_assoc. simpl.
        symmetry.
        rewrite (insert_app_r_alt _ _ i) by (rewrite length_map, length_seq; lia).
        rewrite length_map, length_seq, Nat.sub_diag. reflexivity.
Qed.

  (** Both paths of a typed array read return the values that the bytes
      hold in the byte order of the reader, for a whole number [n] of
      elements that lie within the buffer. *)
Lemma readArray_values env r k get buf off n bs :
    agrees k get ->
    bytes_at buf off (n * BYTES_PER_ELEMENT k) = Some bs ->
    fst <$> readArray env r k get buf off (n * BYTES_PER_ELEMENT k)
    = Ok (decode k (isLittleEndian r) bs).
Proof.
    intros Hag H. pose proof (bpel_pos k) as Hpos.
    pose proof (bytes_at_Some _ _ _ _ H) as (Hle & _ & Hlen).
    unfold readArray. cbv zeta. rewrite Nat.div_mul by lia.
    case_decide as Hal.
    - rewrite (view_decode _ _ _ _ _ _ H).
      rewrite (view_decode _ _ _ _ _ _ (flipped_bytes_at _ _ _ _ _ H)).
      rewrite decode_flip by done.
      unfold needFlip.
      destruct (isLittleEndian r) eqn:El, (isNativeLittleEndian env) eqn:En; reflexivity.
    - replace ((n * BYTES_PER_ELEMENT k + BYTES_PER_ELEMENT k - 1) / BYTES_PER_ELEMENT k)%nat
        with n.
      2:{ apply Nat.div_unique with (r := (BYTES_PER_ELEMENT k - 1)%nat); lia. }
      pose (f := fun i : nat =>
                   be_value (if isLittleEndian r
                             then rev (take (BYTES_PER_ELEMENT k) (drop (i * BYTES_PER_ELEMENT k) bs))
                             else take (BYTES_PER_ELEMENT k) (drop (i * BYTES_PER_ELEMENT k) bs))).
      pose proof (fill_agrees k (fun o => get buf o (isLittleEndian r)) off f n) as Hf.
      specialize (Hf ltac:(intros i Hi; rewrite Hag, (getUint_chunk _ _ _ _ _ _ _ H Hi);
                           reflexivity) n 0%nat ltac:(lia)).
      cbn [seq map app] in Hf. rewrite Hf.
      simpl. f_equal. unfold decode. rewrite Hlen, Nat.div_mul by lia.
      apply map_ext. intros i. unfold f. by destruct (isLittleEndian r).
Qed.

End ReadArray.

(** ** C3: the two paths of [readUint16Array] *)




(** ** C2: the length field of an element with explicit VR *)

Section ExplicitVR.
Import Dicom DicomParser.

Lemma is32bitVLVRFunc_spec vr :
    is32bitVLVRFunc vr = true <-> vr ∈ ["OB"; "OW"; "OF"; "ox"; "UT"; "SQ"; "UN"].
Proof.
    unfold is32bitVLVRFunc. rewrite !orb_true_iff, !String.eqb_eq.
    rewrite !elem_of_cons, elem_of_nil. tauto.
Qed.

  (** C2 (as amended): under explicit VR the codes OB, OW, OF, SQ, UT, UN
      and the internal ox are followed by two reserved bytes and a 32-bit
      value length, so the value starts 12 bytes after the tag starts;
      every other code, OD left aside, is followed by a 16-bit value
      length and the value starts 8 bytes after the tag starts. *)
Theorem explicit_vr_length_field tb r buf offset tg o4 vr :
    readTag r buf offset = Ok (tg, o4) ->
    isTagWithVR (group tg) (element tg) = true ->
    readString buf (offset + 4) 2 = Ok vr ->
    (vr ∈ ["OB"; "OW"; "OF"; "ox"; "UT"; "SQ"; "UN"] ->
     readHeader tb r buf offset false
     = (vl ← DataReader.readUint32 r buf (offset + 8);
        Ok (headerOf tg vr true vl (offset + 12))))
    /\ (vr ∉ ["OB"; "OW"; "OF"; "ox"; "UT"; "SQ"; "UN"] -> vr <> "OD" ->
        readHeader tb r buf offset false
        = (vl ← DataReader.readUint16 r buf (offset + 6);
           Ok (headerOf tg vr false vl (offset + 8)))).
Proof.
    intros Htag Hvr Hs.
    assert (o4 = (offset + 4)%nat) as ->.
    { unfold readTag in Htag. destruct (readHex r buf offset); [|done]. simpl in Htag.
      destruct (readHex r buf (offset + 2)); [|done]. simpl in Htag. congruence. }
    split.
    - intros Hin%is32bitVLVRFunc_spec. unfold readHeader. rewrite Htag. simpl.
      rewrite Hvr, Hs. simpl. rewrite Hin.
      replace (offset + 4 + 2 + 2)%nat with (offset + 8)%nat by lia.
      destruct (DataReader.readUint32 r buf (offset + 8)) as [vl|]; [|done]. simpl.
      unfold headerOf. do 2 f_equal. lia.
    - intros Hin _. unfold readHeader. rewrite Htag. simpl.
      rewrite Hvr, Hs. simpl.
      destruct (is32bitVLVRFunc vr) eqn:E; [by apply is32bitVLVRFunc_spec in E|].
      replace (offset + 4 + 2)%nat with (offset + 6)%nat by lia.
      destruct (DataReader.readUint16 r buf (offset + 6)) as [vl|]; [|done]. simpl.
      unfold headerOf. do 2 f_equal. lia.
Qed.

Lemma explicit_vr_length_field_witness :
    readHeader noTables (DataReader.new true)
      [x08; x00; x08; x00; "O"; "B"; x00; x00; x02; x00; x00; x00; x01; x02]%byte 0 false
    = Ok (headerOf {| group := "0x0008"; element := "0x0008"; name := Some "x00080008" |}
                   "OB" true 2 12)
    /\ readHeader noTables (DataReader.new true)
         [x28; x00; x10; x00; "U"; "S"; x02; x00; x01; x00]%byte 0 false
       = Ok (headerOf {| group := "0x0028"; element := "0x0010"; name := Some "x00280010" |}
                      "US" false 2 8).
Proof.
    split.
    - refine (proj1 (explicit_vr_length_field noTables (DataReader.new true)
                       [x08; x00; x08; x00; "O"; "B"; x00; x00; x02; x00; x00; x00; x01; x02]%byte
                       0 _ 4 "OB" eq_refl eq_refl eq_refl) _).
      apply list_elem_of_In; simpl; auto.
    - refine (proj2 (explicit_vr_length_field noTables (DataReader.new true)
                       [x28; x00; x10; x00; "U"; "S"; x02; x00; x01; x00]%byte
                       0 _ 4 "US" eq_refl eq_refl eq_refl) _ _).
      + rewrite list_elem_of_In; simpl; intuition discriminate.
      + discriminate.
Defined.

  (** C2 (as stated) fails at the code ox, which is not among the seven
      codes of the claim and is followed by a 32-bit value length. *)
Lemma explicit_vr_ox_has_32bit_length :
    ("ox" ∉ ["OB"; "OW"; "OF"; "OD"; "SQ"; "UT"; "UN"])
    /\ readHeader noTables (DataReader.new true)
         [xe0; x7f; x10; x00; "o"; "x"; x00; x00; x02; x00; x00; x00; x2a; x00]%byte 0 false
       = Ok (headerOf {| group := "0x7FE0"; element := "0x0010"; name := Some "x7FE00010" |}
                      "ox" true 2 12).
Proof.
    split; [|reflexivity]. rewrite list_elem_of_In; simpl; intuition discriminate.
Qed.

  (** The code OD, for the record: a 16-bit value length. *)
Lemma explicit_vr_od_has_16bit_length :
    readHeader noTables (DataReader.new true)
      [x08; x00; x08; x00; "O"; "D"; x00; x00; x08; x00; x00; x00]%byte 0 false
    = Ok (headerOf {| group := "0x0008"; element := "0x0008"; name := Some "x00080008" |}
                   "OD" false 0 8).
Proof. reflexivity. Qed.

End ExplicitVR.

(** ** C7 and C10: the rules of the writer *)

Section Rules.
Import Dicom DicomWriter.
Context (tb : Tables).

  (** The priority of [getElementToWrite]: the key of the tag, then the
      keyword of the dictionary, then the name of the group, then
      [default]. *)
Lemma selectRule_tag_key rules e key rule :
    name (tag e) = Some key -> rules !! key = Some rule ->
    selectRule tb rules e = Some rule.
Proof. intros Hn Hr. unfold selectRule. rewrite Hn. simpl. by rewrite Hr. Qed.

Lemma selectRule_keyword rules e key entry rule :
    name (tag e) = Some key -> rules !! key = None ->
    lookupDict tb (group (tag e)) (element (tag e)) = Some entry ->
    rules !! entry_keyword entry = Some rule ->
    selectRule tb rules e = Some rule.
Proof.
    intros Hn Hk Hd Hr. unfold selectRule. rewrite Hn. simpl. rewrite Hk, Hd. simpl.
    by rewrite Hr.
Qed.

Lemma selectRule_group rules e key g rule :
    name (tag e) = Some key -> rules !! key = None ->
    (forall entry, lookupDict tb (group (tag e)) (element (tag e)) = Some entry ->
                   rules !! entry_keyword entry = None) ->
    groupNameOf tb e = Some g -> rules !! g = Some rule ->
    selectRule tb rules e = Some rule.
Proof.
    intros Hn Hk Hd Hg Hr. unfold selectRule. rewrite Hn. simpl. rewrite Hk.
    destruct (lookupDict tb (group (tag e)) (element (tag e))) as [entry|] eqn:E; simpl.
    - rewrite (Hd entry eq_refl), Hg. simpl. by rewrite Hr.
    - rewrite Hg. simpl. by rewrite Hr.
Qed.

Lemma selectRule_default rules e key g :
    name (tag e) = Some key -> rules !! key = None ->
    (forall entry, lookupDict tb (group (tag e)) (element (tag e)) = Some entry ->
                   rules !! entry_keyword entry = None) ->
    groupNameOf tb e = Some g -> rules !! g = None ->
    selectRule tb rules e = rules !! "default".
Proof.
    intros Hn Hk Hd Hg Hr. unfold selectRule. rewrite Hn. simpl. rewrite Hk.
    destruct (lookupDict tb (group (tag e)) (element (tag e))) as [entry|] eqn:E; simpl.
    - rewrite (Hd entry eq_refl), Hg. simpl. by rewrite Hr.
    - rewrite Hg. simpl. by rewrite Hr.
Qed.

  (** [clear] and [replace] on an element with a single text value. *)
Lemma clear_single_value tg vr0 vl0 s so eo :
    clear (mkElement tg vr0 vl0 (JArray [JString s]) so eo)
    = Ok (mkElement tg vr0 (VLnum 0) (JArray [JString ""]) so so,
          Some (mkElement tg vr0 (VLnum 0) (JArray [JString ""]) so so)).
Proof. reflexivity. Qed.

Lemma replace_single_value tg vr0 vl0 s v so eo :
    replace (mkElement tg vr0 vl0 (JArray [JString s]) so eo) (JString v)
    = Ok (mkElement tg vr0 (VLnum (Z.of_nat (String.length v))) (JArray [JString v])
                    so (so + String.length v),
          Some (mkElement tg vr0 (VLnum (Z.of_nat (String.length v))) (JArray [JString v])
                          so (so + String.length v))).
Proof. reflexivity. Qed.

End Rules.

(** C7, at the failing input: [clear] and [replace] overwrite [value[0]]
    only.  The element [imageType] has two values; after [clear] the
    second value is still there while the length says 0, and [getBuffer],
    which sizes the element by its length and writes all its values,
    runs past the end of its buffer. *)
Lemma clear_keeps_further_values :
  DicomWriter.getElementToWrite exampleTables clearImageType imageType
  = Ok (imageTypeCleared, Some imageTypeCleared)
  /\ Dicom.value imageTypeCleared <> Dicom.JArray [Dicom.JString ""]
  /\ (fst <$> DicomParser.parse exampleEnv exampleTables imageTypeFile) = Ok imageTypeElements
  /\ (els ← DicomParser.parse exampleEnv exampleTables imageTypeFile;
      DicomWriter.getBuffer exampleTables clearImageType els.1) = Throw RangeError
  /\ (els ← DicomParser.parse exampleEnv exampleTables imageTypeFile;
      DicomWriter.getBuffer exampleTables replaceImageType els.1) = Throw RangeError.
Proof. repeat split; try reflexivity. discriminate. Qed.

(** ** C10: the rules change the elements of the caller *)

Section RuleEffects.
Import Dicom DicomWriter.




  (** With [replace], the map of the caller holds the new value after
      [getBuffer]. *)
Lemma getBuffer_replace_changes_the_map :
    fst <$> DicomParser.parse exampleEnv exampleTables patientFile
    = Ok (patientElements (patientName "DOE^JOHN" 188))
    /\ snd <$> getBuffer exampleTables replacePatientName
                 (patientElements (patientName "DOE^JOHN" 188))
       = Ok (patientElements (patientName "Anonymized" 190)).
Proof. split; reflexivity. Qed.

End RuleEffects.

(** ** C8: rescaled values *)

Section Rescale.
Import Image.

  (** While the flag is the answer of its loop, the rescaled value is the
      value times the slope plus the intercept of the slice. *)
Lemma getRescaledValue_law img i j k f rsi :
    isIdentityRSI img = forallb isID (rsis img) ->
    0 <= k -> getRescaleSlopeAndIntercept img (Z.to_nat k) = Some rsi ->
    getRescaledValue img i j k f = (fun v : option Z => apply rsi <$> v) <$> getValue img i j k f.
Proof.
    intros Hflag Hk Hrsi. unfold getRescaledValue.
    destruct (getValue img i j k f) as [v|]; [|done]. simpl.
    destruct (isIdentityRSI img) eqn:E; simpl.
    - symmetry in Hflag. rewrite forallb_forall in Hflag.
      assert (Hid : isID rsi = true).
      { apply Hflag. apply list_elem_of_In. eapply list_elem_of_lookup_2. exact Hrsi. }
      unfold isID in Hid. apply andb_prop in Hid as [Hs Hi].
      apply Z.eqb_eq in Hs, Hi. unfold apply. rewrite Hs, Hi.
      destruct v; simpl; [|done]. do 2 f_equal. lia.
    - destruct (k <? 0) eqn:Ek; [lia|]. by rewrite Hrsi.
Qed.

  (** When [isIdentityRSI()] holds the rescaled value is the value. *)
Lemma getRescaledValue_identity img i j k f :
    isIdentityRSI img = true -> getRescaledValue img i j k f = getValue img i j k f.
Proof.
    intros H. unfold getRescaledValue. rewrite H. simpl.
    by destruct (getValue img i j k f).
Qed.

  (** [setRescaleSlopeAndIntercept] leaves the flag as its loop computes it. *)
Lemma setRescaleSlopeAndIntercept_flag img rsi k img' :
    setRescaleSlopeAndIntercept img rsi k = Ok img' ->
    isIdentityRSI img' = forallb isID (rsis img').
Proof.
    unfold setRescaleSlopeAndIntercept. destruct (length (rsis img) <? k)%nat; [done|].
    by intros [= <-].
Qed.

End Rescale.

(** C8, at the failing input: [appendSlice] inserts the slope and
    intercept of the new slice and leaves the flag [isIdentityRSI] as it
    was.  A slice with slope 2 and intercept 5 is appended to an image
    with the identity; the flag still holds, and the pixel 9 of the new
    slice is returned as 9, not as 9 * 2 + 5 = 23. *)
Lemma appendSlice_leaves_identity_flag :
  exists rhs img,
    Image.setRescaleSlopeAndIntercept (sliceAt 1 [9; 9]) rsi25 0 = Ok rhs
    /\ Image.appendSlice (sliceAt 0 [7; 7]) rhs None = Ok (img, 1%nat)
    /\ Image.rsis img = [{| Image.getSlope := 1; Image.getIntercept := 0 |}; rsi25]
    /\ Image.isIdentityRSI img = true
    /\ Image.getValue img 0 0 1 0 = Ok (Some 9)
    /\ Image.getRescaledValue img 0 0 1 0 = Ok (Some 9)
    /\ Image.apply rsi25 9 = 23.
Proof. do 2 eexists. repeat split; reflexivity. Qed.

(** ** C9: the pixels after [appendSlice] *)

(** C9, at the failing input: a slice at height 1 is inserted between the
    slices at the heights 0 and 2.  The index is 1 and the origins are in
    order, but the pixels before the new slice are copied with
    [subarray(0, offset - 1)], which leaves out the last of them: the
    pixel 2 of the first slice is 0 afterwards. *)
Lemma appendSlice_between_loses_a_pixel :
  exists two img,
    Image.appendSlice (sliceAt 0 [1; 2]) (sliceAt 2 [3; 4]) None = Ok (two, 1%nat)
    /\ Image.getBuffer two = [(Uint8Array, [1; 2; 3; 4])]
    /\ Image.appendSlice two (sliceAt 1 [5; 6]) None = Ok (img, 1%nat)
    /\ Math.getZ <$> Geometry.getOrigins (Image.getGeometry img) = [0; 1; 2]
    /\ Image.getBuffer img = [(Uint8Array, [1; 0; 5; 6; 3; 4])]
    /\ Image.getValue two 1 0 0 0 = Ok (Some 2)
    /\ Image.getValue img 1 0 0 0 = Ok (Some 0).
Proof. do 2 eexists. repeat split; reflexivity. Qed.
(** ** Pixel data after [parse]: frames *)

Section Frames.
Import Dicom.

(** A [mapM] that succeeds has mapped every element. *)
Lemma mapM_Ok {A B} (f : A -> result B) (l : list A) (k : list B) :
  mapM f l = Ok k ->
  length k = length l /\
  forall i x, l !! i = Some x -> exists y, k !! i = Some y /\ f x = Ok y.
Proof.
  revert k. induction l as [|a l IH]; intros k; simpl.
  - intros [= <-]. split; [done|]. intros i x; by rewrite lookup_nil.
  - destruct (f a) as [b|e] eqn:Hf; simpl; [|done].
    destruct (mapM f l) as [k'|e] eqn:Hm; simpl; [|done].
    intros [= <-]. destruct (IH k' eq_refl) as [Hl Hi]. split; [simpl; lia|].
    intros [|i] x; simpl.
    + intros [= <-]. eauto.
    + apply Hi.
Qed.

(** A property that was just set is found. *)
Lemma get_set_same {A} key (v : A) m : get key (set key v m) = Some v.
Proof.
  induction m as [|[k w] m IH]; simpl.
  - by rewrite String.eqb_refl.
  - destruct (String.eqb k key) eqn:E; simpl; rewrite E; auto.
Qed.

(** [slice(g * s, g * s + s)] is the window of [s] elements from [g * s]. *)
Lemma sliceList_window {A} (l : list A) (g : nat) (s : Z) :
  0 <= s ->
  sliceList l (Some (Z.of_nat g * s)) (Some (Z.of_nat g * s + s))
  = take (Z.to_nat s) (drop (g * Z.to_nat s) l).
Proof.
  intros Hs. unfold sliceList.
  assert (Hb : (Z.of_nat g * s <? 0) = false) by (apply Z.ltb_ge; nia).
  assert (He : (Z.of_nat g * s + s <? 0) = false) by (apply Z.ltb_ge; nia).
  rewrite Hb, He.
  set (len := Z.of_nat (length l)).
  assert (Hg : Z.of_nat (g * Z.to_nat s) = Z.of_nat g * s) by nia.
  destruct (decide (Z.of_nat g * s <= len)) as [H1|H1].
  - rewrite (Z.min_l _ _ H1).
    replace (Z.to_nat (Z.of_nat g * s)) with (g * Z.to_nat s)%nat by lia.
    destruct (decide (Z.of_nat g * s + s <= len)) as [H2|H2].
    + rewrite (Z.min_l _ _ H2). f_equal. lia.
    + rewrite Z.min_r by lia.
      rewrite !take_ge; [done| |]; rewrite length_drop; unfold len in *; lia.
  - rewrite !Z.min_r by lia.
    rewrite !drop_ge; [by rewrite !take_nil| |]; unfold len in *; lia.
Qed.



End Frames.

(** ** Pixel data after [parse]: fragments *)

Section Fragments.
Import Dicom.

(** A [mapM] that succeeds relates the two lists element by element. *)
Lemma mapM_Ok_inv {A B} (f : A -> result B) (l : list A) (k : list B) :
  mapM f l = Ok k -> Forall2 (fun x y => f x = Ok y) l k.
Proof.
  revert k. induction l as [|a l IH]; intros k; simpl.
  - intros [= <-]. constructor.
  - destruct (f a) as [b|e] eqn:Hf; simpl; [|done].
    destruct (mapM f l) as [k'|e] eqn:Hm; simpl; [|done].
    intros [= <-]. constructor; auto.
Qed.

(** A frame that [concatFragments] builds: the index of its first
    fragment is whole, the fragments are typed arrays, and the frame holds
    their numbers in an array of the kind of the first fragment. *)
Lemma concatFragments_Ok pixItems n f v :
  0 < n ->
  DicomParser.concatFragments pixItems n f = Ok v ->
  (Z.of_nat f * Z.of_nat (length pixItems)) mod n = 0 /\
  let q := Z.to_nat ((Z.of_nat (length pixItems) + n - 1) / n) in
  let from := Z.to_nat (Z.of_nat f * Z.of_nat (length pixItems) / n) in
  exists k d0 rest, pixItems = JTypedArray k d0 :: rest /\
  length (take q (drop from pixItems)) = q /\
  Forall isTypedArray (take q (drop from pixItems)) /\
  v = JTypedArray k (wrap k <$> concat (fragmentData <$> take q (drop from pixItems))).
Proof.
  intros Hn. unfold DicomParser.concatFragments.
  destruct (_ =? 0) eqn:Hd; simpl; [|done]. apply Z.eqb_eq in Hd.
  destruct (mapM _ _) as [frags|e] eqn:Hm; simpl; [|done].
  destruct pixItems as [|[| | | |k d0| |] rest] eqn:Hp; try done.
  intros [= <-]. split; [done|]. rewrite <- Hp.
  set (q := Z.to_nat ((Z.of_nat (length pixItems) + n - 1) / n)).
  set (from := Z.to_nat (Z.of_nat f * Z.of_nat (length pixItems) / n)).
  exists k, d0, rest. split; [done|].
  rewrite <- Hp in Hm. clear Hp.
  apply mapM_Ok_inv in Hm. fold q from in Hm.
  assert (Hgen : forall (c s : nat) fr,
            Forall2 (fun (i : nat) y =>
                       match pixItems !! (from + i)%nat with
                       | Some (JTypedArray _ d) => Ok d
                       | None | Some JUndefined | Some JNull => Throw TypeError
                       | Some _ => Throw Unmodelled
                       end = Ok y) (seq s c) fr ->
            length (take c (drop (from + s) pixItems)) = c /\
            Forall isTypedArray (take c (drop (from + s) pixItems)) /\
            fr = fragmentData <$> take c (drop (from + s) pixItems)).
  { induction c as [|c IH]; intros s fr H; simpl in H.
    - inversion H; subst. rewrite take_0. done.
    - inversion H as [|i y l' fr' Hy Hrest]; subst.
      destruct (pixItems !! (from + s)%nat) as [x|] eqn:Hx; [|done].
      rewrite (drop_S _ _ _ Hx). simpl.
      apply IH in Hrest. replace (S (from + s)) with (from + S s)%nat by lia.
      destruct Hrest as (Hl & Hall & ->). split; [by rewrite Hl|].
      destruct x; try done. injection Hy as <-. split; [by constructor|done]. }
  destruct (Hgen q 0%nat frags Hm) as (Hl & Hall & ->).
  rewrite Nat.add_0_r in *. done.
Qed.



End Fragments.

(** ** The errors of [parse] for a buffer that is not DICOM *)

Section NotDicomErrors.
Import Dicom.

(** [quiet] is kept by the combinators of [result]. *)
Lemma quiet_bind {A B} (m : result A) (k : A -> result B) :
  quiet m -> (forall a, m = Ok a -> quiet (k a)) -> quiet (m ≫= k).
Proof. destruct m as [a|e]; simpl; auto. Qed.

Lemma quiet_fmap {A B} (f : A -> B) (m : result A) : quiet m -> quiet (f <$> m).
Proof. by destruct m. Qed.

Lemma quiet_loop {S R} (n : nat) (body : S -> result (S + R)) (s : S) :
  (forall s, quiet (body s)) -> quiet (DicomParser.loop n body s).
Proof.
  intros Hb. revert s. induction n as [|n IH]; intros s; simpl; [done|].
  apply quiet_bind; [apply Hb|]. intros [s'|r] _; [apply IH|done].
Qed.

Lemma quiet_mapM {A B} (f : A -> result B) (l : list A) :
  (forall a, quiet (f a)) -> quiet (mapM f l).
Proof.
  intros Hf. induction l as [|a l IH]; simpl; [done|].
  apply quiet_bind; [apply Hf|]. intros b _.
  apply quiet_bind; [apply IH|]. done.
Qed.

(** One step through a term of [result]. *)
Ltac quiet_step :=
  lazymatch goal with
  | |- True => exact I
  | |- quiet (Ok _) => exact I
  | |- quiet (Throw RangeError) => exact I
  | |- quiet (Throw TypeError) => exact I
  | |- quiet (Throw Unmodelled) => exact I
  | |- quiet (Throw OutOfFuel) => exact I
  | |- quiet (mret _) => exact I
  | |- quiet (mbind _ _) => apply quiet_bind; [|intros ? ?]
  | |- quiet (fmap _ _) => apply quiet_fmap
  | |- quiet (DicomParser.loop _ _ _) => apply quiet_loop; intros ?
  | |- quiet (mapM _ _) => apply quiet_mapM; intros ?
  | |- quiet (of_option _ ?o) => destruct o; simpl
  | |- quiet (match ?x with _ => _ end) => destruct x
  | |- quiet (let (_, _) := ?x in _) => destruct x
  end.

Lemma quiet_getUint n buf off le : quiet (DataReader.getUint n buf off le).
Proof. unfold DataReader.getUint. repeat quiet_step. Qed.

Lemma quiet_getInt n buf off le : quiet (DataReader.getInt n buf off le).
Proof. unfold DataReader.getInt. quiet_step; [apply quiet_getUint|]. repeat quiet_step. Qed.

Lemma quiet_view env k buf off len : quiet (DataReader.view env k buf off len).
Proof. unfold DataReader.view. repeat quiet_step. Qed.

Lemma quiet_fill k get off count i data :
  (forall o, quiet (get o)) -> quiet (DataReader.fill k get off count i data).
Proof.
  intros Hg. revert i data. induction count as [|c IH]; intros i data; simpl; [done|].
  quiet_step; [apply Hg|apply IH].
Qed.

Lemma quiet_readArray env r k get buf off size :
  (forall b o le, quiet (get b o le)) ->
  quiet (DataReader.readArray env r k get buf off size).
Proof.
  intros Hg. unfold DataReader.readArray.
  repeat first [apply quiet_view | apply quiet_fill; intros ? | apply Hg | quiet_step].
Qed.

Section Quiet.
Context (env : Env) (tb : Tables).

Lemma quiet_readString buf off n : quiet (DicomParser.readString buf off n).
Proof. unfold DicomParser.readString. repeat quiet_step. Qed.

Lemma quiet_readSpecialString r buf off n :
  quiet (DicomParser.readSpecialString env r buf off n).
Proof. unfold DicomParser.readSpecialString. repeat quiet_step. Qed.

Lemma quiet_readHex r buf off : quiet (DicomParser.readHex r buf off).
Proof.
  unfold DicomParser.readHex, DataReader.readUint16.
  repeat first [apply quiet_getUint | quiet_step].
Qed.

Lemma quiet_readTag r buf off : quiet (DicomParser.readTag r buf off).
Proof. unfold DicomParser.readTag. repeat first [apply quiet_readHex | quiet_step]. Qed.

Lemma quiet_readHeader r buf off implicit :
  quiet (DicomParser.readHeader tb r buf off implicit).
Proof.
  unfold DicomParser.readHeader, DataReader.readUint16, DataReader.readUint32.
  repeat first [apply quiet_readTag | apply quiet_readString | apply quiet_getUint
               | quiet_step].
Qed.

Lemma quiet_formatAT raw : quiet (DicomParser.formatAT raw).
Proof.
  assert (H : forall n raw, (length raw <= n)%nat -> quiet (DicomParser.formatAT raw)).
  { induction n as [|n IH]; intros [|g [|e r]] Hl; simpl in *; try done; try lia.
    quiet_step; [apply IH; lia|done]. }
  by apply (H (length raw)).
Qed.

Lemma quiet_index0 v : quiet (index0 v).
Proof. destruct v as [| | | |k [|]|[|]|]; done. Qed.

Lemma quiet_typed k x : quiet x -> quiet (DicomParser.typed k x).
Proof. intros Hx. unfold DicomParser.typed. repeat first [apply Hx | quiet_step]. Qed.

Ltac quiet_reader :=
  repeat first
    [ apply quiet_typed
    | apply quiet_readArray; intros ? ? ?
    | apply quiet_view | apply quiet_getUint | apply quiet_getInt
    | apply quiet_index0 | apply quiet_formatAT
    | apply quiet_readHeader | apply quiet_readString | apply quiet_readSpecialString
    | quiet_step ].

Lemma quiet_readPixelData els r buf off vl vr :
  quiet (DicomParser.readPixelData env els r buf off vl vr).
Proof.
  unfold DicomParser.readPixelData, DataReader.readUint8Array, DataReader.readInt8Array,
    DataReader.readUint16Array, DataReader.readInt16Array, DataReader.readUint32Array,
    DataReader.readInt32Array.
  quiet_reader.
Qed.

Section Body.
Context (self : DataReader.t -> list byte -> nat -> bool -> result (Element * list byte)).
Context (Hself : forall r buf off implicit, quiet (self r buf off implicit)).
Context (els : ElementMap).

Lemma quiet_readItemDataElement r buf off implicit :
  quiet (DicomParser.readItemDataElement self r buf off implicit).
Proof. unfold DicomParser.readItemDataElement. repeat first [apply Hself | quiet_step]. Qed.

Lemma quiet_readPixelItemDataElement r buf off implicit :
  quiet (DicomParser.readPixelItemDataElement self r buf off implicit).
Proof. unfold DicomParser.readPixelItemDataElement. repeat first [apply Hself | quiet_step]. Qed.

Lemma quiet_readSequence r buf off implicit vlString vl :
  quiet (DicomParser.readSequence self r buf off implicit vlString vl).
Proof.
  unfold DicomParser.readSequence.
  repeat first [apply quiet_readItemDataElement | quiet_step].
Qed.

Lemma quiet_readDataElementBody r buf off implicit :
  quiet (DicomParser.readDataElementBody env tb self els r buf off implicit).
Proof.
  unfold DicomParser.readDataElementBody, DataReader.readUint8Array, DataReader.readInt8Array,
    DataReader.readUint16Array, DataReader.readInt16Array, DataReader.readUint32Array,
    DataReader.readInt32Array, DataReader.readFloat32Array, DataReader.readFloat64Array.
  quiet_step; [apply quiet_readHeader|].
  quiet_step; [|quiet_reader].
  repeat first
    [ apply quiet_readPixelItemDataElement | apply quiet_readPixelData
    | apply quiet_readSequence
    | apply quiet_typed
    | apply quiet_readArray; intros ? ? ?
    | apply quiet_view | apply quiet_getUint | apply quiet_getInt
    | apply quiet_formatAT
    | apply quiet_readString | apply quiet_readSpecialString
    | quiet_step ].
Qed.

End Body.

(** [readDataElement] throws no [Error] object. *)
Lemma quiet_readDataElement fuel els r buf off implicit :
  quiet (DicomParser.readDataElement env tb fuel els r buf off implicit).
Proof.
  revert r buf off implicit. induction fuel as [|fuel IH]; intros; simpl; [done|].
  by apply quiet_readDataElementBody.
Qed.

End Quiet.

(** Bytes and the text that [readString] makes of them. *)
Lemma string_of_bytes_eq (bs : list byte) (s : string) :
  JS.string_of_bytes bs = s <-> bs = JS.bytes_of_string s.
Proof.
  unfold JS.string_of_bytes, JS.bytes_of_string. split.
  - intros <-. rewrite list_ascii_of_string_of_list_ascii.
    rewrite map_map. erewrite map_ext; [by rewrite map_id|].
    intros a; apply byte_of_ascii_of_byte.
  - intros ->. rewrite map_map. erewrite map_ext; [rewrite map_id|].
    + apply string_of_list_ascii_of_string.
    + intros a; apply ascii_of_byte_of_ascii.
Qed.

Section NotDicom.
Context (env : Env) (tb : Tables).

Lemma quiet_parseIntV v : quiet (DicomParser.parseIntV v).
Proof. by destruct v. Qed.

Lemma quiet_cleanStringV v : quiet (DicomParser.cleanStringV v).
Proof. unfold DicomParser.cleanStringV. repeat quiet_step. Qed.

Lemma quiet_toNumber v : quiet (toNumber v).
Proof. destruct v; try done. simpl. unfold JS.toNumber. repeat quiet_step. Qed.

Lemma quiet_jsLength v : quiet (jsLength v).
Proof. by destruct v. Qed.

Lemma quiet_firstNumber key els : quiet (DicomParser.firstNumber key els).
Proof.
  unfold DicomParser.firstNumber.
  repeat first [apply quiet_index0 | apply quiet_toNumber | quiet_step].
Qed.

Lemma quiet_reshapePixelData els : quiet (DicomParser.reshapePixelData els).
Proof.
  unfold DicomParser.reshapePixelData, DicomParser.sliceFrames, DicomParser.slice,
    DicomParser.concatFragments.
  repeat first [apply quiet_index0 | apply quiet_toNumber | apply quiet_firstNumber
               | quiet_step].
Qed.

Lemma quiet_readDataSet fuel r implicit st :
  quiet (DicomParser.readDataSet env tb fuel r implicit st).
Proof.
  unfold DicomParser.readDataSet.
  repeat first [apply quiet_readDataElement | apply quiet_index0 | apply quiet_cleanStringV
               | apply quiet_jsLength | quiet_step].
Qed.

(** [readMeta] throws an [Error] only for the magic word. *)
Lemma readMeta_Error fuel els b msg :
  DicomParser.readMeta env tb fuel els b = Throw (Error msg) ->
  exists magicword,
    DicomParser.readString b 128 4 = Ok magicword /\ magicword <> "DICM" /\
    Error msg = DicomParser.notDicomMagic.
Proof.
  unfold DicomParser.readMeta.
  destruct (DicomParser.readString b 128 4) as [w|e] eqn:Hw; simpl.
  - destruct (String.eqb w "DICM") eqn:E; simpl.
    + intros H. exfalso.
      assert (Hq : quiet (Throw (A := DicomParser.ParseState) (Error msg))); [|done].
      rewrite <- H.
      repeat first [apply quiet_readDataElement | apply quiet_index0 | apply quiet_parseIntV
                   | quiet_step].
    + intros [= <-]. exists w. split; [done|]. split; [|done].
      by apply String.eqb_neq.
  - intros [= ->]. pose proof (quiet_readString b 128 4) as Hq. by rewrite Hw in Hq.
Qed.

(** [readSyntax] throws its two [Error]s only. *)
Lemma readSyntax_Error els msg :
  DicomParser.readSyntax els = Throw (Error msg) ->
  (get "x00020010" els = None /\ Error msg = DicomParser.notDicomSyntax) \/
  (exists e syntax, get "x00020010" els = Some e /\
                    Error msg = DicomParser.unsupportedSyntax syntax).
Proof.
  unfold DicomParser.readSyntax.
  destruct (get "x00020010" els) as [e|]; [|intros [= <-]; by left].
  intros H. right. exists e.
  destruct (index0 (value e)) as [v|x] eqn:Hv; simpl in H.
  2:{ pose proof (quiet_index0 (value e)) as Hq. rewrite Hv in Hq. by injection H as ->. }
  destruct (DicomParser.cleanStringV v) as [v'|x] eqn:Hc; simpl in H.
  2:{ pose proof (quiet_cleanStringV v) as Hq. rewrite Hc in Hq. by injection H as ->. }
  destruct v'; try done.
  destruct (isReadSupportedTransferSyntax s); [done|]. injection H as <-. by exists s.
Qed.

End NotDicom.

Section NotDicomTheorem.
Context (env : Env) (tb : Tables).

Lemma unsupportedSyntax_neq s e :
  e = DicomParser.unsupportedSyntax s ->
  e <> DicomParser.notDicomMagic /\ e <> DicomParser.notDicomSyntax.
Proof. intros ->. split; intros H; discriminate H. Qed.


End NotDicomTheorem.

(** Another word at offset 128, and a File Meta group without transfer syntax. *)
Lemma parse_not_dicom_examples :
  DicomParser.parse exampleEnv exampleTables wrongMagic = Throw DicomParser.notDicomMagic /\
  DicomParser.parse exampleEnv exampleTables noSyntaxFile = Throw DicomParser.notDicomSyntax.
Proof. split; vm_compute; reflexivity. Qed.


End NotDicomErrors.

(** ** What the writer appends to a buffer *)

Section WriteBytes.
Import Dicom.

Lemma le_bytes_length n z : length (DataWriter.le_bytes n z) = n.
Proof. unfold DataWriter.le_bytes. by rewrite length_map, length_seq. Qed.

Lemma byte_of_Z_mod z : byte_of_Z (z mod 256) = byte_of_Z z.
Proof. unfold byte_of_Z. by rewrite Z.mod_mod. Qed.

Lemma le_bytes_S n z :
  DataWriter.le_bytes (S n) z = byte_of_Z z :: DataWriter.le_bytes n (z / 256).
Proof.
  unfold DataWriter.le_bytes. simpl. rewrite Z.div_1_r. f_equal.
  rewrite <- seq_shift, map_map. apply map_ext. intros i.
  rewrite Nat2Z.inj_succ, Z.pow_succ_r by lia.
  by rewrite Z.div_div by (try apply Z.pow_pos_nonneg; lia).
Qed.

(** The bytes of a number that was read little endian. *)
Lemma le_bytes_be_value bs :
  DataWriter.le_bytes (length bs) (DataReader.be_value (rev bs)) = bs.
Proof.
  induction bs as [|b r IH]; [done|].
  simpl length. rewrite le_bytes_S. simpl rev.
  assert (Hv : DataReader.be_value (rev r ++ [b]) = DataReader.be_value (rev r) * 256 + u8 b).
  { generalize (rev r). intros l. induction l as [|c l IHl]; simpl; [lia|].
    rewrite IHl, length_app. simpl length. rewrite Nat2Z.inj_add.
    rewrite Z.pow_add_r by lia. simpl Z.of_nat. lia. }
  rewrite Hv. pose proof (u8_range b).
  f_equal.
  - rewrite <- byte_of_Z_mod.
    rewrite Z.add_comm, Z.mod_add by lia. rewrite Z.mod_small by lia.
    apply byte_of_Z_u8.
  - rewrite Z.add_comm, Z.div_add by lia. rewrite Z.div_small by lia. simpl. apply IH.
Qed.

(** The bytes stored depend on the number modulo [256 ^ n] only. *)
Lemma le_bytes_mod n z : DataWriter.le_bytes n (z mod 256 ^ Z.of_nat n) = DataWriter.le_bytes n z.
Proof.
  revert z. induction n as [|n IH]; intros z; [done|].
  rewrite !le_bytes_S. rewrite Nat2Z.inj_succ, Z.pow_succ_r by lia.
  assert (Hp : 0 < 256 ^ Z.of_nat n) by (apply Z.pow_pos_nonneg; lia).
  f_equal.
  - rewrite <- (byte_of_Z_mod z), <- (byte_of_Z_mod (z mod _)). f_equal.
    rewrite Z.rem_mul_r by lia.
    rewrite (Z.mul_comm 256), Z.mod_add by lia.
    apply Z.mod_mod. lia.
  - rewrite <- IH, <- (IH (z / 256)). f_equal.
    rewrite Z.rem_mul_r by lia.
    rewrite (Z.mul_comm 256), Z.div_add by lia.
    rewrite (Z.div_small (z mod 256)) by (apply Z.mod_pos_bound; lia). simpl.
    apply Z.mod_mod. lia.
Qed.

Lemma emits_ret : emits Ok [].
Proof. intros w m _. by rewrite app_nil_r, Nat.sub_0_r. Qed.

Lemma emits_bind f g bs bs' :
  emits f bs -> emits g bs' -> emits (fun o => o' ← f o; g o') (bs ++ bs').
Proof.
  intros Hf Hg w m Hm. rewrite length_app in Hm.
  rewrite Hf by lia. simpl. rewrite Hg by lia.
  rewrite length_app, app_assoc. do 2 f_equal. lia.
Qed.

Lemma emits_ext f g bs : (forall o, f o = g o) -> emits g bs -> emits f bs.
Proof. intros E Hg w m Hm. rewrite E. by apply Hg. Qed.

Lemma emits_foldM {A} (f : DataWriter.Out -> A -> result DataWriter.Out)
    (enc : A -> list byte) (l : list A) :
  (forall x, x ∈ l -> emits (fun o => f o x) (enc x)) ->
  emits (fun o => foldM f o l) (concat (enc <$> l)).
Proof.
  induction l as [|x l IH]; intros H; simpl; [apply emits_ret|].
  apply (emits_bind (fun o => f o x) (fun o => foldM f o l)).
  - apply H. by left.
  - apply IH. intros y Hy. apply H. by right.
Qed.

Lemma emits_writeUint n z : emits (fun o => DataWriter.writeUint true n o z) (DataWriter.le_bytes n z).
Proof.
  intros w m Hm. rewrite le_bytes_length in *.
  unfold DataWriter.writeUint, DataWriter.setUint, outState. simpl.
  rewrite decide_True by (rewrite length_app, length_replicate; lia). simpl.
  rewrite take_app_length, drop_app_add'; [|done].
  rewrite drop_replicate, length_app, le_bytes_length.
  by rewrite <- app_assoc.
Qed.

Lemma byte_of_Z_code c : byte_of_Z (JS.code c) = byte_of_ascii c.
Proof. destruct c as [[] [] [] [] [] [] [] []]; reflexivity. Qed.

Lemma concat_singletons {A B} (f : A -> B) (l : list A) :
  concat ((fun x => [f x]) <$> l) = f <$> l.
Proof. induction l as [|x l IH]; simpl; [done|]. f_equal. apply IH. Qed.

Lemma emits_writeString s :
  emits (fun o => DataWriter.writeString true o s) (JS.bytes_of_string s).
Proof.
  unfold DataWriter.writeString, JS.bytes_of_string.
  rewrite <- (concat_singletons byte_of_ascii).
  apply emits_foldM. intros c _.
  replace [byte_of_ascii c] with (DataWriter.le_bytes 1 (JS.code c)).
  - apply emits_writeUint.
  - unfold DataWriter.le_bytes. simpl. rewrite Z.div_1_r. by rewrite byte_of_Z_code.
Qed.

Lemma bytes_of_string_of_bytes bs : JS.bytes_of_string (JS.string_of_bytes bs) = bs.
Proof. by apply eq_sym, string_of_bytes_eq. Qed.

(** The hexadecimal text that [readHex] makes of a 16-bit number. *)
Lemma readHex_value r buf off s :
  DicomParser.readHex r buf off = Ok s ->
  exists v, DataReader.readUint16 r buf off = Ok v /\
    s = hexText v.
Proof.
  unfold DicomParser.readHex. destruct (DataReader.readUint16 r buf off) as [v|e]; [|done].
  simpl. intros [= <-]. by exists v.
Qed.

Ltac digit_cases d Hd :=
  let H := fresh in
  assert (H : d = 0 \/ d = 1 \/ d = 2 \/ d = 3 \/ d = 4 \/ d = 5 \/ d = 6 \/ d = 7 \/
              d = 8 \/ d = 9 \/ d = 10 \/ d = 11 \/ d = 12 \/ d = 13 \/ d = 14 \/ d = 15)
    by lia;
  clear Hd;
  repeat (destruct H as [H|H]; [subst d|]); [..|subst d].

Lemma digitValue_upperHexDigit d :
  0 <= d < 16 -> JS.digitValue (upperHexDigit d) = Some d.
Proof. intros Hd. digit_cases d Hd; reflexivity. Qed.

Lemma toUpperCase_cons c s :
  JS.toUpperCase (String c s)
  = String (if JS.isLower c then JS.fromCharCode (JS.code c - 32) else c) (JS.toUpperCase s).
Proof. reflexivity. Qed.

Lemma hexText_digits v :
  0 <= v < 65536 ->
  hexText v = String "0" (String "x"
                (String (upperHexDigit (v / 4096))
                   (String (upperHexDigit ((v / 256) mod 16))
                      (String (upperHexDigit ((v / 16) mod 16))
                         (String (upperHexDigit (v mod 16)) ""))))).
Proof.
  intros Hv. unfold hexText, JS.toString16.
  destruct (decide (v < 16)) as [H1|H1].
  { cbn [JS.toString16_aux]. rewrite (Z.div_small v 16) by lia. simpl Z.eqb. cbv iota.
    rewrite (Z.div_small v 4096), (Z.div_small v 256) by lia.
    rewrite Z.mod_0_l by lia. reflexivity. }
  destruct (decide (v < 256)) as [H2|H2].
  { assert (E1 : (v / 16 =? 0) = false) by (apply Z.eqb_neq; intros E; apply Z.div_small_iff in E; lia).
    assert (E2 : (v / 16 / 16 =? 0) = true).
    { apply Z.eqb_eq. rewrite Z.div_div by lia. apply Z.div_small. lia. }
    cbn [JS.toString16_aux]. rewrite E1, E2.
    rewrite (Z.div_small v 4096), (Z.div_small v 256) by lia.
    rewrite Z.mod_0_l by lia. reflexivity. }
  destruct (decide (v < 4096)) as [H3|H3].
  { assert (E1 : (v / 16 =? 0) = false) by (apply Z.eqb_neq; intros E; apply Z.div_small_iff in E; lia).
    assert (E2 : (v / 16 / 16 =? 0) = false).
    { apply Z.eqb_neq. rewrite Z.div_div by lia. intros E; apply Z.div_small_iff in E; lia. }
    assert (E3 : (v / 16 / 16 / 16 =? 0) = true).
    { apply Z.eqb_eq. rewrite !Z.div_div by lia. apply Z.div_small. lia. }
    cbn [JS.toString16_aux]. rewrite E1, E2, E3.
    rewrite (Z.div_small v 4096) by lia.
    replace (v / 16 / 16) with (v / 256) by (rewrite Z.div_div by lia; reflexivity).
    rewrite (Z.mod_small (v / 256) 16).
    - reflexivity.
    - split; [apply Z.div_pos; lia|]. apply Z.div_lt_upper_bound; lia. }
  assert (E1 : (v / 16 =? 0) = false) by (apply Z.eqb_neq; intros E; apply Z.div_small_iff in E; lia).
  assert (E2 : (v / 16 / 16 =? 0) = false).
  { apply Z.eqb_neq. rewrite Z.div_div by lia. intros E; apply Z.div_small_iff in E; lia. }
  assert (E3 : (v / 16 / 16 / 16 =? 0) = false).
  { apply Z.eqb_neq. rewrite !Z.div_div by lia. intros E; apply Z.div_small_iff in E; lia. }
  assert (E4 : (v / 16 / 16 / 16 / 16 =? 0) = true).
  { apply Z.eqb_eq. rewrite !Z.div_div by lia. apply Z.div_small. lia. }
  cbn [JS.toString16_aux]. rewrite E1, E2, E3, E4.
  replace (v / 16 / 16 / 16) with (v / 4096) by (rewrite !Z.div_div by lia; reflexivity).
  replace (v / 16 / 16) with (v / 256) by (rewrite Z.div_div by lia; reflexivity).
  rewrite (Z.mod_small (v / 4096) 16).
  - reflexivity.
  - split; [apply Z.div_pos; lia|]. apply Z.div_lt_upper_bound; lia.
Qed.

Lemma parseInt_hex d3 d2 rest :
  0 <= d3 < 16 -> 0 <= d2 < 16 ->
  JS.parseInt (String (upperHexDigit d3) (String (upperHexDigit d2) rest)) 16
  = JS.parseDigits 16 (String (upperHexDigit d3) (String (upperHexDigit d2) rest)) None.
Proof.
  intros H3 H2.
  assert (Hid : forall x : JS.num, (fun z : Z => z) <$> x = x) by (by intros [z|]).
  digit_cases d3 H3; digit_cases d2 H2;
    (etransitivity; [|apply Hid]); reflexivity.
Qed.

Lemma parseDigits_hex d rest acc :
  0 <= d < 16 ->
  JS.parseDigits 16 (String (upperHexDigit d) rest) acc
  = JS.parseDigits 16 rest (Some (default 0 acc * 16 + d)).
Proof.
  intros Hd. cbn [JS.parseDigits]. rewrite digitValue_upperHexDigit by done.
  replace (d <? 16) with true by (symmetry; apply Z.ltb_lt; lia). reflexivity.
Qed.

Lemma hex_roundtrip v : 0 <= v < 65536 -> hexBack (hexText v) = v.
Proof.
  intros Hv. rewrite hexText_digits by done. unfold hexBack.
  assert (H3 : 0 <= v / 4096 < 16).
  { split; [apply Z.div_pos; lia|]. apply Z.div_lt_upper_bound; lia. }
  assert (H2 : 0 <= (v / 256) mod 16 < 16) by (apply Z.mod_pos_bound; lia).
  assert (H1 : 0 <= (v / 16) mod 16 < 16) by (apply Z.mod_pos_bound; lia).
  assert (H0 : 0 <= v mod 16 < 16) by (apply Z.mod_pos_bound; lia).
  assert (Hval : v = ((v / 4096 * 16 + (v / 256) mod 16) * 16 + (v / 16) mod 16) * 16 + v mod 16).
  { pose proof (Z.div_mod v 16). pose proof (Z.div_mod (v / 16) 16).
    pose proof (Z.div_mod (v / 16 / 16) 16).
    replace (v / 16 / 16 / 16) with (v / 4096) in * by (rewrite !Z.div_div by lia; reflexivity).
    replace (v / 16 / 16) with (v / 256) in * by (rewrite Z.div_div by lia; reflexivity).
    assert (v / 4096 mod 16 = v / 4096) by (apply Z.mod_small; lia). lia. }
  remember (v / 4096) as d3. remember ((v / 256) mod 16) as d2.
  remember ((v / 16) mod 16) as d1. remember (v mod 16) as d0.
  clear Heqd3 Heqd2 Heqd1 Heqd0. clear Hv. subst v.
  unfold JS.substr. cbn [String.length substring].
  rewrite parseInt_hex by done.
  rewrite !parseDigits_hex by done. cbn [JS.parseDigits default]. unfold id. lia.
Qed.

(** Leaving [n] bytes of a new buffer as they are. *)
Lemma emits_skip n : emits (fun o => Ok (o.1, (o.2 + n)%nat)) (replicate n x00).
Proof.
  intros w m Hm. rewrite length_replicate in *. unfold outState. simpl.
  rewrite length_app, length_replicate. f_equal. f_equal.
  rewrite <- app_assoc. f_equal. rewrite <- replicate_add. f_equal. lia.
Qed.

Lemma emits_writeHex v :
  0 <= v < 65536 ->
  emits (fun o => DataWriter.writeHex true o (hexText v)) (DataWriter.le_bytes 2 v).
Proof.
  intros Hv. unfold DataWriter.writeHex, DataWriter.writeUint16.
  fold (hexBack (hexText v)). rewrite hex_roundtrip by done. apply emits_writeUint.
Qed.

Lemma emits_writeIntArray n k d :
  emits (fun o => DataWriter.writeIntArray true n o (JTypedArray k d))
        (concat (DataWriter.le_bytes n <$> d)).
Proof.
  unfold DataWriter.writeIntArray. simpl.
  assert (E : concat (DataWriter.le_bytes n <$> d)
              = concat ((fun x => match x with
                                  | JNumber z => DataWriter.le_bytes n z
                                  | _ => []
                                  end) <$> (JNumber <$> d))).
  { rewrite <- list_fmap_compose. reflexivity. }
  rewrite E. apply emits_foldM. intros x Hx.
  apply list_elem_of_fmap in Hx as (z & -> & _). simpl. apply emits_writeUint.
Qed.

Lemma emits_writeFloatArray k d :
  emits (fun o => DataWriter.writeFloatArray true k o (JTypedArray k d))
        (concat (DataWriter.le_bytes (BYTES_PER_ELEMENT k) <$> d)).
Proof.
  apply (emits_ext _ (fun o => foldM (fun o z => DataWriter.writeUint true (BYTES_PER_ELEMENT k) o z)
                                 o d)).
  - intros o. unfold DataWriter.writeFloatArray. by rewrite decide_True.
  - apply emits_foldM. intros z _. apply emits_writeUint.
Qed.

Lemma bytes_of_string_app a b :
  JS.bytes_of_string (a ++ b) = (JS.bytes_of_string a ++ JS.bytes_of_string b)%list.
Proof.
  unfold JS.bytes_of_string. induction a as [|c a IH]; simpl; [done|]. by rewrite IH.
Qed.

Lemma append_nil_r (s : string) : (s ++ "")%string = s.
Proof.
  induction s as [|c s IH]; [done|].
  change (String c (s ++ "")%string = String c s). by f_equal.
Qed.

Lemma reverse_cons c cur s :
  (JS.reverse (String c cur) ++ s)%string = (JS.reverse cur ++ String c s)%string.
Proof.
  unfold JS.reverse. simpl.
  generalize (rev (list_ascii_of_string cur)). intros l.
  induction l as [|a l IH]; [done|].
  change (String a (string_of_list_ascii (l ++ [c]) ++ s)%string
          = String a (string_of_list_ascii l ++ String c s)%string).
  f_equal. apply IH.
Qed.

Lemma writeStringArray_split_aux s cur (first : bool) w m :
  let bs := ((if first then [] else JS.bytes_of_string "\")
             ++ JS.bytes_of_string (JS.reverse cur ++ s))%list in
  (length bs <= m)%nat ->
  exists b,
    foldM (fun '(first, o) x =>
             o ← (if first : bool then Ok o else DataWriter.writeString true o "\");
             s ← DataWriter.toStringV x;
             o ← DataWriter.writeString true o s;
             Ok (false, o))
          (first, outState w m) (JString <$> JS.split_aux "\" s cur)
    = Ok (b, outState (w ++ bs) (m - length bs)).
Proof.
  revert cur first w m. induction s as [|c r IH]; intros cur first w m bs Hm.
  - simpl. exists false. subst bs. rewrite append_nil_r in *. rewrite length_app in Hm.
    assert (Hsep : emits (fun o => if first then Ok o else DataWriter.writeString true o "\")
                     (if first then [] else JS.bytes_of_string "\")).
    { destruct first; [apply emits_ret|apply emits_writeString]. }
    rewrite Hsep by lia. simpl.
    rewrite emits_writeString by lia.
    simpl.
    rewrite length_app, <- app_assoc. do 3 f_equal. lia.
  - cbn [JS.split_aux]. destruct (Ascii.eqb c "\") eqn:Hc.
    + apply Ascii.eqb_eq in Hc. subst c.
      cbn [fmap list_fmap foldM].
      assert (Hsep : emits (fun o => if first then Ok o else DataWriter.writeString true o "\")
                       (if first then [] else JS.bytes_of_string "\")).
      { destruct first; [apply emits_ret|apply emits_writeString]. }
      subst bs. rewrite bytes_of_string_app, !length_app in Hm.
      change (String "\"%char r) with ("\" ++ r)%string in Hm.
      rewrite bytes_of_string_app, length_app in Hm.
      rewrite Hsep by lia. simpl mbind.
      rewrite emits_writeString by lia. simpl mbind.
      destruct (IH "" false (w ++ (if first then [] else JS.bytes_of_string "\")
                               ++ JS.bytes_of_string (JS.reverse cur))%list
                  (m - length (if first then [] else JS.bytes_of_string "\")
                   - length (JS.bytes_of_string (JS.reverse cur)))%nat) as [b Hb].
      { change (JS.reverse "") with "". change ("" ++ r)%string with r.
        cbn [app]. rewrite length_app. lia. }
      exists b. rewrite <- app_assoc. etransitivity; [exact Hb|].
      change (JS.reverse "") with "". change ("" ++ r)%string with r.
      assert (Hbs : JS.bytes_of_string (JS.reverse cur ++ String "\"%char r)
                    = (JS.bytes_of_string (JS.reverse cur)
                       ++ JS.bytes_of_string "\" ++ JS.bytes_of_string r)%list).
      { rewrite bytes_of_string_app.
        change (String "\"%char r) with ("\" ++ r)%string.
        by rewrite bytes_of_string_app. }
      rewrite Hbs. rewrite <- !app_assoc. do 2 f_equal.
      rewrite !length_app. f_equal. lia.
    + destruct (IH (String c cur) first w m) as [b Hb].
      { subst bs. by rewrite reverse_cons. }
      exists b. rewrite Hb. subst bs. by rewrite reverse_cons.
Qed.

Lemma emits_writeStringArray s :
  emits (fun o => DataWriter.writeStringArray true o (JArray (JString <$> JS.split "\" s)))
        (JS.bytes_of_string s).
Proof.
  intros w m Hm. unfold DataWriter.writeStringArray, JS.split. cbn [DataWriter.elementsOf mbind result_bind].
  destruct (writeStringArray_split_aux s "" true w m) as [b Hb]; [exact Hm|].
  change (JS.reverse "") with "" in Hb. change ("" ++ s)%string with s in Hb.
  cbn [app] in Hb. by rewrite Hb.
Qed.

End WriteBytes.

(** ** Typed arrays read and written back *)

Section ReadBack.
Import Dicom.
Import DataReader.

Lemma concat_chunks {A} bpel n (bs : list A) :
  length bs = (n * bpel)%nat ->
  concat (map (fun i : nat => take bpel (drop (i * bpel) bs)) (seq 0 n)) = bs.
Proof.
  revert bs. induction n as [|n IH]; intros bs Hl.
  - simpl in *. by destruct bs.
  - cbn [seq map concat]. rewrite drop_0. rewrite <- seq_shift, map_map.
    transitivity (take bpel bs ++ drop bpel bs); [|apply take_drop]. f_equal.
    transitivity (concat (map (fun i : nat => take bpel (drop (i * bpel) (drop bpel bs)))
                              (seq 0 n))).
    + f_equal. apply map_ext. intros i. rewrite drop_drop. do 2 f_equal; simpl; lia.
    + apply IH. rewrite length_drop. simpl in Hl. lia.
Qed.

Lemma wrap_mod k u :
  wrap k u mod 256 ^ Z.of_nat (BYTES_PER_ELEMENT k) = u mod 256 ^ Z.of_nat (BYTES_PER_ELEMENT k).
Proof.
  destruct k; cbn [wrap BYTES_PER_ELEMENT];
    first [ change (256 ^ Z.of_nat 1) with (2 ^ 8) | change (256 ^ Z.of_nat 2) with (2 ^ 16)
          | change (256 ^ Z.of_nat 4) with (2 ^ 32) | change (256 ^ Z.of_nat 8) with (2 ^ 64) ];
    try (rewrite to_signed_mod by (first [lia | apply Z.mod_pos_bound; lia]));
    rewrite ?Z.mod_mod by lia; reflexivity.
Qed.

(** Writing the numbers of a typed array that was read little endian
    gives the bytes back. *)
Lemma encode_decode k bs n :
  length bs = (n * BYTES_PER_ELEMENT k)%nat ->
  concat (DataWriter.le_bytes (BYTES_PER_ELEMENT k) <$> decode k true bs) = bs.
Proof.
  intros Hl. pose proof (bpel_pos k) as Hpos.
  unfold decode. rewrite Hl, Nat.div_mul by lia.
  transitivity (concat (map (fun i : nat => take (BYTES_PER_ELEMENT k)
                                               (drop (i * BYTES_PER_ELEMENT k) bs)) (seq 0 n)));
    [|by apply concat_chunks].
  f_equal.
  change (DataWriter.le_bytes (BYTES_PER_ELEMENT k) <$>
          ((fun i : nat =>
              wrap k (be_value (rev (take (BYTES_PER_ELEMENT k)
                                       (drop (i * BYTES_PER_ELEMENT k) bs))))) <$> seq 0 n)
          = (fun i : nat => take (BYTES_PER_ELEMENT k) (drop (i * BYTES_PER_ELEMENT k) bs))
              <$> seq 0 n).
  rewrite <- list_fmap_compose. apply list_fmap_ext. intros j i Hi%lookup_seq. simpl.
  destruct Hi as [-> Hi]. simpl.
  rewrite <- le_bytes_mod, wrap_mod, le_bytes_mod.
  set (c := take _ _).
  assert (Hc : length c = BYTES_PER_ELEMENT k).
  { unfold c. rewrite length_take, length_drop. nia. }
  rewrite <- Hc at 1. apply le_bytes_be_value.
Qed.

Lemma decode_one_byte k le bs :
  BYTES_PER_ELEMENT k = 1%nat -> decode k le bs = decode k true bs.
Proof.
  intros Hk. unfold decode. apply map_ext. intros i. cbv zeta. rewrite Hk.
  destruct le; [done|].
  destruct (drop (i * 1) bs) as [|b l]; [done|]. reflexivity.
Qed.

Lemma fill_Ok_gets k get off count i data d :
  fill k get off count i data = Ok d ->
  forall j, (i <= j < i + count)%nat -> exists v, get (off + BYTES_PER_ELEMENT k * j)%nat = Ok v.
Proof.
  revert i data. induction count as [|c IH]; intros i data H j Hj; [lia|].
  simpl in H. destruct (get (off + BYTES_PER_ELEMENT k * i)%nat) as [v|e] eqn:Hg; [|done].
  simpl in H. destruct (decide (j = i)) as [->|Hne]; [eauto|].
  apply (IH _ _ H). lia.
Qed.

Lemma agrees_Ok_bound k get buf o le v :
  agrees k get -> get buf o le = Ok v -> (o + BYTES_PER_ELEMENT k <= length buf)%nat.
Proof.
  intros Hag Hg. specialize (Hag buf o le). rewrite Hg in Hag. simpl in Hag.
  unfold getUint in Hag. destruct (bytes_at buf o (BYTES_PER_ELEMENT k)) as [bs|] eqn:Hb;
    [|done].
  by apply bytes_at_Some in Hb as [? _].
Qed.

Lemma view_Ok env k buf off n d :
  view env k buf off n = Ok d ->
  (off + n * BYTES_PER_ELEMENT k <= length buf)%nat /\
  d = decode k (isNativeLittleEndian env) (take (n * BYTES_PER_ELEMENT k) (drop off buf)).
Proof.
  intros H.
  assert (Hb : (off + n * BYTES_PER_ELEMENT k <= length buf)%nat).
  { revert H. unfold view. by case_decide. }
  split; [done|].
  assert (Hbs : bytes_at buf off (n * BYTES_PER_ELEMENT k)
                = Some (take (n * BYTES_PER_ELEMENT k) (drop off buf))).
  { unfold bytes_at. by rewrite decide_True. }
  rewrite (view_decode env k buf off n _ Hbs) in H. by injection H.
Qed.

(** A typed array read that returns, without a change of byte order. *)
Lemma readArray_Ok env r k get buf off n d buf' :
  agrees k get -> needFlip env r = false -> (off <= length buf)%nat ->
  readArray env r k get buf off (n * BYTES_PER_ELEMENT k) = Ok (d, buf') ->
  buf' = buf /\ (off + n * BYTES_PER_ELEMENT k <= length buf)%nat /\
  d = decode k (isLittleEndian r) (take (n * BYTES_PER_ELEMENT k) (drop off buf)).
Proof.
  intros Hag Hnf Hoff H. pose proof (bpel_pos k) as Hpos.
  assert (Hb : (off + n * BYTES_PER_ELEMENT k <= length buf)%nat /\ buf' = buf).
  { revert H. unfold readArray. cbv zeta. rewrite Nat.div_mul by lia. rewrite Hnf.
    case_decide as Hal.
    - destruct (view env k buf off n) as [x|e] eqn:Hv; [|done].
      apply view_Ok in Hv as [Hbd _]. simpl. by intros [= _ ->].
    - replace ((n * BYTES_PER_ELEMENT k + BYTES_PER_ELEMENT k - 1) / BYTES_PER_ELEMENT k)%nat
        with n.
      2:{ apply Nat.div_unique with (r := (BYTES_PER_ELEMENT k - 1)%nat); lia. }
      destruct (fill _ _ _ _ _ _) as [x|e] eqn:Hf; [|done]. simpl. intros [= _ ->].
      split; [|done]. destruct n as [|n]; [lia|].
      destruct (fill_Ok_gets _ _ _ _ _ _ _ Hf n ltac:(lia)) as [v Hv].
      apply (agrees_Ok_bound _ _ _ _ _ _ Hag) in Hv. lia. }
  destruct Hb as [Hb ->]. split; [done|]. split; [done|].
  assert (Hbs : bytes_at buf off (n * BYTES_PER_ELEMENT k)
                = Some (take (n * BYTES_PER_ELEMENT k) (drop off buf))).
  { unfold bytes_at. by rewrite decide_True. }
  pose proof (readArray_values env r k get buf off n _ Hag Hbs) as Hv.
  rewrite H in Hv. simpl in Hv. by injection Hv.
Qed.

End ReadBack.

(** ** One element, read and written back *)

Section Header.
Import Dicom.
Import DataReader.
Context (tb : Tables).

Lemma take_drop_add {A} (l : list A) o a b :
  take (a + b) (drop o l) = take a (drop o l) ++ take b (drop (o + a) l).
Proof.
  rewrite <- drop_drop. generalize (drop o l). clear l. intros l.
  revert l. induction a as [|a IH]; intros l; [by rewrite drop_0|].
  destruct l as [|x l]; [by rewrite drop_nil, !take_nil|].
  simpl. by rewrite IH.
Qed.

Lemma getUint_le n buf off v :
  getUint n buf off true = Ok v ->
  (off + n <= length buf)%nat /\ 0 <= v < 256 ^ Z.of_nat n /\
  DataWriter.le_bytes n v = take n (drop off buf).
Proof.
  unfold getUint. destruct (bytes_at buf off n) as [bs|] eqn:Hb; [|done].
  simpl. intros [= <-]. apply bytes_at_Some in Hb as (Hle & -> & Hlen).
  split; [done|]. split.
  - pose proof (be_value_range (rev (take n (drop off buf)))) as Hr.
    by rewrite length_rev, Hlen in Hr.
  - rewrite <- Hlen at 1. apply le_bytes_be_value.
Qed.

Lemma readHex_le r buf off s :
  isLittleEndian r = true ->
  DicomParser.readHex r buf off = Ok s ->
  exists v, s = hexText v /\ 0 <= v < 65536 /\ (off + 2 <= length buf)%nat /\
            DataWriter.le_bytes 2 v = take 2 (drop off buf).
Proof.
  intros Hr H. apply readHex_value in H as (v & Hv & ->).
  unfold readUint16 in Hv. rewrite Hr in Hv. apply getUint_le in Hv as (? & ? & ?).
  exists v. done.
Qed.

Lemma string_length_bytes s : length (JS.bytes_of_string s) = String.length s.
Proof.
  unfold JS.bytes_of_string. rewrite length_map.
  induction s as [|c s IH]; simpl; [done|]. by rewrite IH.
Qed.

Lemma readString_bytes buf off n s :
  DicomParser.readString buf off n = Ok s ->
  (off + n <= length buf)%nat /\ JS.bytes_of_string s = take n (drop off buf).
Proof.
  unfold DicomParser.readString. destruct (bytes_at buf off n) as [bs|] eqn:Hb; [|done].
  simpl. intros [= <-]. apply bytes_at_Some in Hb as (Hle & -> & Hlen).
  split; [done|]. apply bytes_of_string_of_bytes.
Qed.

(** The bytes of a header that was read little endian. *)
Lemma readHeader_bytes r buf off implicit h :
  isLittleEndian r = true ->
  DicomParser.readHeader tb r buf off implicit = Ok h ->
  isTagWithVR (group (DicomParser.h_tag h)) (element (DicomParser.h_tag h)) = true ->
  exists g el vl,
    0 <= g < 65536 /\ 0 <= el < 65536 /\ 0 <= vl /\
    group (DicomParser.h_tag h) = hexText g /\ element (DicomParser.h_tag h) = hexText el /\
    DicomParser.h_startOffset h
    = (off + getDataElementPrefixByteSize (DicomParser.h_vr h) implicit)%nat /\
    (DicomParser.h_startOffset h <= length buf)%nat /\
    DicomParser.h_vlString h = (if vl =? 4294967295 then undefinedLength else VLnum vl) /\
    DicomParser.h_vl h = (if vl =? 4294967295 then 0%nat else Z.to_nat vl) /\
    take 4 (drop off buf) = DataWriter.le_bytes 2 g ++ DataWriter.le_bytes 2 el /\
    (if implicit then True
     else JS.bytes_of_string (DicomParser.h_vr h) = take 2 (drop (off + 4) buf)
          /\ String.length (DicomParser.h_vr h) = 2%nat) /\
    DataWriter.le_bytes (if implicit || is32bitVLVRFunc (DicomParser.h_vr h) then 4 else 2) vl
    = take (if implicit || is32bitVLVRFunc (DicomParser.h_vr h) then 4 else 2)
           (drop (DicomParser.h_startOffset h
                  - (if implicit || is32bitVLVRFunc (DicomParser.h_vr h) then 4 else 2)) buf).
Proof.
  intros Hr H Hvr. unfold DicomParser.readHeader, DicomParser.readTag in H.
  destruct (DicomParser.readHex r buf off) as [gs|] eqn:Hg; [|done].
  apply (readHex_le _ _ _ _ Hr) in Hg as (g & -> & Hgr & Hgb & Hgbytes).
  simpl in H.
  destruct (DicomParser.readHex r buf (off + 2)) as [es|] eqn:He; [|done].
  apply (readHex_le _ _ _ _ Hr) in He as (el & -> & Her & Heb & Hebytes).
  simpl in H.
  assert (Htag : take 4 (drop off buf) = DataWriter.le_bytes 2 g ++ DataWriter.le_bytes 2 el).
  { rewrite Hgbytes, Hebytes. apply (take_drop_add buf off 2 2). }
  destruct (isTagWithVR (hexText g) (hexText el)) eqn:Htw.
  2:{ exfalso. revert H. simpl.
      destruct (readUint32 r buf (off + 4)) as [v|]; [|done]. simpl. intros [= <-].
      simpl in Hvr. congruence. }
  destruct implicit.
  - simpl in H. destruct (readUint32 r buf (off + 4)) as [v|] eqn:Hv; [|done].
    simpl in H. injection H as <-. simpl.
    unfold readUint32 in Hv. rewrite Hr in Hv. apply getUint_le in Hv as (Hvb & Hvr' & Hvbytes).
    exists g, el, v. unfold getDataElementPrefixByteSize. simpl.
    repeat split; try done; try lia.
    rewrite Hvbytes. do 2 f_equal. lia.
  - simpl in H. destruct (DicomParser.readString buf (off + 4) 2) as [vr|] eqn:Hs; [|done].
    apply readString_bytes in Hs as [Hsb Hsbytes]. simpl in H.
    assert (Hvrl : String.length vr = 2%nat).
    { rewrite <- (string_length_bytes vr), Hsbytes, length_take, length_drop. lia. }
    destruct (is32bitVLVRFunc vr) eqn:H32.
    + destruct (readUint32 r buf (off + 4 + 2 + 2)) as [v|] eqn:Hv; [|done].
      simpl in H. injection H as <-. simpl.
      unfold readUint32 in Hv. rewrite Hr in Hv.
      apply getUint_le in Hv as (Hvb & Hvr' & Hvbytes).
      exists g, el, v. unfold getDataElementPrefixByteSize. rewrite H32. simpl.
      repeat split; try done; try lia.
      rewrite Hvbytes. do 2 f_equal. lia.
    + destruct (readUint16 r buf (off + 4 + 2)) as [v|] eqn:Hv; [|done].
      simpl in H. injection H as <-. simpl.
      unfold readUint16 in Hv. rewrite Hr in Hv.
      apply getUint_le in Hv as (Hvb & Hvr' & Hvbytes).
      exists g, el, v. unfold getDataElementPrefixByteSize. rewrite H32. simpl.
      repeat split; try done; try lia.
      rewrite Hvbytes. do 2 f_equal. lia.
Qed.

End Header.

Section WriteElement.
Import Dicom.

Lemma writeHex_out v w m :
  0 <= v < 65536 -> (2 <= m)%nat ->
  DataWriter.writeHex true (outState w m) (hexText v)
  = Ok (outState (w ++ DataWriter.le_bytes 2 v) (m - 2)).
Proof.
  intros Hv Hm. pose proof (emits_writeHex v Hv w m) as H.
  rewrite le_bytes_length in H. exact (H Hm).
Qed.

Lemma writeUint_out n z w m :
  (n <= m)%nat ->
  DataWriter.writeUint true n (outState w m) z
  = Ok (outState (w ++ DataWriter.le_bytes n z) (m - n)).
Proof.
  intros Hm. pose proof (emits_writeUint n z w m) as H.
  rewrite le_bytes_length in H. exact (H Hm).
Qed.

Lemma writeString_out s w m :
  (String.length s <= m)%nat ->
  DataWriter.writeString true (outState w m) s
  = Ok (outState (w ++ JS.bytes_of_string s) (m - String.length s)).
Proof.
  intros Hm. pose proof (emits_writeString s w m) as H.
  assert (Hl : length (JS.bytes_of_string s) = String.length s).
  { unfold JS.bytes_of_string. rewrite length_map.
    clear. induction s as [|c s IH]; simpl; [done|]. by rewrite IH. }
  rewrite Hl in H. exact (H Hm).
Qed.

Lemma skip_out n w m :
  (n <= m)%nat ->
  (w ++ replicate m x00, (length w + n)%nat) = outState (w ++ replicate n x00) (m - n).
Proof.
  intros Hm. unfold outState. rewrite length_app, length_replicate. f_equal.
  rewrite <- app_assoc. f_equal. rewrite <- replicate_add. f_equal. lia.
Qed.

Lemma withValue_id e : DataWriter.withValue e (value e) = e.
Proof. by destruct e. Qed.

(** Writing an element of which the tag, the length and the value are
    known gives the header and the value. *)
Lemma writeDataElementBody_plain wself e implicit g el n valbytes :
  0 <= g < 65536 -> 0 <= el < 65536 ->
  group (tag e) = hexText g -> element (tag e) = hexText el ->
  isTagWithVR (hexText g) (hexText el) = true ->
  (implicit = false -> String.length (vr e) = 2%nat) ->
  vl e = VLnum n ->
  nameIs e "x7FE00010" = false ->
  value e <> JUndefined ->
  emitsR (fun o => DataWriter.writeDataElementValue true wself (vr e) o (value e) implicit)
         (value e) valbytes ->
  emitsR (fun o => DataWriter.writeDataElementBody true wself e o implicit) e
    (DataWriter.le_bytes 2 g ++ DataWriter.le_bytes 2 el
     ++ (if implicit then []
         else JS.bytes_of_string (vr e)
              ++ (if is32bitVLVRFunc (vr e) then [x00; x00] else []))
     ++ DataWriter.le_bytes (if implicit || is32bitVLVRFunc (vr e) then 4 else 2) n
     ++ valbytes).
Proof.
  intros Hg Hel Eg Eel Htw Hvrlen Hvl Hpix Hund Hval w m Hm.
  unfold DataWriter.writeDataElementBody.
  rewrite Eg, Eel, Htw, Hvl, Hpix.
  unfold DataWriter.isImplicitLengthSequence, DataWriter.isImplicitLengthItem,
    DataWriter.isImplicitLengthPixels. rewrite Hvl. simpl isUndefinedLength.
  rewrite !andb_false_r. simpl orb. cbv iota.
  rewrite !length_app, !le_bytes_length in Hm.
  rewrite writeHex_out by (done || lia). simpl mbind.
  rewrite writeHex_out by (done || lia). simpl mbind.
  destruct implicit.
  - simpl andb. simpl orb. cbv iota. simpl mbind.
    simpl orb in Hm. cbv iota in Hm. simpl length in Hm.
    unfold DataWriter.writeUint32. rewrite writeUint_out by lia. simpl mbind.
    assert (Hv : value e = match value e with JUndefined => JArray [] | v => v end).
    { by destruct (value e). }
    rewrite <- Hv.
    pose proof (Hval (w ++ DataWriter.le_bytes 2 g ++ DataWriter.le_bytes 2 el
                        ++ DataWriter.le_bytes 4 n) (m - 2 - 2 - 4)%nat ltac:(lia)) as H.
    cbv beta in H. rewrite <- !app_assoc. rewrite H. simpl mbind.
    assert (Hv' : match value e with JUndefined => JUndefined | _ => value e end = value e).
    { by destruct (value e). }
    rewrite Hv', withValue_id. f_equal. f_equal.
    f_equal; first [by rewrite <- ?app_assoc
                   |rewrite ?length_app, ?le_bytes_length; simpl; lia].
  - simpl andb. simpl orb. cbv iota. specialize (Hvrlen eq_refl).
    assert (Hbl : length (JS.bytes_of_string (vr e)) = 2%nat).
    { unfold JS.bytes_of_string. rewrite length_map, <- Hvrlen.
      clear. induction (vr e) as [|c s IH]; simpl; [done|]. by rewrite IH. }
    rewrite length_app, Hbl in Hm.
    rewrite writeString_out by lia. simpl mbind. rewrite Hvrlen.
    assert (Hv : value e = match value e with JUndefined => JArray [] | v => v end).
    { by destruct (value e). }
    rewrite <- Hv.
    assert (Hv' : match value e with JUndefined => JUndefined | _ => value e end = value e).
    { by destruct (value e). }
    destruct (is32bitVLVRFunc (vr e)).
    + simpl length in Hm. simpl orb in Hm. cbv iota in Hm. rewrite skip_out by lia.
      unfold DataWriter.writeUint32. rewrite writeUint_out by lia. simpl mbind.
      pose proof (Hval (w ++ DataWriter.le_bytes 2 g ++ DataWriter.le_bytes 2 el
                          ++ (JS.bytes_of_string (vr e) ++ [x00; x00])
                          ++ DataWriter.le_bytes 4 n) (m - 2 - 2 - 2 - 2 - 4)%nat ltac:(lia)) as H.
      cbv beta in H. rewrite <- !app_assoc in *. simpl replicate. rewrite H. simpl mbind.
      rewrite Hv', withValue_id. f_equal. f_equal.
      f_equal; first [by rewrite <- ?app_assoc
                     |rewrite ?length_app, ?le_bytes_length, ?Hbl; simpl; lia].
    + simpl length in Hm. simpl orb in Hm. cbv iota in Hm.
      unfold DataWriter.writeUint16. rewrite writeUint_out by lia. simpl mbind.
      pose proof (Hval (w ++ DataWriter.le_bytes 2 g ++ DataWriter.le_bytes 2 el
                          ++ (JS.bytes_of_string (vr e) ++ [])
                          ++ DataWriter.le_bytes 2 n) (m - 2 - 2 - 2 - 2)%nat ltac:(lia)) as H.
      cbv beta in H. rewrite <- !app_assoc in *. rewrite app_nil_l in H. rewrite H. simpl mbind.
      rewrite Hv', withValue_id. f_equal. f_equal.
      f_equal; first [by rewrite <- ?app_assoc
                     |rewrite ?length_app, ?le_bytes_length, ?Hbl; simpl; lia].
Qed.

Lemma emitsR_of_emits {A} (f : DataWriter.Out -> result DataWriter.Out) (a : A) bs :
  emits f bs -> emitsR (fun o => o' ← f o; Ok (a, o')) a bs.
Proof. intros Hf w m Hm. by rewrite Hf. Qed.

Lemma emitsR_ext {A} (f g : DataWriter.Out -> result (A * DataWriter.Out)) a bs :
  (forall o, f o = g o) -> emitsR g a bs -> emitsR f a bs.
Proof. intros E Hg w m Hm. rewrite E. by apply Hg. Qed.

(** The value of an element of numbers. *)
Lemma writeDataElementValue_typed wself vr k d implicit :
  typedVR vr = Some k ->
  emitsR (fun o => DataWriter.writeDataElementValue true wself vr o (JTypedArray k d) implicit)
         (JTypedArray k d) (concat (DataWriter.le_bytes (BYTES_PER_ELEMENT k) <$> d)).
Proof.
  unfold typedVR. intros H.
  repeat match type of H with
         | (if String.eqb ?a ?b then _ else _) = _ =>
             let E := fresh "E" in
             destruct (String.eqb a b) eqn:E;
             [apply String.eqb_eq in E; subst vr; injection H as <-|]
         end; try discriminate H;
    (eapply emitsR_ext; [intros o; unfold DataWriter.writeDataElementValue; reflexivity|]);
    cbv beta iota; simpl String.eqb; cbv iota;
    apply emitsR_of_emits;
    first [apply emits_writeIntArray | apply (emits_writeFloatArray Float32Array)
          | apply (emits_writeFloatArray Float64Array)].
Qed.

(** The value of an element of text. *)
Lemma writeDataElementValue_text wself vr s implicit :
  textVR vr = true ->
  emitsR (fun o => DataWriter.writeDataElementValue true wself vr o
                     (JArray (JString <$> JS.split "\" s)) implicit)
         (JArray (JString <$> JS.split "\" s)) (JS.bytes_of_string s).
Proof.
  unfold textVR. rewrite negb_true_iff, !orb_false_iff.
  intros ((((((((((((E1 & E2) & E3) & E4) & E5) & E6) & E7) & E8) & E9) & E10) & E11) & E12) & E13).
  eapply emitsR_ext.
  - intros o. unfold DataWriter.writeDataElementValue.
    rewrite E1, E2, E3, E4, E5, E6, E7, E8, E9, E10, E11, E12, E13. reflexivity.
  - apply emitsR_of_emits. apply emits_writeStringArray.
Qed.

End WriteElement.

(** ** An element of text or numbers, read and written back *)

Section ReadWrite.
Import Dicom.
Import DataReader.
Context (env : Env) (tb : Tables).
Context (Hnative : isNativeLittleEndian env = true) (Hlatin : latin1 env).

Lemma needFlip_le r : isLittleEndian r = true -> needFlip env r = false.
Proof. intros Hr. unfold needFlip. by rewrite Hr, Hnative. Qed.

Lemma readSpecialString_bytes r buf off n s :
  DicomParser.readSpecialString env r buf off n = Ok s ->
  (off + n <= length buf)%nat /\ JS.bytes_of_string s = take n (drop off buf).
Proof.
  unfold DicomParser.readSpecialString.
  destruct (bytes_at buf off n) as [bs|] eqn:Hb; [|done].
  apply bytes_at_Some in Hb as (Hle & -> & Hlen). simpl.
  unfold latin1 in Hlatin. destruct (TextDecoder env) as [dec|].
  - rewrite Hlatin. simpl. intros [= <-]. split; [done|]. apply bytes_of_string_of_bytes.
  - intros [= <-]. split; [done|]. apply bytes_of_string_of_bytes.
Qed.

(** The array branches of [readDataElement]. *)
Lemma typed_readArray_Ok r k get buf off q (x : nat * JSValue * nat * list byte) :
  agrees k get -> isLittleEndian r = true -> (off <= length buf)%nat ->
  ('(d, b) ← DicomParser.typed k (readArray env r k get buf off (q * BYTES_PER_ELEMENT k));
   Ok (off, d, (off + q * BYTES_PER_ELEMENT k)%nat, b)) = Ok x ->
  (off + q * BYTES_PER_ELEMENT k <= length buf)%nat /\
  x = (off, JTypedArray k (decode k true (take (q * BYTES_PER_ELEMENT k) (drop off buf))),
       (off + q * BYTES_PER_ELEMENT k)%nat, buf).
Proof.
  intros Hag Hr Hoff. unfold DicomParser.typed.
  destruct (readArray env r k get buf off (q * BYTES_PER_ELEMENT k)) as [[d b]|] eqn:Hra; [|done].
  apply readArray_Ok in Hra as (-> & Hb & ->); [|done|by apply needFlip_le|done].
  simpl. intros [= <-]. by rewrite Hr.
Qed.

Lemma view_branch_Ok k buf off n (x : nat * JSValue * nat * list byte) :
  BYTES_PER_ELEMENT k = 1%nat ->
  (d ← view env k buf off n; Ok (off, JTypedArray k d, (off + n)%nat, buf)) = Ok x ->
  (off + n <= length buf)%nat /\
  x = (off, JTypedArray k (decode k true (take n (drop off buf))), (off + n)%nat, buf).
Proof.
  intros Hk. destruct (view env k buf off n) as [d|] eqn:Hv; [|done].
  apply view_Ok in Hv as [Hb ->]. rewrite Hk, Nat.mul_1_r in *.
  simpl. intros [= <-]. split; [done|]. by rewrite (decode_one_byte k _ _ Hk).
Qed.

Lemma zero_bytes (l : list byte) :
  match l with
  | [a; b] => (u8 a =? 0) && (u8 b =? 0)
  | _ => false
  end = true -> l = [x00; x00].
Proof.
  destruct l as [|a [|b [|c l]]]; try done.
  intros [Ha Hb]%andb_true_iff. apply Z.eqb_eq in Ha, Hb.
  rewrite <- (byte_of_Z_u8 a), <- (byte_of_Z_u8 b), Ha, Hb. reflexivity.
Qed.

(** An element whose header was read at [off] and whose value takes the
    [h_vl] bytes after the header is written back as it was. *)
Lemma element_of_header wself r buf off implicit h data :
  isLittleEndian r = true ->
  DicomParser.readHeader tb r buf off implicit = Ok h ->
  let e := mkElement (DicomParser.h_tag h) (DicomParser.h_vr h) (DicomParser.h_vlString h)
             data (DicomParser.h_startOffset h)
             (DicomParser.h_startOffset h + DicomParser.h_vl h) in
  plainElement implicit buf e = true ->
  (DicomParser.h_startOffset h + DicomParser.h_vl h <= length buf)%nat ->
  data <> JUndefined ->
  emitsR (fun o => DataWriter.writeDataElementValue true wself (DicomParser.h_vr h) o data
                     implicit)
         data (take (DicomParser.h_vl h) (drop (DicomParser.h_startOffset h) buf)) ->
  headerStart implicit e = off /\
  (off + getDataElementPrefixByteSize (vr e) implicit = startOffset e)%nat /\
  (startOffset e <= endOffset e <= length buf)%nat /\
  emitsR (fun o => DataWriter.writeDataElementBody true wself e o implicit) e
         (region implicit buf e).
Proof.
  intros Hr Hh e Hplain Hend Hund Hval.
  unfold plainElement in Hplain. subst e. cbn [tag vr vl value startOffset endOffset] in *.
  apply andb_true_iff in Hplain as [Hplain Hres].
  apply andb_true_iff in Hplain as [Hplain Hvl].
  apply andb_true_iff in Hplain as [Htw Hpix]. apply negb_true_iff in Hpix.
  destruct (readHeader_bytes tb r buf off implicit h Hr Hh Htw)
    as (g & el & n & Hg & Hel & Hvl0 & Eg & Eel & Hso & Hsob & Hvls & Hvln & Htag & Hvr & Hvlb).
  destruct (n =? 4294967295) eqn:Eu; [by rewrite Hvls in Hvl|].
  unfold region, headerStart. cbn [tag vr vl value startOffset endOffset].
  rewrite Hso. split; [lia|]. split; [done|]. split; [lia|].
  replace (off + getDataElementPrefixByteSize (DicomParser.h_vr h) implicit
           - getDataElementPrefixByteSize (DicomParser.h_vr h) implicit)%nat with off by lia.
  replace (off + getDataElementPrefixByteSize (DicomParser.h_vr h) implicit
           + DicomParser.h_vl h - off)%nat
    with (getDataElementPrefixByteSize (DicomParser.h_vr h) implicit + DicomParser.h_vl h)%nat
    by lia.
  rewrite take_drop_add. rewrite <- Hso.
  pose proof (writeDataElementBody_plain wself
                (mkElement (DicomParser.h_tag h) (DicomParser.h_vr h) (DicomParser.h_vlString h)
                   data (DicomParser.h_startOffset h)
                   (DicomParser.h_startOffset h + DicomParser.h_vl h))
                implicit g el n
                (take (DicomParser.h_vl h) (drop (DicomParser.h_startOffset h) buf))
                Hg Hel Eg Eel) as Hw.
  cbn [tag vr vl value startOffset endOffset] in Hw.
  rewrite <- Eg, <- Eel in Hw. specialize (Hw Htw).
  assert (Hlen2 : implicit = false -> String.length (DicomParser.h_vr h) = 2%nat).
  { intros ->. by destruct Hvr. }
  specialize (Hw Hlen2 Hvls Hpix Hund Hval).
  assert (Ehdr : take (getDataElementPrefixByteSize (DicomParser.h_vr h) implicit) (drop off buf)
                 = DataWriter.le_bytes 2 g ++ DataWriter.le_bytes 2 el
                   ++ (if implicit then []
                       else JS.bytes_of_string (DicomParser.h_vr h)
                            ++ (if is32bitVLVRFunc (DicomParser.h_vr h)
                                then [x00; x00] else []))
                   ++ DataWriter.le_bytes
                        (if implicit || is32bitVLVRFunc (DicomParser.h_vr h) then 4 else 2)%nat n).
  { rewrite Hvlb, Hso. unfold getDataElementPrefixByteSize in *.
    destruct implicit.
    - simpl. replace (off + 8 - 4)%nat with (off + 4)%nat by lia.
      pose proof (take_drop_add buf off 4 4) as T. change (4 + 4)%nat with 8%nat in T.
      rewrite T, Htag. by rewrite <- app_assoc.
    - destruct Hvr as [Hvrb _]. simpl orb in *. simpl negb.
      destruct (is32bitVLVRFunc (DicomParser.h_vr h)) eqn:E32.
      + unfold headerStart in Hres. cbn [vr startOffset] in Hres.
        unfold getDataElementPrefixByteSize in Hres.
        rewrite Hso, E32 in Hres. simpl orb in Hres. simpl negb in Hres. cbv iota in Hres.
        replace (off + 12 - 12 + 6)%nat with (off + 6)%nat in Hres by lia.
        apply zero_bytes in Hres.
        simpl negb. cbv iota.
        replace (off + 12 - 4)%nat with (off + 8)%nat by lia.
        pose proof (take_drop_add buf off 4 8) as T1. change (4 + 8)%nat with 12%nat in T1.
        pose proof (take_drop_add buf (off + 4) 2 6) as T2. change (2 + 6)%nat with 8%nat in T2.
        pose proof (take_drop_add buf (off + 4 + 2) 2 4) as T3.
        change (2 + 4)%nat with 6%nat in T3.
        rewrite T1, T2, T3, Htag, Hvrb.
        replace (off + 4 + 2)%nat with (off + 6)%nat by lia. rewrite Hres.
        replace (off + 6 + 2)%nat with (off + 8)%nat by lia.
        by rewrite <- !app_assoc.
      + simpl negb. cbv iota.
        replace (off + 8 - 2)%nat with (off + 6)%nat by lia.
        pose proof (take_drop_add buf off 4 4) as T1. change (4 + 4)%nat with 8%nat in T1.
        pose proof (take_drop_add buf (off + 4) 2 2) as T2. change (2 + 2)%nat with 4%nat in T2.
        rewrite T1, T2, Htag, Hvrb. replace (off + 4 + 2)%nat with (off + 6)%nat by lia.
        rewrite app_nil_r. by rewrite <- !app_assoc. }
  rewrite Ehdr. rewrite <- !app_assoc. exact Hw.
Qed.

Lemma mod_whole (n : Z) (b : nat) :
  0 <= n -> (0 < b)%nat -> n mod Z.of_nat b = 0 ->
  Z.to_nat n = (Z.to_nat (n / Z.of_nat b) * b)%nat.
Proof.
  intros Hn Hb Hm. apply Z.div_exact in Hm; [|lia].
  assert (0 <= n / Z.of_nat b) by (apply Z.div_pos; lia). nia.
Qed.

Ltac rewrite_vr_tests :=
  repeat match goal with
         | H : String.eqb (DicomParser.h_vr _) _ = _ |- _ => rewrite H
         end.

Ltac rewrite_vr_tests_in Hvl :=
  repeat match goal with
         | H : String.eqb (DicomParser.h_vr _) _ = _ |- _ => rewrite H in Hvl
         end.

(** An element of text or numbers that [readDataElement] returns is
    written back as the bytes it was read from. *)
Lemma read_write_plain self wself els r buf off implicit e buf' :
  isLittleEndian r = true ->
  DicomParser.readDataElementBody env tb self els r buf off implicit = Ok (e, buf') ->
  plainElement implicit buf e = true ->
  buf' = buf /\ headerStart implicit e = off /\
  (off + getDataElementPrefixByteSize (vr e) implicit = startOffset e)%nat /\
  (startOffset e <= endOffset e <= length buf)%nat /\
  emitsR (fun o => DataWriter.writeDataElementBody true wself e o implicit) e
         (region implicit buf e).
Proof.
  intros Hr H Hplain. unfold DicomParser.readDataElementBody in H.
  destruct (DicomParser.readHeader tb r buf off implicit) as [h|] eqn:Hh; [|done].
  cbn [mbind result_bind] in H. cbv zeta in H.
  match type of H with
  | (?X ≫= _) = _ => destruct X as [[[[so data] eo] b]|] eqn:HX; [|done]
  end.
  simpl in H.
  injection H as <- <-.
  pose proof Hplain as Hplain'.
  unfold plainElement in Hplain'. cbn [tag vr vl value startOffset endOffset] in Hplain'.
  apply andb_true_iff in Hplain' as [Hplain' _].
  apply andb_true_iff in Hplain' as [Hplain' Hvl].
  apply andb_true_iff in Hplain' as [Htw Hpix]. apply negb_true_iff in Hpix.
  destruct (readHeader_bytes tb r buf off implicit h Hr Hh Htw)
    as (g & el & n & Hg & Hel & Hn0 & Eg & Eel & Hso & Hsob & Hvls & Hvln & _).
  destruct (n =? 4294967295) eqn:Eu; [by rewrite Hvls in Hvl|].
  rewrite Hvls in Hvl.
  unfold nameIs in Hpix. cbn [tag] in Hpix. rewrite Hpix in HX. simpl andb in HX. cbv iota in HX.
  assert (Hvln' : DicomParser.h_vl h = Z.to_nat n) by done.
  assert (Hfin : forall data0,
            data0 <> JUndefined ->
            (DicomParser.h_startOffset h + DicomParser.h_vl h <= length buf)%nat ->
            emitsR (fun o => DataWriter.writeDataElementValue true wself (DicomParser.h_vr h) o
                               data0 implicit)
                   data0 (take (DicomParser.h_vl h) (drop (DicomParser.h_startOffset h) buf)) ->
            (so, data, eo, b)
            = (DicomParser.h_startOffset h, data0,
               (DicomParser.h_startOffset h + DicomParser.h_vl h)%nat, buf) ->
            b = buf /\
            headerStart implicit
              (mkElement (DicomParser.h_tag h) (DicomParser.h_vr h) (DicomParser.h_vlString h)
                 data so eo) = off /\
            (off + getDataElementPrefixByteSize
                     (vr (mkElement (DicomParser.h_tag h) (DicomParser.h_vr h)
                            (DicomParser.h_vlString h) data so eo)) implicit
             = startOffset (mkElement (DicomParser.h_tag h) (DicomParser.h_vr h)
                              (DicomParser.h_vlString h) data so eo))%nat /\
            (startOffset (mkElement (DicomParser.h_tag h) (DicomParser.h_vr h)
                            (DicomParser.h_vlString h) data so eo)
             <= endOffset (mkElement (DicomParser.h_tag h) (DicomParser.h_vr h)
                             (DicomParser.h_vlString h) data so eo) <= length buf)%nat /\
            emitsR (fun o => DataWriter.writeDataElementBody true wself
                               (mkElement (DicomParser.h_tag h) (DicomParser.h_vr h)
                                  (DicomParser.h_vlString h) data so eo) o implicit)
                   (mkElement (DicomParser.h_tag h) (DicomParser.h_vr h)
                      (DicomParser.h_vlString h) data so eo)
                   (region implicit buf
                      (mkElement (DicomParser.h_tag h) (DicomParser.h_vr h)
                         (DicomParser.h_vlString h) data so eo))).
  { intros data0 Hund Hend Hval [= -> -> -> ->]. split; [done|].
    apply (element_of_header wself r buf off implicit h data0 Hr Hh Hplain Hend Hund Hval). }
  assert (Htyped : forall k,
            typedVR (DicomParser.h_vr h) = Some k ->
            (DicomParser.h_startOffset h + DicomParser.h_vl h <= length buf)%nat ->
            DicomParser.h_vl h
            = (Z.to_nat (n / Z.of_nat (BYTES_PER_ELEMENT k)) * BYTES_PER_ELEMENT k)%nat ->
            emitsR (fun o => DataWriter.writeDataElementValue true wself (DicomParser.h_vr h) o
                               (JTypedArray k
                                  (decode k true (take (DicomParser.h_vl h)
                                                    (drop (DicomParser.h_startOffset h) buf))))
                               implicit)
                   (JTypedArray k
                      (decode k true (take (DicomParser.h_vl h)
                                        (drop (DicomParser.h_startOffset h) buf))))
                   (take (DicomParser.h_vl h) (drop (DicomParser.h_startOffset h) buf))).
  { intros k Hk Hend Hq.
    pose proof (writeDataElementValue_typed wself (DicomParser.h_vr h) k
                  (decode k true (take (DicomParser.h_vl h)
                                    (drop (DicomParser.h_startOffset h) buf)))
                  implicit Hk) as Hw.
    rewrite (encode_decode k _ (Z.to_nat (n / Z.of_nat (BYTES_PER_ELEMENT k)))) in Hw; [done|].
    rewrite length_take, length_drop. lia. }
  clear Hplain Hh.
  repeat match type of HX with
         | (if String.eqb (DicomParser.h_vr h) ?c then _ else _) = _ =>
             let E := fresh "E" in
             destruct (String.eqb (DicomParser.h_vr h) c) eqn:E
         end.
  all: try discriminate HX.
  all: try (exfalso;
            match goal with
            | E : String.eqb (DicomParser.h_vr _) _ = true |- _ =>
                apply String.eqb_eq in E; rewrite E in Hvl
            end;
            discriminate Hvl).
  all: try match type of HX with
       | context [DicomParser.typed ?K _] =>
           assert (Hk : typedVR (DicomParser.h_vr h) = Some K)
             by (unfold typedVR; rewrite_vr_tests; reflexivity);
           rewrite Hk in Hvl; apply Z.eqb_eq in Hvl;
           pose proof (mod_whole n (BYTES_PER_ELEMENT K) Hn0 (bpel_pos K) Hvl) as Hq;
           rewrite <- Hvln' in Hq;
           unfold readInt16Array, readUint16Array, readInt32Array, readUint32Array,
             readFloat32Array, readFloat64Array in HX;
           rewrite Hq in HX;
           apply typed_readArray_Ok in HX as [Hend HXe];
             [|first [apply agrees_getUint | apply agrees_getInt]|done|done];
           rewrite <- Hq in Hend, HXe;
           refine (Hfin _ _ Hend (Htyped K Hk Hend Hq) HXe); done
       end.
  all: try match type of HX with
       | context [view env ?K _ _ _] => idtac
       | context [readInt8Array] => unfold readInt8Array in HX
       | context [readUint8Array] => unfold readUint8Array in HX
       end.
  all: try match type of HX with
       | context [view env ?K _ _ _] =>
           assert (Hk : typedVR (DicomParser.h_vr h) = Some K)
             by (unfold typedVR; rewrite_vr_tests; reflexivity);
           rewrite Hk in Hvl; apply Z.eqb_eq in Hvl;
           pose proof (mod_whole n (BYTES_PER_ELEMENT K) Hn0 (bpel_pos K) Hvl) as Hq;
           rewrite <- Hvln' in Hq;
           apply view_branch_Ok in HX as [Hend HXe]; [|done];
           refine (Hfin _ _ Hend (Htyped K Hk Hend Hq) HXe); done
       end.
  assert (Hk : textVR (DicomParser.h_vr h) = true).
  { unfold typedVR in Hvl. rewrite_vr_tests_in Hvl. exact Hvl. }
  assert (Hs : exists s,
             (DicomParser.h_startOffset h + DicomParser.h_vl h <= length buf)%nat /\
             JS.bytes_of_string s
             = take (DicomParser.h_vl h) (drop (DicomParser.h_startOffset h) buf) /\
             (so, data, eo, b)
             = (DicomParser.h_startOffset h, JArray (JString <$> JS.split "\" s),
                (DicomParser.h_startOffset h + DicomParser.h_vl h)%nat, buf)).
  { destruct (DicomParser.isSpecialTextVR (DicomParser.h_vr h)).
    - destruct (DicomParser.readSpecialString env r buf _ _) as [s|] eqn:Hrs; [|done].
      apply readSpecialString_bytes in Hrs as [Hb Hbytes]. simpl in HX. injection HX as <- <- <- <-.
      by exists s.
    - destruct (DicomParser.readString buf _ _) as [s|] eqn:Hrs; [|done].
      apply readString_bytes in Hrs as [Hb Hbytes]. simpl in HX. injection HX as <- <- <- <-.
      by exists s. }
  destruct Hs as (s & Hend & Hbytes & HXe).
  refine (Hfin _ _ Hend _ HXe); [done|].
  rewrite <- Hbytes. by apply writeDataElementValue_text.
Qed.

(** The same for [readDataElement] and [writeDataElement]. *)
Lemma read_write_element fuel wfuel els r buf off implicit e buf' :
  isLittleEndian r = true ->
  DicomParser.readDataElement env tb fuel els r buf off implicit = Ok (e, buf') ->
  plainElement implicit buf e = true ->
  buf' = buf /\ headerStart implicit e = off /\
  (off + getDataElementPrefixByteSize (vr e) implicit = startOffset e)%nat /\
  (startOffset e <= endOffset e <= length buf)%nat /\
  emitsR (fun o => DataWriter.writeDataElement true (S wfuel) e o implicit) e
         (region implicit buf e).
Proof.
  destruct fuel as [|fuel]; [done|]. cbn [DicomParser.readDataElement DataWriter.writeDataElement].
  apply read_write_plain.
Qed.

End ReadWrite.

(** ** Reads leave the buffer as it is *)

Section Steady.
Import Dicom.
Import DataReader.
Context (env : Env) (tb : Tables).

Lemma whenOk_bind {A B} (Q : A -> Prop) (P : B -> Prop) (m : result A) (k : A -> result B) :
  whenOk Q m -> (forall a, Q a -> whenOk P (k a)) -> whenOk P (m ≫= k).
Proof. destruct m as [a|]; simpl; auto. Qed.

Lemma whenOk_mono {A} (Q P : A -> Prop) (m : result A) :
  whenOk Q m -> (forall a, Q a -> P a) -> whenOk P m.
Proof. destruct m as [a|]; simpl; auto. Qed.

Lemma whenOk_Ok {A} (P : A -> Prop) (m : result A) a : whenOk P m -> m = Ok a -> P a.
Proof. by intros H ->. Qed.

Lemma loop_invariant {S R} (I : S -> Prop) (P : R -> Prop) n
    (body : S -> result (S + R)) (s : S) :
  I s ->
  (forall s, I s -> whenOk (fun x => match x with inl s' => I s' | inr r => P r end) (body s)) ->
  whenOk P (DicomParser.loop n body s).
Proof.
  intros Hs Hb. revert s Hs. induction n as [|n IH]; intros s Hs; simpl; [done|].
  specialize (Hb s Hs). destruct (body s) as [[s'|r]|]; simpl in *; [by apply IH|done|done].
Qed.

Lemma readArray_buffer r k get buf off size d b :
  needFlip env r = false ->
  readArray env r k get buf off size = Ok (d, b) -> b = buf.
Proof.
  intros Hnf. unfold readArray. cbv zeta. rewrite Hnf. case_decide.
  - destruct (view env k buf off (size / BYTES_PER_ELEMENT k)); [|done]. simpl.
    by intros [= _ <-].
  - destruct (fill _ _ _ _ _ _); [|done]. simpl. by intros [= _ <-].
Qed.

Lemma readHeader_start r buf off implicit h :
  DicomParser.readHeader tb r buf off implicit = Ok h ->
  (off + 8 <= DicomParser.h_startOffset h)%nat.
Proof.
  unfold DicomParser.readHeader, DicomParser.readTag.
  destruct (DicomParser.readHex r buf off); [|done]. simpl.
  destruct (DicomParser.readHex r buf (off + 2)); [|done]. simpl.
  destruct (isTagWithVR _ _).
  - destruct implicit.
    + simpl. destruct (readUint32 r buf (off + 4)); [|done]. simpl. intros [= <-]. simpl. lia.
    + destruct (DicomParser.readString buf (off + 4) 2) as [vr|]; [|done]. simpl.
      destruct (is32bitVLVRFunc vr).
      * destruct (readUint32 r buf _); [|done]. simpl. intros [= <-]. simpl. lia.
      * destruct (readUint16 r buf _); [|done]. simpl. intros [= <-]. simpl. lia.
  - simpl. destruct (readUint32 r buf (off + 4)); [|done]. simpl. intros [= <-]. simpl. lia.
Qed.

Section Body.
(** The buffers before and after a read are related by [R]: they are
    equal for a reader of the byte order of the platform, and any two
    buffers are related otherwise. *)
Context (R : list byte -> list byte -> Prop).
Context (Rrefl : forall b, R b b) (Rtrans : forall a b c, R a b -> R b c -> R a c).
Context (r : DataReader.t).
Context (Harray : forall k get buf off size d b,
            readArray env r k get buf off size = Ok (d, b) -> R buf b).
Context (self : DataReader.t -> list byte -> nat -> bool -> result (Element * list byte)).
Context (Hself : forall buf off implicit, steady R endOffset buf off (self r buf off implicit)).
Context (els : ElementMap).

Lemma steady_readItemDataElement buf off implicit :
  steady R DicomParser.i_endOffset buf off
    (DicomParser.readItemDataElement self r buf off implicit).
Proof.
  unfold steady, DicomParser.readItemDataElement.
  eapply whenOk_bind; [apply Hself|]. intros [item b] [Hb Ho]. simpl in Hb, Ho.
  destruct (nameIs item "xFFFEE0DD"); [done|].
  destruct (vl item) as [n|s].
  - destruct (n =? 0); [done|].
    eapply whenOk_bind.
    + apply (loop_invariant (fun s => R buf s.2)
               (fun x => R buf x.2 /\ (endOffset item <= x.1.2)%nat)); [done|].
      intros [[itemData o] b'] Hb'. simpl in Hb'.
      destruct (o <? endOffset item)%nat eqn:Hlt.
      * eapply whenOk_bind; [apply Hself|]. intros [it b''] [Hb'' _]. simpl in *. eauto.
      * simpl. split; [done|]. apply Nat.ltb_ge in Hlt. done.
    + intros [[itemData o] b'] [Hb' Ho']. simpl in *. split; [done|]. lia.
  - destruct (String.eqb s "u/l"); [|done].
    eapply whenOk_bind.
    + apply (loop_invariant (fun s => R buf s.2 /\ (off <= s.1.2)%nat)
               (fun x => R buf x.2 /\ (off <= x.1.2)%nat)); [done|].
      intros [[itemData o] b'] [Hb' Ho']. simpl in Hb', Ho'.
      eapply whenOk_bind; [apply Hself|]. intros [it b''] [Hb'' Ho'']. simpl in *.
      destruct (nameIs it "xFFFEE00D"); simpl; (split; [eauto|lia]).
    + intros [[itemData o] b'] [Hb' Ho']. simpl in *. done.
Qed.

Lemma steady_readPixelItemDataElement buf off implicit :
  steady R (fun x : list JSValue * nat * VL => x.1.2) buf off
    (DicomParser.readPixelItemDataElement self r buf off implicit).
Proof.
  unfold steady, DicomParser.readPixelItemDataElement.
  eapply whenOk_bind; [apply Hself|]. intros [item b] [Hb Ho]. simpl in Hb, Ho.
  eapply whenOk_bind.
  - apply (loop_invariant (fun s => R buf s.2 /\ (off <= s.1.2)%nat)
             (fun x => R buf x.2 /\ (off <= x.1.2)%nat)); [done|].
    intros [[itemData o] b'] [Hb' Ho']. simpl in Hb', Ho'.
    eapply whenOk_bind; [apply Hself|]. intros [it b''] [Hb'' Ho'']. simpl in *.
    destruct (nameIs it "xFFFEE0DD"); simpl; (split; [eauto|lia]).
  - intros [[itemData o] b'] [Hb' Ho']. simpl in *. done.
Qed.

Lemma steady_readSequence buf off implicit vlString vl :
  steady R (fun x : list JSValue * nat => x.2) buf off
    (DicomParser.readSequence self r buf off implicit vlString vl).
Proof.
  unfold steady, DicomParser.readSequence.
  destruct (negb (isUndefinedLength vlString)).
  - destruct (vl =? 0)%nat; [simpl; split; [apply Rrefl|done]|].
    apply (loop_invariant (fun s => R buf s.2 /\ (off <= s.1.2)%nat));
      [simpl; split; [apply Rrefl|done]|].
    intros [[data o] b] [Hb Ho]. simpl in Hb, Ho.
    destruct (o <? off + vl)%nat; [|done].
    eapply whenOk_bind; [apply steady_readItemDataElement|].
    intros [it b'] [Hb' Ho']. simpl in *. split; [eauto|lia].
  - apply (loop_invariant (fun s => R buf s.2 /\ (off <= s.1.2)%nat));
      [simpl; split; [apply Rrefl|done]|].
    intros [[data o] b] [Hb Ho]. simpl in Hb, Ho.
    eapply whenOk_bind; [apply steady_readItemDataElement|].
    intros [it b'] [Hb' Ho']. simpl in *.
    destruct (DicomParser.i_isSeqDelim it); simpl; (split; [eauto|lia]).
Qed.

Lemma typed_related k get buf off size v b :
  DicomParser.typed k (readArray env r k get buf off size) = Ok (v, b) -> R buf b.
Proof.
  unfold DicomParser.typed.
  destruct (readArray env r k get buf off size) as [[d b']|] eqn:H; [|done].
  apply Harray in H. simpl. by intros [= _ <-].
Qed.

Lemma readPixelData_related buf off vl vr v b :
  DicomParser.readPixelData env els r buf off vl vr = Ok (v, b) -> R buf b.
Proof.
  unfold DicomParser.readPixelData.
  destruct (match get "x00280100" els with Some e => _ | None => _ end) as [ba|]; [|done].
  destruct (match get "x00280103" els with Some e => _ | None => _ end) as [pr|]; [|done].
  simpl.
  unfold readUint8Array, readInt8Array, readUint16Array, readInt16Array, readUint32Array,
    readInt32Array.
  repeat match goal with
         | |- context [match ?x with _ => _ end] => destruct x; try done
         end;
    try (intros [= _ <-]; apply Rrefl);
    try (by apply typed_related);
    try (destruct (view _ _ _ _ _); [|done]; simpl; intros [= _ <-]; apply Rrefl).
Qed.

Lemma advances_readDataElementBody buf off implicit :
  whenOk (fun x => R buf x.2 /\ (off + 8 <= endOffset x.1)%nat)
    (DicomParser.readDataElementBody env tb self els r buf off implicit).
Proof.
  unfold DicomParser.readDataElementBody.
  destruct (DicomParser.readHeader tb r buf off implicit) as [h|] eqn:Hh; [|done].
  apply readHeader_start in Hh. cbn [mbind result_bind]. cbv zeta.
  eapply (whenOk_bind (fun x : nat * JSValue * nat * list byte =>
                         R buf x.2 /\ (DicomParser.h_startOffset h <= x.1.2)%nat)).
  2:{ intros [[[so data] eo] b] [Hb Ho]. simpl in *. split; [done|lia]. }
  assert (Harr : forall k get,
            whenOk (fun x : nat * JSValue * nat * list byte =>
                      R buf x.2 /\ (DicomParser.h_startOffset h <= x.1.2)%nat)
              ('(d, b) ← DicomParser.typed k
                           (readArray env r k get buf (DicomParser.h_startOffset h)
                              (DicomParser.h_vl h));
               Ok (DicomParser.h_startOffset h, d,
                   (DicomParser.h_startOffset h + DicomParser.h_vl h)%nat, b))).
  { intros k get.
    destruct (DicomParser.typed k _) as [[d b]|] eqn:Ht; [|done].
    apply typed_related in Ht. simpl. split; [done|lia]. }
  assert (Hview : forall k (f : list Z -> JSValue),
            whenOk (fun x : nat * JSValue * nat * list byte =>
                      R buf x.2 /\ (DicomParser.h_startOffset h <= x.1.2)%nat)
              (d ← view env k buf (DicomParser.h_startOffset h) (DicomParser.h_vl h);
               Ok (DicomParser.h_startOffset h, f d,
                   (DicomParser.h_startOffset h + DicomParser.h_vl h)%nat, buf))).
  { intros k f. destruct (view env k buf _ _); [|done]. simpl. split; [apply Rrefl|lia]. }
  repeat match goal with
         | |- whenOk _ (if ?c then _ else _) => destruct c
         end.
  - eapply whenOk_bind; [apply steady_readPixelItemDataElement|].
    intros [[[items endOff] otv] b] [Hb Ho]. simpl in *.
    destruct otv; [|done]. simpl. split; [done|lia].
  - destruct (DicomParser.readPixelData env els r buf _ _ _) as [[d b]|] eqn:Hp; [|done].
    apply readPixelData_related in Hp. simpl. split; [done|lia].
  - apply Hview.
  - apply Harr.
  - apply Harr.
  - done.
  - apply Harr.
  - apply Harr.
  - apply Harr.
  - apply Harr.
  - apply Harr.
  - apply Harr.
  - unfold readUint16Array.
    destruct (readArray env r Uint16Array _ buf _ _) as [[raw b]|] eqn:Hra; [|done].
    apply Harray in Hra. simpl.
    destruct (DicomParser.formatAT raw); [|done]. simpl. split; [done|lia].
  - apply Hview.
  - eapply whenOk_bind; [apply steady_readSequence|].
    intros [[items o] b] [Hb Ho]. simpl in *. done.
  - destruct (if DicomParser.isSpecialTextVR _ then _ else _); [|done]. simpl.
    split; [apply Rrefl|lia].
Qed.

End Body.

(** [readDataElement] ends after the header that it read, whatever the
    reader. *)
Lemma readDataElement_advances fuel els r buf off implicit :
  whenOk (fun x => (off + 8 <= endOffset x.1)%nat)
    (DicomParser.readDataElement env tb fuel els r buf off implicit).
Proof.
  revert buf off implicit. induction fuel as [|fuel IH]; intros; [done|].
  cbn [DicomParser.readDataElement].
  eapply whenOk_mono.
  - apply (advances_readDataElementBody (fun _ _ => True)); try done.
    intros buf' off' implicit'. unfold steady. eapply whenOk_mono; [apply IH|].
    intros [e b] ?. simpl in *. split; [done|lia].
  - by intros [e b] [_ ?].
Qed.

(** [readDataElement] leaves the buffer as it is, for a reader of the
    byte order of the platform, and ends after the header that it read. *)
Lemma advances_readDataElement fuel els r buf off implicit :
  needFlip env r = false ->
  whenOk (fun x => x.2 = buf /\ (off + 8 <= endOffset x.1)%nat)
    (DicomParser.readDataElement env tb fuel els r buf off implicit).
Proof.
  intros Hnf. revert buf off implicit. induction fuel as [|fuel IH]; intros; [done|].
  cbn [DicomParser.readDataElement].
  eapply whenOk_mono.
  - apply (advances_readDataElementBody eq); try done.
    + by intros a b c -> ->.
    + intros k get buf' off' size d b Hra. symmetry.
      by apply (readArray_buffer _ _ _ _ _ _ _ _ Hnf Hra).
    + intros buf' off' implicit'. unfold steady. eapply whenOk_mono; [apply IH|].
      intros [e b] [? ?]. simpl in *. split; [done|lia].
  - by intros [e b] [-> ?].
Qed.

End Steady.

(** ** Objects as association lists *)

Section Maps.
Import Dicom.
Context {A : Type}.
Implicit Types m : list (string * A).

Lemma keys_set key (v : A) m :
  fst <$> set key v m
  = if bool_decide (key ∈ fst <$> m) then fst <$> m else (fst <$> m) ++ [key].
Proof.
  induction m as [|[k0 w] m IH]; [done|].
  cbn [set]. destruct (String.eqb k0 key) eqn:E.
  - apply String.eqb_eq in E. subst k0. rewrite !fmap_cons. cbn [fst].
    rewrite bool_decide_true; [done|]. by left.
  - apply String.eqb_neq in E. rewrite !fmap_cons. cbn [fst]. rewrite IH.
    destruct (bool_decide (key ∈ fst <$> m)) eqn:Hd.
    + apply bool_decide_eq_true in Hd. rewrite bool_decide_true; [done|]. by right.
    + apply bool_decide_eq_false in Hd. rewrite bool_decide_false; [done|].
      intros [?|?]%elem_of_cons; congruence.
Qed.

Lemma NoDup_set key (v : A) m : NoDup (fst <$> m) -> NoDup (fst <$> set key v m).
Proof.
  intros H. rewrite keys_set. case_bool_decide as Hd; [done|].
  apply NoDup_app. split; [done|]. split; [|apply NoDup_singleton].
  intros x Hx ->%list_elem_of_singleton. done.
Qed.

Lemma elem_of_set key (v : A) m k x :
  NoDup (fst <$> m) ->
  (k, x) ∈ set key v m -> (k = key /\ x = v) \/ ((k, x) ∈ m /\ k <> key).
Proof.
  induction m as [|[k0 w] m IH]; simpl; intros Hnd.
  - intros H%list_elem_of_singleton. injection H as -> ->. by left.
  - apply NoDup_cons in Hnd as [Hk0 Hnd].
    destruct (String.eqb k0 key) eqn:E.
    + apply String.eqb_eq in E. subst k0.
      intros [H|H]%elem_of_cons.
      * injection H as -> ->. by left.
      * right. split; [by right|]. intros ->. apply Hk0.
        apply list_elem_of_fmap. by exists (key, x).
    + apply String.eqb_neq in E.
      intros [H|H]%elem_of_cons.
      * injection H as -> ->. right. split; [by left|done].
      * destruct (IH Hnd H) as [?|[? ?]]; [by left|]. right. split; [by right|done].
Qed.

Lemma get_elem_of m k x : NoDup (fst <$> m) -> (k, x) ∈ m -> get k m = Some x.
Proof.
  induction m as [|[k0 w] m IH]; simpl; intros Hnd H; [by apply elem_of_nil in H|].
  apply NoDup_cons in Hnd as [Hk0 Hnd].
  apply elem_of_cons in H as [H|H].
  - injection H as -> ->. by rewrite String.eqb_refl.
  - destruct (String.eqb k0 k) eqn:E; [|by apply IH].
    apply String.eqb_eq in E. subst k0. exfalso. apply Hk0.
    apply list_elem_of_fmap. by exists (k, x).
Qed.

Lemma get_Some_elem_of m k x : get k m = Some x -> (k, x) ∈ m.
Proof.
  induction m as [|[k0 w] m IH]; simpl; [done|].
  destruct (String.eqb k0 k) eqn:E.
  - apply String.eqb_eq in E. subst k0. intros [= ->]. by left.
  - intros H. right. by apply IH.
Qed.

Lemma set_get_id m k x : get k m = Some x -> set k x m = m.
Proof.
  induction m as [|[k0 w] m IH]; simpl; [done|].
  destruct (String.eqb k0 k) eqn:E.
  - by intros [= ->].
  - intros H. by rewrite IH.
Qed.

Lemma get_set_other m k k' (v : A) : k' <> k -> get k' (set k v m) = get k' m.
Proof.
  intros Hne. induction m as [|[k0 w] m IH]; simpl.
  - destruct (String.eqb k k') eqn:E; [|done]. apply String.eqb_eq in E. congruence.
  - destruct (String.eqb k0 k) eqn:E; simpl.
    + apply String.eqb_eq in E. subst k0.
      destruct (String.eqb k k') eqn:E'; [|done]. apply String.eqb_eq in E'. congruence.
    + by rewrite IH.
Qed.

End Maps.

(** ** Where the elements of [parse] come from *)

Section Origin.
Import Dicom.
Import DataReader.
Context (env : Env) (tb : Tables).
Context (Hnative : isNativeLittleEndian env = true).

Lemma MetaRead_mono B M M' e :
  MetaRead env tb B M e -> (M <= M')%nat -> MetaRead env tb B M' e.
Proof.
  intros (fuel & els0 & r & off & Hr & Hread & Hle) HM.
  exists fuel, els0, r, off. repeat split; try done. lia.
Qed.

Lemma readDataElement_steady fuel els r buf off implicit e b :
  isLittleEndian r = true ->
  DicomParser.readDataElement env tb fuel els r buf off implicit = Ok (e, b) ->
  b = buf /\ (off + 8 <= endOffset e)%nat.
Proof.
  intros Hr H.
  pose proof (advances_readDataElement env tb fuel els r buf off implicit
                (needFlip_le env Hnative r Hr)) as Hs.
  rewrite H in Hs. exact Hs.
Qed.

(** The elements that [readMeta] has stored. *)
Lemma readMeta_origin fuel B stm :
  DicomParser.readMeta env tb fuel [] B = Ok stm ->
  DicomParser.buffer stm = B /\
  NoDup (fst <$> DicomParser.dicomElements stm) /\
  forall key e, (key, e) ∈ DicomParser.dicomElements stm ->
                key = default "undefined" (name (tag e)) /\
                MetaRead env tb B (DicomParser.offset stm) e.
Proof.
  unfold DicomParser.readMeta.
  destruct (DicomParser.readString B 128 4) as [magic|]; [|done].
  cbn -[DicomParser.loop DicomParser.readDataElement].
  destruct (negb (String.eqb magic "DICM")); [done|].
  destruct (DicomParser.readDataElement env tb fuel [] (DataReader.new true) B 132 false)
    as [[e1 b1]|] eqn:H1; [|done].
  pose proof (readDataElement_steady _ _ (DataReader.new true) _ _ _ _ _ eq_refl H1) as [-> Ho1].
  cbn -[DicomParser.loop DicomParser.readDataElement].
  destruct (index0 (value e1)); [|done].
  cbn -[DicomParser.loop DicomParser.readDataElement].
  destruct (DicomParser.parseIntV _) as [metaLength|]; [|done].
  cbn -[DicomParser.loop DicomParser.readDataElement].
  intros Hloop.
  match type of Hloop with
  | DicomParser.loop ?n ?body ?s = _ =>
      pose proof (loop_invariant
                (fun st => DicomParser.buffer st = B /\
                           NoDup (fst <$> DicomParser.dicomElements st) /\
                           forall key e, (key, e) ∈ DicomParser.dicomElements st ->
                                         key = default "undefined" (name (tag e)) /\
                                         MetaRead env tb B (DicomParser.offset st) e)
                (fun st => DicomParser.buffer st = B /\
                           NoDup (fst <$> DicomParser.dicomElements st) /\
                           forall key e, (key, e) ∈ DicomParser.dicomElements st ->
                                         key = default "undefined" (name (tag e)) /\
                                         MetaRead env tb B (DicomParser.offset st) e)
                n body s) as Hinv
  end.
  rewrite Hloop in Hinv. apply Hinv; clear Hinv Hloop.
  - simpl. split; [done|]. split; [apply NoDup_singleton|].
    intros key e [= -> ->]%list_elem_of_singleton. split; [done|].
    exists fuel, [], (DataReader.new true), 132%nat. done.
  - intros st (Hb & Hnd & Hall). rewrite Hb.
    destruct (match _ with Some m => _ | None => false end); [|done].
    destruct (DicomParser.readDataElement env tb fuel (DicomParser.dicomElements st)
                (DataReader.new true) B (DicomParser.offset st) false)
      as [[e b]|] eqn:Hr; [|done].
    pose proof (readDataElement_steady _ _ (DataReader.new true) _ _ _ _ _ eq_refl Hr) as [-> Ho].
    simpl. split; [done|]. split; [by apply NoDup_set|].
    intros key e' [[-> ->]|[Hin Hne]]%elem_of_set; [| |done].
    + split; [done|].
      exists fuel, (DicomParser.dicomElements st), (DataReader.new true), (DicomParser.offset st).
      done.
    + destruct (Hall _ _ Hin) as [Hk Hm]. split; [done|].
      apply (MetaRead_mono _ _ _ _ Hm). lia.
Qed.

Lemma setUtfLabel_le r label :
  isLittleEndian (DataReader.setUtfLabel env r label) = isLittleEndian r.
Proof. unfold DataReader.setUtfLabel. by destruct (TextDecoder env). Qed.

(** The elements that the loop over the data set leaves in the map. *)
Lemma readDataSet_origin fuel dr implicit stm st B :
  isLittleEndian dr = true ->
  DicomParser.buffer stm = B ->
  NoDup (fst <$> DicomParser.dicomElements stm) ->
  (forall key e, (key, e) ∈ DicomParser.dicomElements stm ->
                 key = default "undefined" (name (tag e)) /\
                 MetaRead env tb B (DicomParser.offset stm) e) ->
  DicomParser.readDataSet env tb fuel dr implicit stm = Ok st ->
  DicomParser.buffer st = B /\
  NoDup (fst <$> DicomParser.dicomElements st) /\
  forall key e, (key, e) ∈ DicomParser.dicomElements st ->
    key = default "undefined" (name (tag e)) /\
    ((get key (DicomParser.dicomElements stm) = Some e /\
      MetaRead env tb B (DicomParser.offset stm) e) \/
     DataRead env tb B (DicomParser.offset stm) implicit e).
Proof.
  intros Hdr Hb0 Hnd0 Hall0. unfold DicomParser.readDataSet.
  set (I := fun x : DataReader.t * DicomParser.ParseState =>
              isLittleEndian x.1 = true /\
              DicomParser.buffer x.2 = B /\
              (DicomParser.offset stm <= DicomParser.offset x.2)%nat /\
              NoDup (fst <$> DicomParser.dicomElements x.2) /\
              forall key e, (key, e) ∈ DicomParser.dicomElements x.2 ->
                key = default "undefined" (name (tag e)) /\
                ((get key (DicomParser.dicomElements stm) = Some e /\
                  MetaRead env tb B (DicomParser.offset stm) e) \/
                 DataRead env tb B (DicomParser.offset stm) implicit e)).
  match goal with
  | |- snd <$> DicomParser.loop ?n ?body ?s = _ -> _ =>
      pose proof (loop_invariant I I n body s) as Hinv;
      destruct (DicomParser.loop n body s) as [[dr' st']|] eqn:Hloop; [|done]
  end.
  simpl. intros [= <-].
  assert (HI : I (dr', st')); [|by destruct HI as (_ & ? & _ & ? & ?)].
  apply Hinv; clear Hinv Hloop.
  - unfold I. simpl. split; [done|]. split; [done|]. split; [done|]. split; [done|].
    intros key e Hin. destruct (Hall0 key e Hin) as [Hk Hm]. split; [done|].
    left. split; [by apply get_elem_of|done].
  - intros [r s] (Hr & Hb & Ho & Hnd & Hall). simpl in Hr, Hb, Ho, Hnd, Hall.
    rewrite Hb.
    destruct (DicomParser.offset s <? length B)%nat; [|done].
    destruct (DicomParser.readDataElement env tb fuel (DicomParser.dicomElements s) r B
                (DicomParser.offset s) implicit) as [[e b]|] eqn:Hread; [|done].
    pose proof (readDataElement_steady _ _ _ _ _ _ _ _ Hr Hread) as [-> Hoe].
    cbn [mbind result_bind].
    eapply (whenOk_bind (fun r' => isLittleEndian r' = true)).
    + destruct (nameIs e "x00080005"); [|done].
      destruct (jsLength (value e)); [|done]. cbn [mbind result_bind].
      match goal with |- whenOk _ (?m ≫= _) => destruct m; [|done] end.
      simpl. by rewrite setUtfLabel_le.
    + intros r' Hr'. unfold I. simpl. split; [done|]. split; [done|]. split; [lia|].
      split; [by apply NoDup_set|].
      intros key e' [[-> ->]|[Hin Hne]]%elem_of_set; [|by apply (Hall key)|done].
      split; [done|].
      right. exists fuel, (DicomParser.dicomElements s), r, (DicomParser.offset s). done.
Qed.

(** [parse], phase by phase, for a little endian transfer syntax. *)
Lemma parse_origin B els B' :
  DicomParser.parse env tb B = Ok (els, B') ->
  exists stm syntax st,
    DicomParser.readMeta env tb (length B) [] B = Ok stm /\
    DicomParser.readSyntax (DicomParser.dicomElements stm) = Ok syntax /\
    DicomParser.readDataSet env tb (length B)
      (DataReader.new (negb (isBigEndianTransferSyntax syntax)))
      (isImplicitTransferSyntax syntax) stm = Ok st /\
    DicomParser.reshapePixelData (DicomParser.dicomElements st) = Ok els /\
    (isBigEndianTransferSyntax syntax = false ->
     B' = B /\
     NoDup (fst <$> DicomParser.dicomElements st) /\
     forall key e, (key, e) ∈ DicomParser.dicomElements st ->
       key = default "undefined" (name (tag e)) /\
       ((get key (DicomParser.dicomElements stm) = Some e /\
         MetaRead env tb B (DicomParser.offset stm) e) \/
        DataRead env tb B (DicomParser.offset stm) (isImplicitTransferSyntax syntax) e)).
Proof.
  unfold DicomParser.parse, DicomParser.parseFrom, DicomParser.readElements.
  destruct (DicomParser.readMeta env tb (length B) [] B) as [stm|] eqn:Hm; [|done].
  cbn [mbind result_bind].
  destruct (DicomParser.readSyntax (DicomParser.dicomElements stm)) as [syntax|] eqn:Hs; [|done].
  cbn [mbind result_bind]. cbv zeta.
  destruct (DicomParser.readDataSet env tb (length B) _ _ stm) as [st|] eqn:Hd; [|done].
  cbn [mbind result_bind].
  destruct (DicomParser.reshapePixelData (DicomParser.dicomElements st)) as [els'|] eqn:Hr;
    [|done].
  cbn [mbind result_bind]. intros [= <- <-].
  exists stm, syntax, st. split; [done|]. split; [done|]. split; [done|]. split; [done|].
  intros Hbe. apply readMeta_origin in Hm as (Hb & Hnd & Hall).
  eapply readDataSet_origin in Hd; [|by rewrite Hbe|exact Hb|exact Hnd|exact Hall].
  destruct Hd as (Hb' & Hnd' & Hall'). done.
Qed.

End Origin.

(** ** The two loops of [getBuffer] *)

Section GetBuffer.
Import Dicom.
Import DicomWriter.
Context (tb : Tables).

Lemma selectRule_defaultRules e :
  selectRule tb defaultRules e = Some {| action := "copy"; ruleValue := JNull |}.
Proof.
  assert (H : forall k, defaultRules !! k = None
                        \/ defaultRules !! k = Some {| action := "copy"; ruleValue := JNull |}).
  { intros k. unfold defaultRules. rewrite lookup_singleton. case_decide; auto. }
  unfold selectRule.
  destruct (H (default "undefined" (name (tag e)))) as [-> | ->]; [|done].
  destruct (entry_keyword <$> lookupDict tb (group (tag e)) (element (tag e))) as [kw|]; simpl.
  - destruct (H kw) as [-> | ->]; [|done].
    destruct (H (default "undefined" (groupNameOf tb e))) as [-> | ->]; [|done].
    unfold defaultRules. rewrite lookup_singleton. by rewrite decide_True.
  - destruct (H (default "undefined" (groupNameOf tb e))) as [-> | ->]; [|done].
    unfold defaultRules. rewrite lookup_singleton. by rewrite decide_True.
Qed.

Lemma getElementToWrite_defaultRules e :
  getElementToWrite tb defaultRules e = Ok (e, Some e).
Proof. unfold getElementToWrite. by rewrite selectRule_defaultRules. Qed.

Lemma sizeStep_copy implicit s key e :
  get key (dicomElements s) = Some e ->
  sizeStep tb defaultRules implicit s key
  = Ok (if negb (isWriterControlled e)
        then {| dicomElements := dicomElements s;
                metaElements := if isMetaElement tb e
                                then metaElements s ++ [(Some key, e)] else metaElements s;
                rawElements := if isMetaElement tb e
                               then rawElements s else rawElements s ++ [(Some key, e)];
                metaLength := if isMetaElement tb e
                              then metaLength s + elementSize tb implicit e else metaLength s;
                totalSize := totalSize s + elementSize tb implicit e |}
        else s).
Proof.
  intros Hg. unfold sizeStep. rewrite Hg. cbn [of_option mbind result_bind].
  rewrite getElementToWrite_defaultRules. cbn [mbind result_bind].
  rewrite (set_get_id _ _ _ Hg).
  unfold isWriterControlled. rewrite !negb_orb.
  destruct (negb (equals2 "0x0002" "0x0000" e) && negb (equals2 "0x0002" "0x0012" e)
            && negb (equals2 "0x0002" "0x0013" e)).
  - unfold elementSize, isMetaElement. by destruct s.
  - by destruct s.
Qed.

Lemma sizing_fold implicit l s :
  (forall k e, (k, e) ∈ l -> get k (dicomElements s) = Some e) ->
  foldM (sizeStep tb defaultRules implicit) s (fst <$> l)
  = Ok {| dicomElements := dicomElements s;
          metaElements := metaElements s ++ gatheredMeta tb l;
          rawElements := rawElements s ++ gatheredData tb l;
          metaLength := metaLength s + sumSizes (elementSize tb implicit) (gatheredMeta tb l);
          totalSize := totalSize s + sumSizes (elementSize tb implicit) (gatheredMeta tb l)
                       + sumSizes (elementSize tb implicit) (gatheredData tb l) |}.
Proof.
  revert s. induction l as [|[k e] l IH]; intros s Hget.
  - simpl. unfold gatheredMeta, gatheredData. simpl.
    rewrite !app_nil_r, !Z.add_0_r. by destruct s.
  - rewrite fmap_cons. cbn [fst foldM].
    rewrite (sizeStep_copy implicit s k e) by (apply Hget; by left).
    cbn [mbind result_bind].
    unfold gatheredMeta, gatheredData. cbn [List.filter snd].
    destruct (isWriterControlled e); cbn [negb andb].
    + rewrite IH by (intros k' e' Hin; apply Hget; by right). reflexivity.
    + destruct (isMetaElement tb e); cbn [negb andb].
      * rewrite IH by (intros k' e' Hin; apply Hget; by right).
        cbn [dicomElements metaElements rawElements metaLength totalSize].
        rewrite fmap_cons. unfold sumSizes. cbn [foldr keyed fst snd].
        fold (gatheredMeta tb l) (gatheredData tb l).
        f_equal. f_equal; try (by rewrite <- app_assoc); lia.
      * rewrite IH by (intros k' e' Hin; apply Hget; by right).
        cbn [dicomElements metaElements rawElements metaLength totalSize].
        rewrite fmap_cons. unfold sumSizes. cbn [foldr keyed fst snd].
        fold (gatheredMeta tb l) (gatheredData tb l).
        f_equal. f_equal; try (by rewrite <- app_assoc); lia.
Qed.

(** Writing a list of elements, each of which is written as its bytes. *)
Lemma writeAll_emits implicit m (bytesOf : Element -> list byte) l w n :
  (forall key e, (key, e) ∈ l ->
     emitsR (fun o => DataWriter.writeDataElement true (S (DataWriter.depthE e)) e o implicit)
            e (bytesOf e) /\
     forall k, key = Some k -> get k m = Some e) ->
  (length (concat ((fun p => bytesOf p.2) <$> l)) <= n)%nat ->
  writeAll true implicit (m, outState w n) l
  = Ok (m, outState (w ++ concat ((fun p => bytesOf p.2) <$> l))
             (n - length (concat ((fun p => bytesOf p.2) <$> l)))).
Proof.
  unfold writeAll. revert w n. induction l as [|[key e] l IH]; intros w n Hall Hn.
  - simpl. by rewrite app_nil_r, Nat.sub_0_r.
  - rewrite fmap_cons in *. cbn [concat snd] in *. rewrite length_app in Hn.
    cbn [foldM]. destruct (Hall key e ltac:(by left)) as [Hw Hk].
    rewrite (Hw w n) by lia. cbn [mbind result_bind].
    assert (Hm : match key with Some k => set k e m | None => m end = m).
    { destruct key as [k|]; [|done]. apply set_get_id. by apply Hk. }
    rewrite Hm. rewrite IH.
    + rewrite <- app_assoc, length_app. do 3 f_equal. lia.
    + intros key' e' Hin. apply Hall. by right.
    + lia.
Qed.

Lemma getDicomElement_entry keyword g e vr0 :
  hasEntry tb keyword g e vr0 = true ->
  exists vm, getDicomElement tb keyword
             = Ok (mkElement {| group := g; element := e; name := None |} vr0 (VLstr vm)
                     JUndefined 0 0).
Proof.
  unfold hasEntry, getDicomElement.
  destruct (getGroupElementFromName tb keyword) as [og oe].
  destruct og as [g'|]; [|done]. cbn [of_option mbind result_bind].
  destruct (lookupDict tb g' (default "undefined" oe)) as [entry|]; [|done].
  cbn [of_option mbind result_bind tag group element vr].
  intros [[Hg He]%andb_true_iff Hv]%andb_true_iff.
  apply String.eqb_eq in Hg, He, Hv. subst. by eexists.
Qed.

Lemma emits_classUID wfuel :
  let e := mkElement {| group := "0x0002"; element := "0x0012"; name := None |} "UI"
             (VLnum (Z.of_nat (String.length classUID))) (JArray [JString classUID]) 0 0 in
  emitsR (fun o => DataWriter.writeDataElement true (S wfuel) e o false) e
    (DataWriter.le_bytes 2 2 ++ DataWriter.le_bytes 2 18 ++ JS.bytes_of_string "UI"
     ++ DataWriter.le_bytes 2 (Z.of_nat (String.length classUID))
     ++ JS.bytes_of_string classUID).
Proof.
  intros e. cbn [DataWriter.writeDataElement].
  pose proof (writeDataElementBody_plain (DataWriter.writeDataElement true wfuel) e false
                2 18 (Z.of_nat (String.length classUID)) (JS.bytes_of_string classUID)
                ltac:(lia) ltac:(lia) eq_refl eq_refl eq_refl (fun _ => eq_refl) eq_refl eq_refl
                ltac:(done)) as H.
  cbn [vr e is32bitVLVRFunc] in H.
  change (is32bitVLVRFunc "UI") with false in H. cbn [orb] in H.
  rewrite app_nil_r in H. rewrite <- ?app_assoc in H. apply H.
  change (JArray [JString classUID]) with (JArray (JString <$> JS.split "\" classUID)).
  by apply writeDataElementValue_text.
Qed.

Lemma emits_versionName wfuel :
  let e := mkElement {| group := "0x0002"; element := "0x0013"; name := None |} "SH"
             (VLnum (Z.of_nat (String.length versionName))) (JArray [JString versionName]) 0 0 in
  emitsR (fun o => DataWriter.writeDataElement true (S wfuel) e o false) e
    (DataWriter.le_bytes 2 2 ++ DataWriter.le_bytes 2 19 ++ JS.bytes_of_string "SH"
     ++ DataWriter.le_bytes 2 (Z.of_nat (String.length versionName))
     ++ JS.bytes_of_string versionName).
Proof.
  intros e. cbn [DataWriter.writeDataElement].
  pose proof (writeDataElementBody_plain (DataWriter.writeDataElement true wfuel) e false
                2 19 (Z.of_nat (String.length versionName)) (JS.bytes_of_string versionName)
                ltac:(lia) ltac:(lia) eq_refl eq_refl eq_refl (fun _ => eq_refl) eq_refl eq_refl
                ltac:(done)) as H.
  cbn [vr e is32bitVLVRFunc] in H.
  change (is32bitVLVRFunc "SH") with false in H. cbn [orb] in H.
  rewrite app_nil_r in H. rewrite <- ?app_assoc in H. apply H.
  change (JArray [JString versionName]) with (JArray (JString <$> JS.split "\" versionName)).
  by apply writeDataElementValue_text.
Qed.

Lemma emits_groupLength wfuel n :
  let e := mkElement {| group := "0x0002"; element := "0x0000"; name := None |} "UL"
             (VLnum 4) (JArray [JNumber n]) 0 0 in
  emitsR (fun o => DataWriter.writeDataElement true (S wfuel) e o false) e
    (groupLengthBytes n).
Proof.
  intros e. cbn [DataWriter.writeDataElement].
  pose proof (writeDataElementBody_plain (DataWriter.writeDataElement true wfuel) e false
                2 0 4 (DataWriter.le_bytes 4 n)
                ltac:(lia) ltac:(lia) eq_refl eq_refl eq_refl (fun _ => eq_refl) eq_refl eq_refl
                ltac:(done)) as H.
  cbn [vr e is32bitVLVRFunc] in H.
  change (is32bitVLVRFunc "UL") with false in H. cbn [orb] in H.
  rewrite app_nil_r in H. rewrite <- ?app_assoc in H. apply H.
  intros w m Hm. rewrite le_bytes_length in Hm.
  unfold DataWriter.writeDataElementValue. cbn [value e]. simpl String.eqb. cbv iota.
  unfold DataWriter.writeIntArray. cbn [DataWriter.elementsOf mbind result_bind foldM toNumber].
  cbn [default]. rewrite writeUint_out by lia. cbn [mbind result_bind].
  by rewrite le_bytes_length.
Qed.

End GetBuffer.

(** ** The File Meta elements after the data set was read *)

Section Keeps.
Import Dicom.
Import DataReader.
Context (env : Env) (tb : Tables).

(** What the loop over the data set leaves under a key is what
    [readMeta] left there, or an element that ends after the File Meta
    group. *)
Lemma readDataSet_keeps fuel dr implicit stm st :
  DicomParser.readDataSet env tb fuel dr implicit stm = Ok st ->
  forall key e, get key (DicomParser.dicomElements st) = Some e ->
    get key (DicomParser.dicomElements stm) = Some e \/
    (DicomParser.offset stm + 8 <= endOffset e)%nat.
Proof.
  unfold DicomParser.readDataSet.
  set (I := fun x : DataReader.t * DicomParser.ParseState =>
              (DicomParser.offset stm <= DicomParser.offset x.2)%nat /\
              forall key e, get key (DicomParser.dicomElements x.2) = Some e ->
                get key (DicomParser.dicomElements stm) = Some e \/
                (DicomParser.offset stm + 8 <= endOffset e)%nat).
  match goal with
  | |- snd <$> DicomParser.loop ?n ?body ?s = _ -> _ =>
      pose proof (loop_invariant I I n body s) as Hinv;
      destruct (DicomParser.loop n body s) as [[dr' st']|] eqn:Hloop; [|done]
  end.
  simpl. intros [= <-].
  assert (HI : I (dr', st')); [|by destruct HI].
  apply Hinv; clear Hinv Hloop.
  - unfold I. simpl. split; [done|]. auto.
  - intros [r s] [Ho Hall]. simpl in Ho, Hall.
    destruct (DicomParser.offset s <? length (DicomParser.buffer s))%nat; [|done].
    pose proof (readDataElement_advances env tb fuel (DicomParser.dicomElements s) r
                  (DicomParser.buffer s) (DicomParser.offset s) implicit) as Hadv.
    destruct (DicomParser.readDataElement env tb fuel (DicomParser.dicomElements s) r
                (DicomParser.buffer s) (DicomParser.offset s) implicit) as [[e b]|]; [|done].
    simpl in Hadv. cbn [mbind result_bind].
    match goal with |- whenOk _ (?m ≫= _) => destruct m as [r'|]; [|done] end.
    unfold I. simpl. split; [lia|].
    intros key e'. destruct (decide (key = default "undefined" (name (tag e)))) as [->|Hne].
    + rewrite get_set_same. intros [= <-]. right. lia.
    + rewrite get_set_other by done. apply Hall.
Qed.

Lemma reshapePixelData_get els els' key :
  DicomParser.reshapePixelData els = Ok els' -> key <> "x7FE00010" ->
  get key els' = get key els.
Proof.
  unfold DicomParser.reshapePixelData. intros H Hne.
  destruct (get "x7FE00010" els) as [pix|]; [|by injection H as <-].
  destruct (match get "x00280008" els with Some e => _ | None => _ end) as [nf|]; [|done].
  cbn [mbind result_bind] in H. cbv zeta in H.
  destruct (negb (isUndefinedLength (vl pix))).
  - destruct (DicomParser.firstNumber "x00280011" els); [|done]. cbn [mbind result_bind] in H.
    destruct (DicomParser.firstNumber "x00280010" els); [|done]. cbn [mbind result_bind] in H.
    destruct (DicomParser.firstNumber "x00280002" els); [|done]. cbn [mbind result_bind] in H.
    destruct (DicomParser.sliceFrames _ _ _); [|done]. cbn [mbind result_bind] in H.
    injection H as <-. by apply get_set_other.
  - destruct (value pix); try done.
    destruct (_ && _).
    + destruct (mapM _ _); [|done]. cbn [mbind result_bind] in H.
      injection H as <-. by apply get_set_other.
    + by injection H as <-.
Qed.

Lemma reshapePixelData_none els els' :
  DicomParser.reshapePixelData els = Ok els' -> get "x7FE00010" els' = None -> els' = els.
Proof.
  unfold DicomParser.reshapePixelData. intros H Hn.
  destruct (get "x7FE00010" els) as [pix|] eqn:Hp; [|by injection H as <-].
  exfalso.
  destruct (match get "x00280008" els with Some e => _ | None => _ end) as [nf|]; [|done].
  cbn [mbind result_bind] in H. cbv zeta in H.
  destruct (negb (isUndefinedLength (vl pix))).
  - destruct (DicomParser.firstNumber "x00280011" els); [|done]. cbn [mbind result_bind] in H.
    destruct (DicomParser.firstNumber "x00280010" els); [|done]. cbn [mbind result_bind] in H.
    destruct (DicomParser.firstNumber "x00280002" els); [|done]. cbn [mbind result_bind] in H.
    destruct (DicomParser.sliceFrames _ _ _); [|done]. cbn [mbind result_bind] in H.
    injection H as <-. by rewrite get_set_same in Hn.
  - destruct (value pix); try done.
    destruct (_ && _).
    + destruct (mapM _ _); [|done]. cbn [mbind result_bind] in H.
      injection H as <-. by rewrite get_set_same in Hn.
    + injection H as <-. congruence.
Qed.

End Keeps.

(** ** Reading a file and writing it back *)

Section Roundtrip.
Import Dicom.
Import DataReader.
Context (env : Env) (tb : Tables).
Context (Hnative : isNativeLittleEndian env = true) (Hlatin : latin1 env).

(** The tag of an element that was read holds its own name. *)
Lemma readDataElement_name fuel els r buf off implicit e b :
  DicomParser.readDataElement env tb fuel els r buf off implicit = Ok (e, b) ->
  name (tag e) = Some (getGroupElementKey (group (tag e)) (element (tag e))).
Proof.
  destruct fuel as [|fuel]; [done|]. cbn [DicomParser.readDataElement].
  unfold DicomParser.readDataElementBody.
  destruct (DicomParser.readHeader tb r buf off implicit) as [h|] eqn:Hh; [|done].
  cbn [mbind result_bind]. cbv zeta.
  match goal with |- (?X ≫= _) = _ -> _ => destruct X as [[[[so data] eo] b']|]; [|done] end.
  simpl. intros [= <- <-]. simpl.
  revert Hh. unfold DicomParser.readHeader, DicomParser.readTag.
  destruct (DicomParser.readHex r buf off); [|done]. simpl.
  destruct (DicomParser.readHex r buf (off + 2)); [|done]. simpl.
  match goal with |- (?X ≫= _) = _ -> _ => destruct X as [[[vr0 is32] o]|]; [|done] end.
  simpl.
  match goal with |- (?X ≫= _) = _ -> _ => destruct X as [[v o']|]; [|done] end.
  simpl. by intros [= <-].
Qed.

(** A plain element that was read at [off] with the flag [f]: what
    [getBuffer] counts for it and what it writes. *)
Lemma plain_element_written fuel els0 r off f e B wfuel implicit :
  isLittleEndian r = true ->
  DicomParser.readDataElement env tb fuel els0 r B off f = Ok (e, B) ->
  plainElement f B e = true ->
  f = (if isMetaElement tb e then false else implicit) ->
  emitsR (fun o => DataWriter.writeDataElement true (S wfuel) e o f) e (region f B e) /\
  elementSize tb implicit e = Z.of_nat (length (region f B e)) /\
  headerStart f e = off.
Proof.
  intros Hr Hread Hplain Hf.
  destruct (read_write_element env tb Hnative Hlatin fuel wfuel els0 r B off f e B Hr Hread Hplain)
    as (_ & Hhs & Hso & [Hse HeB] & Hw).
  split; [done|]. split; [|done].
  unfold elementSize, region. rewrite <- Hf, Hhs.
  rewrite length_take, length_drop.
  assert (Hd : DataWriter.isImplicitLengthSequence e || DataWriter.isImplicitLengthPixels e
               = false).
  { unfold plainElement in Hplain.
    apply andb_true_iff in Hplain as [Hplain _]. apply andb_true_iff in Hplain as [_ Hvl].
    unfold DataWriter.isImplicitLengthSequence, DataWriter.isImplicitLengthPixels.
    destruct (vl e); [|done]. simpl. by rewrite !andb_false_r. }
  rewrite Hd. lia.
Qed.

(** Elements that follow one another from [pos] fill the buffer from there. *)
Lemma tiled_concat flag B pos l :
  tiled flag B pos l = true ->
  concat ((fun e => region (flag e) B e) <$> l) = drop pos B.
Proof.
  revert pos. induction l as [|e l IH]; intros pos.
  - simpl. intros H%Nat.eqb_eq. subst pos. by rewrite drop_all.
  - cbn [tiled]. intros [[Hhs Hle]%andb_true_iff Ht]%andb_true_iff.
    apply Nat.eqb_eq in Hhs. apply Nat.leb_le in Hle.
    rewrite fmap_cons. cbn [concat].
    rewrite (IH _ Ht). unfold region. rewrite Hhs.
    rewrite <- (take_drop (endOffset e - pos) (drop pos B)) at 2.
    f_equal. rewrite drop_drop. f_equal. lia.
Qed.

(** The transfer syntax that [parse] reads is the one that [getBuffer]
    reads from the element. *)
Lemma readSyntax_syntaxOf els ts syntax :
  get "x00020010" els = Some ts ->
  DicomParser.readSyntax els = Ok syntax ->
  index0 (value ts) ≫= DicomParser.cleanStringV = Ok (JString syntax).
Proof.
  intros Hg. unfold DicomParser.readSyntax. rewrite Hg.
  destruct (index0 (value ts)) as [v|]; [|done]. cbn [mbind result_bind].
  destruct (DicomParser.cleanStringV v) as [v'|]; [|done]. cbn [mbind result_bind].
  destruct v'; try done. destruct (isReadSupportedTransferSyntax s); [|done]. by intros [= ->].
Qed.

Lemma reshapePixelData_pixel els els' pix :
  DicomParser.reshapePixelData els = Ok els' -> get "x7FE00010" els' = Some pix ->
  exists pix0, get "x7FE00010" els = Some pix0 /\ tag pix = tag pix0.
Proof.
  unfold DicomParser.reshapePixelData. intros H Hn.
  destruct (get "x7FE00010" els) as [pix0|] eqn:Hp; [|injection H as <-; congruence].
  exists pix0. split; [done|].
  destruct (match get "x00280008" els with Some e => _ | None => _ end) as [nf|]; [|done].
  cbn [mbind result_bind] in H. cbv zeta in H.
  destruct (negb (isUndefinedLength (vl pix0))).
  - destruct (DicomParser.firstNumber "x00280011" els); [|done]. cbn [mbind result_bind] in H.
    destruct (DicomParser.firstNumber "x00280010" els); [|done]. cbn [mbind result_bind] in H.
    destruct (DicomParser.firstNumber "x00280002" els); [|done]. cbn [mbind result_bind] in H.
    destruct (DicomParser.sliceFrames _ _ _); [|done]. cbn [mbind result_bind] in H.
    injection H as <-. rewrite get_set_same in Hn. by injection Hn as <-.
  - destruct (value pix0); try done.
    destruct (_ && _).
    + destruct (mapM _ _); [|done]. cbn [mbind result_bind] in H.
      injection H as <-. rewrite get_set_same in Hn. by injection Hn as <-.
    + injection H as <-. congruence.
Qed.

(** What [parse] and [conforming] say of every element of the map. *)
Lemma conforming_elements B els B' stm :
  DicomParser.parse env tb B = Ok (els, B') ->
  DicomParser.readMeta env tb (length B) [] B = Ok stm ->
  conforming tb B (DicomParser.offset stm) els = true ->
  B' = B /\
  NoDup (fst <$> els) /\
  (exists ts syntax,
      get "x00020010" els = Some ts /\
      index0 (value ts) ≫= DicomParser.cleanStringV = Ok (JString syntax) /\
      isBigEndianTransferSyntax syntax = false) /\
  tiled (flagOf tb els) B 132 (snd <$> els) = true /\
  forall key e wfuel, (key, e) ∈ els -> isWriterControlled e = false ->
    emitsR (fun o => DataWriter.writeDataElement true (S wfuel) e o (flagOf tb els e)) e
           (region (flagOf tb els e) B e) /\
    elementSize tb (implicitOf els) e = Z.of_nat (length (region (flagOf tb els e) B e)).
Proof.
  intros Hparse Hmeta Hconf.
  destruct (parse_origin env tb Hnative B els B' Hparse)
    as (stm' & syntax & st & Hmeta' & Hsyn & Hds & Hresh & Hor).
  rewrite Hmeta in Hmeta'. injection Hmeta' as <-.
  unfold conforming in Hconf.
  apply andb_true_iff in Hconf as [Hconf Htile].
  apply andb_true_iff in Hconf as [Hconf Hall].
  apply andb_true_iff in Hconf as [Hts Hle].
  destruct (get "x00020010" els) as [ts|] eqn:Hgts; [|done].
  apply andb_true_iff in Hts as [Htsmeta Htsctl]. apply negb_true_iff in Htsctl.
  rewrite forallb_forall in Hall.
  assert (Hin : forall key e, (key, e) ∈ els -> isWriterControlled e = false ->
                  plainElement (flagOf tb els e) B e = true /\
                  isMetaElement tb e = (endOffset e <=? DicomParser.offset stm)%nat).
  { intros key e Hin Hctl.
    specialize (Hall e). rewrite Hctl in Hall. simpl in Hall.
    apply andb_true_iff in Hall as [Hp Hm].
    - split; [done|]. by apply eqb_prop in Hm.
    - apply list_elem_of_In. apply list_elem_of_fmap. by exists (key, e). }
  (* the transfer syntax element is the one of the File Meta group *)
  assert (Hts_st : get "x00020010" (DicomParser.dicomElements st) = Some ts).
  { rewrite <- (reshapePixelData_get _ _ "x00020010" Hresh); done. }
  assert (Hts_stm : get "x00020010" (DicomParser.dicomElements stm) = Some ts).
  { destruct (readDataSet_keeps env tb _ _ _ _ _ Hds _ _ Hts_st) as [H|H]; [done|].
    destruct (Hin "x00020010" ts (get_Some_elem_of _ _ _ Hgts) Htsctl) as [_ Hm].
    rewrite Htsmeta in Hm. symmetry in Hm. apply Nat.leb_le in Hm. lia. }
  pose proof (readSyntax_syntaxOf _ _ _ Hts_stm Hsyn) as Hsyntax.
  assert (Hso : syntaxOf els = Some syntax).
  { unfold syntaxOf. by rewrite Hgts, Hsyntax. }
  rewrite Hso in Hle. apply negb_true_iff in Hle.
  destruct (Hor Hle) as (-> & Hnd & Horigin).
  assert (Hnopix : get "x7FE00010" els = None).
  { destruct (get "x7FE00010" els) as [pix|] eqn:Hpix; [exfalso|done].
    destruct (reshapePixelData_pixel _ _ _ Hresh Hpix) as (pix0 & Hpix0 & Htag).
    destruct (Horigin _ _ (get_Some_elem_of _ _ _ Hpix0)) as [Hkey Hread].
    assert (Hname : name (tag pix0) = Some (getGroupElementKey (group (tag pix0)) (element (tag pix0)))).
    { destruct Hread as [[_ (? & ? & ? & ? & _ & Hr & _)]|(? & ? & ? & ? & _ & Hr & _)];
        eapply readDataElement_name; exact Hr. }
    rewrite Hname in Hkey. simpl in Hkey.
    assert (Hctl : isWriterControlled pix = true).
    { specialize (Hall pix). apply orb_true_iff in Hall as [H|H]; [done| |].
      - exfalso. unfold plainElement in H. unfold nameIs in H.
        rewrite Htag, Hname, <- Hkey in H. simpl in H.
        by rewrite andb_false_r in H.
      - apply list_elem_of_In. apply list_elem_of_fmap. exists ("x7FE00010", pix).
        split; [done|]. by apply get_Some_elem_of. }
    assert (Hg : group (tag pix0) = "0x0002").
    { unfold isWriterControlled, DicomWriter.equals2 in Hctl. rewrite Htag in Hctl.
      destruct (String.eqb_spec "0x0002" (group (tag pix0))); [done|]. done. }
    rewrite Hg in Hkey. done. }
  apply (reshapePixelData_none _ _ Hresh) in Hnopix. subst els.
  split; [done|]. split; [done|].
  split; [by exists ts, syntax|]. split; [done|].
  intros key e wfuel Hkin Hctl.
  destruct (Hin key e Hkin Hctl) as [Hplain Hcls].
  destruct (Horigin key e Hkin) as [_ Hread].
  assert (Himp : implicitOf (DicomParser.dicomElements st) = isImplicitTransferSyntax syntax).
  { unfold implicitOf. by rewrite Hso. }
  assert (exists fuel els0 r off,
            isLittleEndian r = true /\
            DicomParser.readDataElement env tb fuel els0 r B off
              (flagOf tb (DicomParser.dicomElements st) e) = Ok (e, B)) as
      (fuel & els0 & r & off & Hr & Hrd).
  { destruct Hread as [[_ (fuel & els0 & r & off & Hr & Hrd & Hend)]|(fuel & els0 & r & off & Hr & Hrd & Hoff)];
      exists fuel, els0, r, off; (split; [done|]).
    - apply Nat.leb_le in Hend. rewrite <- Hcls in Hend. unfold flagOf. by rewrite Hend.
    - pose proof (readDataElement_advances env tb fuel els0 r B off (isImplicitTransferSyntax syntax)) as Ha.
      rewrite Hrd in Ha. simpl in Ha.
      assert (Hm : isMetaElement tb e = false).
      { rewrite Hcls. apply Nat.leb_gt. lia. }
      unfold flagOf. by rewrite Hm, Himp. }
  destruct (plain_element_written fuel els0 r off _ e B wfuel
              (implicitOf (DicomParser.dicomElements st)) Hr Hrd Hplain eq_refl) as (Hw & Hsz & _).
  done.
Qed.


End Roundtrip.
(** ** The buffer that [getBuffer] writes *)

Section Written.
Import Dicom.
Import DicomWriter.
Context (tb : Tables).

Lemma writeAll_app le implicit st l1 l2 :
  writeAll le implicit st (l1 ++ l2) = writeAll le implicit st l1 ≫= fun st => writeAll le implicit st l2.
Proof.
  unfold writeAll. revert st. induction l1 as [|x l1 IH]; intros st; [done|].
  cbn [app foldM]. destruct st as [m o]. destruct x as [key e].
  destruct (DataWriter.writeDataElement _ _ _ _ _) as [[e' o']|]; [|done].
  cbn [mbind result_bind]. apply IH.
Qed.

Lemma gatheredMeta_elements l : snd <$> gatheredMeta tb l = copiedMeta tb l.
Proof.
  unfold gatheredMeta, copiedMeta. induction l as [|[k e] l IH]; [done|].
  rewrite fmap_cons. cbn [List.filter snd].
  destruct (negb (isWriterControlled e) && isMetaElement tb e); [|done].
  rewrite !fmap_cons. by rewrite IH.
Qed.

Lemma gatheredData_elements l : snd <$> gatheredData tb l = copiedData tb l.
Proof.
  unfold gatheredData, copiedData. induction l as [|[k e] l IH]; [done|].
  rewrite fmap_cons. cbn [List.filter snd].
  destruct (negb (isWriterControlled e) && negb (isMetaElement tb e)); [|done].
  rewrite !fmap_cons. by rewrite IH.
Qed.

Lemma elem_of_gatheredMeta l key e :
  (key, e) ∈ gatheredMeta tb l ->
  exists k, key = Some k /\ (k, e) ∈ l /\ isWriterControlled e = false /\ isMetaElement tb e = true.
Proof.
  unfold gatheredMeta. intros ([k e'] & [= -> ->] & Hin%list_elem_of_In)%list_elem_of_fmap.
  apply filter_In in Hin as [Hin [H1%negb_true_iff H2]%andb_true_iff].
  exists k. by rewrite list_elem_of_In.
Qed.

Lemma elem_of_gatheredData l key e :
  (key, e) ∈ gatheredData tb l ->
  exists k, key = Some k /\ (k, e) ∈ l /\ isWriterControlled e = false /\ isMetaElement tb e = false.
Proof.
  unfold gatheredData. intros ([k e'] & [= -> ->] & Hin%list_elem_of_In)%list_elem_of_fmap.
  apply filter_In in Hin as [Hin [H1%negb_true_iff H2%negb_true_iff]%andb_true_iff].
  exists k. by rewrite list_elem_of_In.
Qed.

Lemma sumSizes_lengths f (bytesOf : Element -> list byte) l :
  (forall key e, (key, e) ∈ l -> f e = Z.of_nat (length (bytesOf e))) ->
  sumSizes f l = Z.of_nat (length (concat (bytesOf <$> (snd <$> l)))).
Proof.
  induction l as [|[k e] l IH]; intros H; [done|].
  rewrite !fmap_cons. cbn [concat snd]. unfold sumSizes. cbn [foldr snd].
  fold (sumSizes f l). rewrite length_app, IH.
  - rewrite (H k e) by (by left). lia.
  - intros key e' Hin. apply (H key). by right.
Qed.

Lemma setElementValue_classUID t vm :
  setElementValue (mkElement t "UI" (VLstr vm) JUndefined 0 0)
    (JString ("1.2.826.0.1.3680043.9.7278.1." ++ getVersion))
  = Ok (mkElement t "UI" (VLnum (Z.of_nat (String.length classUID))) (JArray [JString classUID]) 0 0,
        Z.of_nat (String.length classUID)).
Proof. reflexivity. Qed.

Lemma setElementValue_versionName t vm :
  setElementValue (mkElement t "SH" (VLstr vm) JUndefined 0 0) (JString versionName)
  = Ok (mkElement t "SH" (VLnum (Z.of_nat (String.length versionName)))
          (JArray [JString versionName]) 0 0,
        Z.of_nat (String.length versionName)).
Proof. reflexivity. Qed.

Lemma setElementValue_groupLength t vm n :
  setElementValue (mkElement t "UL" (VLstr vm) JUndefined 0 0) (JNumber n)
  = Ok (mkElement t "UL" (VLnum 4) (JArray [JNumber n]) 0 0, 4).
Proof. reflexivity. Qed.

Lemma prefix_UI b : getDataElementPrefixByteSize "UI" b = 8%nat.
Proof. by destruct b. Qed.

Lemma prefix_SH b : getDataElementPrefixByteSize "SH" b = 8%nat.
Proof. by destruct b. Qed.

Lemma prefix_UL b : getDataElementPrefixByteSize "UL" b = 8%nat.
Proof. by destruct b. Qed.

Lemma groupLengthBytes_length n : length (groupLengthBytes n) = 12%nat.
Proof. unfold groupLengthBytes. rewrite !length_app, !le_bytes_length. reflexivity. Qed.

Lemma writeAll_one implicit m e bs w n :
  emitsR (fun o => DataWriter.writeDataElement true (S (DataWriter.depthE e)) e o implicit) e bs ->
  (length bs <= n)%nat ->
  writeAll true implicit (m, outState w n) [(None, e)]
  = Ok (m, outState (w ++ bs) (n - length bs)).
Proof.
  intros He Hn. unfold writeAll. cbn [foldM]. rewrite (He w n Hn). reflexivity.
Qed.

Lemma getBuffer_written B els ts syntax :
  dictionaryOK tb = true ->
  NoDup (fst <$> els) ->
  get "x00020010" els = Some ts ->
  index0 (value ts) ≫= DicomParser.cleanStringV = Ok (JString syntax) ->
  isBigEndianTransferSyntax syntax = false ->
  (forall key e wfuel, (key, e) ∈ els -> isWriterControlled e = false ->
    emitsR (fun o => DataWriter.writeDataElement true (S wfuel) e o (flagOf tb els e)) e
           (region (flagOf tb els e) B e) /\
    elementSize tb (implicitOf els) e = Z.of_nat (length (region (flagOf tb els e) B e))) ->
  getBuffer tb defaultRules els = Ok (rewritten tb B els, els).
Proof.
  intros Hdict Hnd Hts Hsyntax Hle Hels.
  apply andb_true_iff in Hdict as [Hdict Hgl]. apply andb_true_iff in Hdict as [Hcu Hvn].
  destruct (getDicomElement_entry _ _ _ _ _ Hcu) as [vm1 E1].
  destruct (getDicomElement_entry _ _ _ _ _ Hvn) as [vm2 E2].
  destruct (getDicomElement_entry _ _ _ _ _ Hgl) as [vm3 E3].
  assert (Himp : implicitOf els = isImplicitTransferSyntax syntax).
  { unfold implicitOf, syntaxOf. by rewrite Hts, Hsyntax. }
  unfold getBuffer. rewrite Hts. cbn [of_option mbind result_bind].
  destruct (index0 (value ts)) as [v|]; [|done]. cbn [mbind result_bind] in Hsyntax |- *.
  rewrite Hsyntax. cbn [mbind result_bind]. cbv zeta.
  rewrite sizing_fold by (intros k e Hin; by apply get_elem_of).
  cbn [mbind result_bind dicomElements metaElements rawElements metaLength totalSize].
  rewrite E1. cbn [mbind result_bind]. rewrite setElementValue_classUID. cbn [mbind result_bind].
  rewrite E2. cbn [mbind result_bind].
  change (if (String.length ("DWV_" ++ getVersion) mod 2 =? 1)%nat then _ else _) with versionName.
  rewrite setElementValue_versionName. cbn [mbind result_bind].
  rewrite E3. cbn [mbind result_bind]. rewrite setElementValue_groupLength.
  cbn [mbind result_bind vr].
  rewrite !prefix_UI, !prefix_SH, !prefix_UL. rewrite <- Himp.
  rewrite (sumSizes_lengths _ (region false B) (gatheredMeta tb els)), gatheredMeta_elements.
  2:{ intros key e (k & -> & Hin & Hctl & Hm)%elem_of_gatheredMeta.
      destruct (Hels k e 0%nat Hin Hctl) as [_ Hsz]. rewrite Hsz. unfold flagOf. by rewrite Hm. }
  rewrite (sumSizes_lengths _ (region (implicitOf els) B) (gatheredData tb els)), gatheredData_elements.
  2:{ intros key e (k & -> & Hin & Hctl & Hm)%elem_of_gatheredData.
      destruct (Hels k e 0%nat Hin Hctl) as [_ Hsz]. rewrite Hsz. unfold flagOf. by rewrite Hm. }
  set (metas := concat (region false B <$> copiedMeta tb els)).
  set (raws := concat (region (implicitOf els) B <$> copiedData tb els)).
  change (Z.of_nat (String.length classUID)) with 34.
  change (Z.of_nat (String.length versionName)) with 10.
  change (Z.of_nat 8) with 8.
  replace (0 + Z.of_nat (length metas) + (8 + 34) + (8 + 10))
    with (Z.of_nat (length (metas ++ writerMetaBytes)))
    by (rewrite length_app; change (length writerMetaBytes) with 60%nat; lia).
  set (n := Z.of_nat (length (metas ++ writerMetaBytes))).
  match goal with |- (if ?T <? 0 then _ else _) = _ =>
    replace T with (Z.of_nat (128 + (length metas + length raws + 76))) by lia end.
  destruct (Z.ltb_spec (Z.of_nat (128 + (length metas + length raws + 76))) 0) as [|_]; [lia|].
  rewrite Nat2Z.id, replicate_add.
  change (replicate 128 x00 ++ replicate (length metas + length raws + 76) x00, 128%nat)
    with (outState (replicate 128 x00) (length metas + length raws + 76)).
  rewrite writeString_out by (simpl; lia). cbn [mbind result_bind].
  change (String.length "DICM") with 4%nat.
  rewrite (writeAll_emits false els (fun _ => groupLengthBytes n)).
  2:{ intros key e [= -> ->]%list_elem_of_singleton. split; [apply emits_groupLength|done]. }
  2:{ change (length (groupLengthBytes n ++ []) <= length metas + length raws + 76 - 4)%nat.
      rewrite app_nil_r, groupLengthBytes_length. lia. }
  change (concat ((fun _ => groupLengthBytes n) <$> [_])) with (groupLengthBytes n ++ []).
  rewrite app_nil_r, groupLengthBytes_length.
  cbn [mbind result_bind]. rewrite !app_nil_l, writeAll_app.
  assert (Hm : concat ((fun p => region false B p.2) <$> gatheredMeta tb els) = metas).
  { unfold metas. by rewrite <- gatheredMeta_elements, <- list_fmap_compose. }
  assert (Hr : concat ((fun p => region (implicitOf els) B p.2) <$> gatheredData tb els) = raws).
  { unfold raws. by rewrite <- gatheredData_elements, <- list_fmap_compose. }
  pose proof (writeAll_emits false els (region false B) (gatheredMeta tb els)) as W1.
  rewrite Hm in W1. rewrite W1; clear W1.
  2:{ intros key e (k & -> & Hin & Hctl & Hmeta)%elem_of_gatheredMeta.
      destruct (Hels k e (DataWriter.depthE e) Hin Hctl) as [Hw _].
      unfold flagOf in Hw. rewrite Hmeta in Hw.
      split; [done|]. intros k' [= <-]. by apply get_elem_of. }
  2:{ lia. }
  cbn [mbind result_bind].
  match goal with |- context [writeAll _ _ _ [?a; ?b]] => change [a; b] with ([a] ++ [b]) end.
  rewrite writeAll_app.
  erewrite writeAll_one; [|apply emits_classUID|].
  2:{ rewrite !length_app, !le_bytes_length. simpl. lia. }
  cbn [mbind result_bind].
  erewrite writeAll_one; [|apply emits_versionName|].
  2:{ rewrite !length_app, !le_bytes_length. simpl. lia. }
  cbn [mbind result_bind].
  rewrite Hle. cbn [negb].
  pose proof (writeAll_emits (implicitOf els) els (region (implicitOf els) B) (gatheredData tb els)) as W1.
  rewrite Hr in W1. rewrite W1; clear W1.
  2:{ intros key e (k & -> & Hin & Hctl & Hmeta)%elem_of_gatheredData.
      destruct (Hels k e (DataWriter.depthE e) Hin Hctl) as [Hw _].
      unfold flagOf in Hw. rewrite Hmeta in Hw.
      split; [done|]. intros k' [= <-]. by apply get_elem_of. }
  2:{ rewrite !length_app, !le_bytes_length. simpl. lia. }
  cbn [mbind result_bind].
  match goal with |- Ok ((outState ?w ?k).1, _) = _ =>
    replace k with 0%nat by (rewrite !length_app, !le_bytes_length; simpl; lia) end.
  unfold outState. cbn [fst replicate]. rewrite app_nil_r.
  unfold rewritten. cbv zeta. fold metas raws n.
  unfold writerMetaBytes. by rewrite <- !app_assoc.
Qed.

End Written.
(** ** Writing what was read *)

Section RoundtripTheorem.
Import Dicom.
Context (env : Env) (tb : Tables).

Lemma readMeta_magic fuel els0 B stm :
  DicomParser.readMeta env tb fuel els0 B = Ok stm ->
  take 4 (drop 128 B) = JS.bytes_of_string "DICM".
Proof.
  unfold DicomParser.readMeta.
  destruct (DicomParser.readString B 128 4) as [magic|] eqn:Hm; [|done].
  cbn [mbind result_bind].
  destruct (String.eqb_spec magic "DICM") as [->|]; [|done].
  intros _. by apply readString_bytes in Hm as [_ <-].
Qed.




End RoundtripTheorem.


(** On encapsulated pixel data the data set written is not the one read:
    the four fragments of [jpegFile] are read as two frames and written as
    two items. *)
Lemma encapsulated_fragments_regrouped :
  DicomParser.parse exampleEnv exampleTables jpegFile = Ok (jpegElements, jpegFile) /\
  (exists els', DicomWriter.getBuffer exampleTables DicomWriter.defaultRules jpegElements
                = Ok (jpegWritten, els')) /\
  exists ds ds',
    dataSet exampleEnv exampleTables jpegFile = Ok ds /\
    dataSet exampleEnv exampleTables jpegWritten = Ok ds' /\
    take (length ds) ds' <> ds.
Proof.
  split; [by vm_compute|]. split.
  - unfold jpegWritten.
    destruct (DicomWriter.getBuffer exampleTables DicomWriter.defaultRules jpegElements)
      as [[out els']|] eqn:Hw; [by exists els'|by vm_compute in Hw].
  - destruct (dataSet exampleEnv exampleTables jpegFile) as [ds|] eqn:Hd;
      [|by vm_compute in Hd].
    destruct (dataSet exampleEnv exampleTables jpegWritten) as [ds'|] eqn:Hd';
      [|by vm_compute in Hd'].
    exists ds, ds'. repeat split.
    vm_compute in Hd. injection Hd as <-.
    vm_compute in Hd'. injection Hd' as <-.
    vm_compute. discriminate.
Qed.

(** ** Numbers and texts that are written and read back *)

Section WriteRead.
Import Dicom.
Import DataReader.

Lemma le_bytes_inj n a b :
  DataWriter.le_bytes n a = DataWriter.le_bytes n b ->
  a mod 256 ^ Z.of_nat n = b mod 256 ^ Z.of_nat n.
Proof.
  revert a b. induction n as [|n IH]; intros a b H.
  - by rewrite !Z.mod_1_r.
  - rewrite !le_bytes_S in H. injection H as Hb Hr.
    apply IH in Hr.
    assert (Hm : a mod 256 = b mod 256).
    { rewrite <- !u8_byte_of_Z. by rewrite Hb. }
    rewrite Nat2Z.inj_succ, Z.pow_succ_r by lia.
    rewrite !Z.rem_mul_r by lia. by rewrite Hm, Hr.
Qed.

Lemma be_value_le_bytes n z :
  be_value (rev (DataWriter.le_bytes n z)) = z mod 256 ^ Z.of_nat n.
Proof.
  pose proof (le_bytes_be_value (DataWriter.le_bytes n z)) as H.
  rewrite le_bytes_length in H. apply le_bytes_inj in H.
  rewrite <- H. symmetry. apply Z.mod_small.
  pose proof (be_value_range (rev (DataWriter.le_bytes n z))) as Hr.
  by rewrite length_rev, le_bytes_length in Hr.
Qed.

Lemma setUint_getUint n buf off z le buf' :
  DataWriter.setUint n buf off z le = Ok buf' ->
  length buf' = length buf /\
  take off buf' = take off buf /\
  drop (off + n) buf' = drop (off + n) buf /\
  getUint n buf' off le = Ok (z mod 256 ^ Z.of_nat n).
Proof.
  unfold DataWriter.setUint. case_decide as Hle; [|done]. intros [= <-].
  set (bs := if le then DataWriter.le_bytes n z else rev (DataWriter.le_bytes n z)).
  assert (Hbs : length bs = n).
  { unfold bs. destruct le; rewrite ?length_rev; apply le_bytes_length. }
  assert (Ht : length (take off buf) = off) by (rewrite length_take; lia).
  split; [|split; [|split]].
  - rewrite !length_app, length_drop, Ht, Hbs. lia.
  - rewrite take_app_le by lia. rewrite take_take. f_equal. lia.
  - rewrite drop_app_ge by lia. rewrite Ht.
    rewrite drop_app_ge by lia. rewrite Hbs.
    replace (off + n - off - n)%nat with 0%nat by lia. done.
  - unfold getUint, bytes_at.
    rewrite decide_True by (rewrite !length_app, length_drop, Ht, Hbs; lia).
    cbn [of_option mbind result_bind].
    rewrite drop_app_ge by lia. rewrite Ht, Nat.sub_diag, drop_0.
    rewrite take_app_le by lia. rewrite take_ge by lia.
    f_equal. unfold bs. destruct le; rewrite ?rev_involutive; apply be_value_le_bytes.
Qed.


(** X2: a number written by [writeUint16] or [writeUint32] leaves the
    rest of the buffer as it was, moves the offset by 2 or 4, and is read
    back by [readUint16], [readUint32] and [readInt32] of a reader of the
    same byte order: the number modulo 2^16 or 2^32, for [readInt32] as a
    signed number. *)
Theorem written_number_is_read_back le buf off v :
  (forall buf' off',
     DataWriter.writeUint16 le (buf, off) v = Ok (buf', off') ->
     off' = (off + 2)%nat /\ length buf' = length buf /\
     take off buf' = take off buf /\ drop (off + 2) buf' = drop (off + 2) buf /\
     readUint16 (DataReader.new le) buf' off = Ok (v mod 2 ^ 16)) /\
  (forall buf' off',
     DataWriter.writeUint32 le (buf, off) v = Ok (buf', off') ->
     off' = (off + 4)%nat /\ length buf' = length buf /\
     take off buf' = take off buf /\ drop (off + 4) buf' = drop (off + 4) buf /\
     readUint32 (DataReader.new le) buf' off = Ok (v mod 2 ^ 32) /\
     readInt32 (DataReader.new le) buf' off = Ok (to_signed 32 (v mod 2 ^ 32))).
Proof.
  split; intros buf' off'.
  - unfold DataWriter.writeUint16, DataWriter.writeUint. cbn [fst snd].
    destruct (DataWriter.setUint 2 buf off v le) as [b|] eqn:Hs;
      cbn [mbind result_bind]; [|done].
    intros [= <- <-].
    destruct (setUint_getUint _ _ _ _ _ _ Hs) as (Hl & Ht & Hd & Hg).
    repeat split; done.
  - unfold DataWriter.writeUint32, DataWriter.writeUint. cbn [fst snd].
    destruct (DataWriter.setUint 4 buf off v le) as [b|] eqn:Hs;
      cbn [mbind result_bind]; [|done].
    intros [= <- <-].
    destruct (setUint_getUint _ _ _ _ _ _ Hs) as (Hl & Ht & Hd & Hg).
    repeat split; try done.
    unfold readInt32, getInt. cbn [isLittleEndian DataReader.new].
    by rewrite Hg.
Qed.

(** A 32-bit number stored in big endian order and read back as signed. *)
Lemma written_number_is_read_back_witness :
  readInt32 (DataReader.new false) [x00; xff; xff; xff; xfe; x00] 1 = Ok (-2).
Proof.
  destruct (proj2 (written_number_is_read_back false [x00; x00; x00; x00; x00; x00] 1 (-2))
              [x00; xff; xff; xff; xfe; x00] 5%nat eq_refl) as (_ & _ & _ & _ & _ & H).
  exact H.
Defined.

Lemma setUint_1_lookup buf off z le b :
  DataWriter.setUint 1 buf off z le = Ok b -> b !! off = Some (byte_of_Z z).
Proof.
  unfold DataWriter.setUint. case_decide as Hle; [|done].
  assert (H1 : (if le then DataWriter.le_bytes 1 z else rev (DataWriter.le_bytes 1 z))
               = [byte_of_Z z]).
  { rewrite le_bytes_S. by destruct le. }
  rewrite H1. intros [= <-]. rewrite lookup_app_r by (rewrite length_take; lia).
  rewrite length_take, Nat.min_l by lia. by rewrite Nat.sub_diag.
Qed.

Lemma foldM_writeUint8 le (l : list ascii) buf off buf' off' :
  foldM (fun o c => DataWriter.writeUint8 le o (JS.code c)) (buf, off) l = Ok (buf', off') ->
  off' = (off + length l)%nat /\ length buf' = length buf /\
  take off buf' = take off buf /\ drop off' buf' = drop off' buf /\
  take (length l) (drop off buf') = byte_of_ascii <$> l.
Proof.
  unfold DataWriter.writeUint8, DataWriter.writeUint.
  revert buf off. induction l as [|c l IH]; intros buf off.
  - cbn [foldM]. intros [= <- <-]. rewrite Nat.add_0_r. done.
  - cbn [foldM fst snd].
    destruct (DataWriter.setUint 1 buf off (JS.code c) le) as [b|] eqn:Hs;
      cbn [mbind result_bind]; [|done].
    intros H.
    destruct (IH _ _ H) as (-> & Hl & Ht & Hd & Hv).
    destruct (setUint_getUint _ _ _ _ _ _ Hs) as (Hl1 & Ht1 & Hd1 & Hg1).
    cbn [length]. split; [lia|]. split; [congruence|].
    assert (Hoff : (off + 1 <= length buf)%nat).
    { revert Hs. unfold DataWriter.setUint. by case_decide. }
    split; [|split].
    + rewrite <- Ht1.
      replace (take off buf') with (take off (take (off + 1) buf'))
        by (rewrite take_take; f_equal; lia).
      rewrite Ht, take_take. f_equal. lia.
    + replace (off + 1 + length l)%nat with ((off + 1) + length l)%nat in * by lia.
      rewrite Hd. rewrite <- (drop_drop b), <- (drop_drop buf). by rewrite Hd1.
    + rewrite fmap_cons.
      assert (Hb : buf' !! off = Some (byte_of_ascii c)).
      { assert (Hbo : b !! off = Some (byte_of_ascii c)).
        { rewrite <- byte_of_Z_code. by apply (setUint_1_lookup buf off (JS.code c) le). }
        rewrite <- (lookup_take_lt buf' (off + 1) off) by lia.
        rewrite Ht. by rewrite lookup_take_lt by lia. }
      rewrite (drop_S _ _ _ Hb). cbn [take]. f_equal.
      rewrite <- Hv. by rewrite Nat.add_1_r.
Qed.

(** X3: the text written by [writeString] is read back by [readString]
    from the same offset, when the offset is in the buffer; the bytes
    around it are as they were, and the offset moves by the length of the
    text. *)
Theorem written_string_is_read_back le buf off s buf' off' :
  (off <= length buf)%nat ->
  DataWriter.writeString le (buf, off) s = Ok (buf', off') ->
  off' = (off + String.length s)%nat /\ length buf' = length buf /\
  take off buf' = take off buf /\ drop off' buf' = drop off' buf /\
  DicomParser.readString buf' off (String.length s) = Ok s.
Proof.
  unfold DataWriter.writeString. intros Hoff H.
  apply foldM_writeUint8 in H as (-> & Hl & Ht & Hd & Hv).
  assert (Hlen : length (list_ascii_of_string s) = String.length s).
  { clear. induction s as [|c s IH]; simpl; [done|]. by rewrite IH. }
  rewrite Hlen in *. repeat split; try done.
  unfold DicomParser.readString, bytes_at.
  destruct (decide (off + String.length s <= length buf')%nat) as [Hle|Hgt].
  - cbn [of_option mbind result_bind]. f_equal. rewrite Hv.
    apply string_of_bytes_eq. reflexivity.
  - exfalso. assert (Hx : length (take (String.length s) (drop off buf')) = String.length s).
    { rewrite Hv, length_fmap. done. }
    rewrite length_take, length_drop in Hx. lia.
Qed.

Lemma written_string_is_read_back_witness :
  DicomParser.readString [x00; "D"; "I"; "C"; "M"; x00]%byte 1 4 = Ok "DICM".
Proof.
  destruct (written_string_is_read_back true [x00; x00; x00; x00; x00; x00] 1 "DICM"
              [x00; "D"; "I"; "C"; "M"; x00]%byte 5%nat ltac:(simpl; lia) eq_refl) as (_ & _ & _ & _ & H).
  exact H.
Defined.

(** X4: the text of a 16-bit number that [readHex] returns is written
    back by [writeHex] of a writer of the same byte order as the two
    bytes that were read. *)
Theorem read_hex_is_written_back r buf off s :
  DicomParser.readHex r buf off = Ok s ->
  DataWriter.writeHex (isLittleEndian r) (buf, off) s = Ok (buf, (off + 2)%nat).
Proof.
  intros H. destruct (readHex_value _ _ _ _ H) as (v & Hv & ->).
  unfold readUint16, getUint in Hv.
  destruct (bytes_at buf off 2) as [bs|] eqn:Hb; [|done].
  cbn [of_option mbind result_bind] in Hv. injection Hv as <-.
  apply bytes_at_Some in Hb as (Hle & -> & Hlen).
  set (bs := take 2 (drop off buf)) in *.
  assert (Hr : 0 <= be_value (if isLittleEndian r then rev bs else bs) < 65536).
  { pose proof (be_value_range (if isLittleEndian r then rev bs else bs)) as Hx.
    replace (length (if isLittleEndian r then rev bs else bs)) with 2%nat in Hx
      by (destruct (isLittleEndian r); rewrite ?length_rev; done).
    exact Hx. }
  unfold DataWriter.writeHex, DataWriter.writeUint16, DataWriter.writeUint. cbn [fst snd].
  fold (hexBack (hexText (be_value (if isLittleEndian r then rev bs else bs)))).
  rewrite hex_roundtrip by done.
  unfold DataWriter.setUint. rewrite decide_True by done. cbn [mbind result_bind].
  do 2 f_equal.
  assert (Hbs : (if isLittleEndian r
                 then DataWriter.le_bytes 2 (be_value (if isLittleEndian r then rev bs else bs))
                 else rev (DataWriter.le_bytes 2 (be_value (if isLittleEndian r then rev bs else bs))))
                = bs).
  { pose proof (le_bytes_be_value bs) as H1.
    pose proof (le_bytes_be_value (rev bs)) as H2.
    rewrite length_rev, rev_involutive in H2. rewrite Hlen in H1, H2.
    destruct (isLittleEndian r); [done|]. by rewrite H2, rev_involutive. }
  rewrite Hbs. unfold bs.
  by rewrite <- drop_drop, !take_drop.
Qed.

Lemma read_hex_is_written_back_witness :
  DataWriter.writeHex false ([x7f; xe0; x00; x10], 0%nat) "0x7FE0" = Ok ([x7f; xe0; x00; x10], 2%nat).
Proof.
  apply (read_hex_is_written_back (DataReader.new false) [x7f; xe0; x00; x10] 0 "0x7FE0").
  vm_compute. reflexivity.
Defined.

End WriteRead.
(** ** Typed arrays of the other kinds, and the buffer after a flip *)

Section TypedArrays.
Import Dicom.
Import DataReader.

(** X5: for a whole number of elements that lie in the buffer,
    [readInt16Array], [readUint32Array] and [readInt32Array] return the
    values that the bytes hold in the byte order of the reader, whatever
    the alignment of the offset and the byte order of the platform. *)
Theorem integer_arrays_hold_the_bytes env r buf off n :
  (forall bs, bytes_at buf off (n * 2) = Some bs ->
     fst <$> readInt16Array env r buf off (n * 2)
     = Ok (decode Int16Array (isLittleEndian r) bs)) /\
  (forall bs, bytes_at buf off (n * 4) = Some bs ->
     fst <$> readUint32Array env r buf off (n * 4)
     = Ok (decode Uint32Array (isLittleEndian r) bs) /\
     fst <$> readInt32Array env r buf off (n * 4)
     = Ok (decode Int32Array (isLittleEndian r) bs)).
Proof.
  split; [intros bs H|intros bs H; split].
  - exact (readArray_values env r Int16Array (getInt 2) buf off n bs
             (agrees_getInt Int16Array) H).
  - exact (readArray_values env r Uint32Array (getUint 4) buf off n bs
             (agrees_getUint Uint32Array) H).
  - exact (readArray_values env r Int32Array (getInt 4) buf off n bs
             (agrees_getInt Int32Array) H).
Qed.

(** Two signed 32-bit numbers of a big endian buffer, at an odd offset. *)
Lemma integer_arrays_hold_the_bytes_witness :
  fst <$> readInt32Array {| isNativeLittleEndian := true; TextDecoder := None |}
            (DataReader.new false)
            [x00; xff; xff; xff; xfe; x00; x00; x01; x00] 1 (2 * 4)
  = Ok [-2; 256].
Proof.
  apply (proj2 (proj2 (integer_arrays_hold_the_bytes
                  {| isNativeLittleEndian := true; TextDecoder := None |}
                  (DataReader.new false)
                  [x00; xff; xff; xff; xfe; x00; x00; x01; x00] 1 2)
                 [xff; xff; xff; xfe; x00; x00; x01; x00] eq_refl)).
Defined.

Lemma flipArrayEndianness_twice bpel n l :
  length l = (n * bpel)%nat ->
  flipArrayEndianness bpel n (flipArrayEndianness bpel n l) = l.
Proof.
  revert l. induction n as [|n IH]; intros l Hl; [done|].
  cbn [flipArrayEndianness]. simpl in Hl.
  assert (Ht : length (rev (take bpel l)) = bpel).
  { rewrite length_rev, length_take. lia. }
  rewrite take_app_length' by done. rewrite drop_app_length' by done.
  rewrite rev_involutive, IH by (rewrite length_drop; lia).
  apply take_drop.
Qed.

Lemma flipped_twice bpel buf off n :
  (off + n * bpel <= length buf)%nat ->
  flipped bpel (flipped bpel buf off n) off n = buf.
Proof.
  intros Hle. unfold flipped at 1.
  assert (Hb : bytes_at buf off (n * bpel) = Some (take (n * bpel) (drop off buf))).
  { unfold bytes_at. by rewrite decide_True. }
  pose proof (flipped_bytes_at bpel buf off n _ Hb) as Hf.
  apply bytes_at_Some in Hf as (_ & Hf & _). rewrite <- Hf.
  rewrite flipArrayEndianness_twice by (rewrite length_take, length_drop; lia).
  unfold flipped.
  assert (Ht : length (take off buf) = off) by (rewrite length_take; lia).
  set (mid := flipArrayEndianness bpel n (take (n * bpel) (drop off buf))).
  assert (Hm : length (take off buf ++ mid) = (off + n * bpel)%nat).
  { rewrite length_app, Ht. unfold mid.
    rewrite flipArrayEndianness_length; [done|]. rewrite length_take, length_drop. lia. }
  rewrite take_app_length' by done.
  rewrite (app_assoc (take off buf) mid), drop_app_length' by done.
  by rewrite <- drop_drop, !take_drop.
Qed.

(** X6: when the byte order of the reader is not the one of the
    platform, [readUint16Array] at an even offset returns the values of
    the bytes in the byte order of the reader and leaves every 16-bit
    number of the range it read with its two bytes exchanged in the
    buffer; the same call on the buffer it leaves returns the values of
    the other byte order, and puts the buffer back as it was. *)
Theorem aligned_read_flips_the_buffer env r buf off n bs :
  needFlip env r = true ->
  (off mod 2 = 0)%nat ->
  bytes_at buf off (n * 2) = Some bs ->
  readUint16Array env r buf off (n * 2)
  = Ok (decode Uint16Array (isLittleEndian r) bs, flipped 2 buf off n) /\
  bytes_at (flipped 2 buf off n) off (n * 2) = Some (flipArrayEndianness 2 n bs) /\
  readUint16Array env r (flipped 2 buf off n) off (n * 2)
  = Ok (decode Uint16Array (negb (isLittleEndian r)) bs, buf).
Proof.
  intros Hflip Hal Hb.
  pose proof (flipped_bytes_at 2 buf off n bs Hb) as Hfb.
  pose proof (bytes_at_Some _ _ _ _ Hb) as (Hle & Hbs & Hlen).
  assert (Hnat : isNativeLittleEndian env = negb (isLittleEndian r)).
  { unfold needFlip in Hflip.
    by destruct (isLittleEndian r), (isNativeLittleEndian env). }
  assert (Hdiv : (n * 2 / 2 = n)%nat) by (apply Nat.div_mul; lia).
  split; [|split; [done|]].
  - unfold readUint16Array, readArray. cbn [BYTES_PER_ELEMENT].
    rewrite decide_True by done. rewrite Hdiv.
    rewrite (view_decode env Uint16Array buf off n bs Hb). cbn [mbind result_bind].
    rewrite Hflip.
    rewrite (view_decode env Uint16Array _ off n _ Hfb). cbn [mbind result_bind].
    rewrite (decode_flip Uint16Array _ n bs Hlen), Hnat, negb_involutive. done.
  - unfold readUint16Array, readArray. cbn [BYTES_PER_ELEMENT].
    rewrite decide_True by done. rewrite Hdiv.
    rewrite (view_decode env Uint16Array _ off n _ Hfb). cbn [mbind result_bind].
    rewrite Hflip, flipped_twice by done.
    rewrite (view_decode env Uint16Array buf off n bs Hb). cbn [mbind result_bind].
    by rewrite Hnat.
Qed.

(** A big endian buffer read twice on a little endian platform. *)
Lemma aligned_read_flips_the_buffer_witness :
  readUint16Array {| isNativeLittleEndian := true; TextDecoder := None |}
    (DataReader.new false) [x01; x02; x03; x04] 0 (2 * 2)
  = Ok ([258; 772], [x02; x01; x04; x03]) /\
  readUint16Array {| isNativeLittleEndian := true; TextDecoder := None |}
    (DataReader.new false) [x02; x01; x04; x03] 0 (2 * 2)
  = Ok ([513; 1027], [x01; x02; x03; x04]).
Proof.
  destruct (aligned_read_flips_the_buffer
              {| isNativeLittleEndian := true; TextDecoder := None |}
              (DataReader.new false) [x01; x02; x03; x04] 0 2 [x01; x02; x03; x04]
              eq_refl eq_refl eq_refl) as (H1 & _ & H2).
  split; [exact H1|exact H2].
Defined.

End TypedArrays.
(** ** Elements that are read: keys, progress, and writing them back *)

Section Elements.
Import Dicom.
Import DataReader.
Context (env : Env) (tb : Tables).

Lemma elem_of_set_any {A} key (v : A) m k x :
  (k, x) ∈ set key v m -> (k = key /\ x = v) \/ (k, x) ∈ m.
Proof.
  induction m as [|[k0 w] m IH]; simpl.
  - intros H%list_elem_of_singleton. injection H as -> ->. by left.
  - destruct (String.eqb k0 key) eqn:E.
    + apply String.eqb_eq in E. subst k0.
      intros [H|H]%elem_of_cons; [injection H as -> ->; by left|].
      right. by right.
    + intros [H|H]%elem_of_cons; [right; rewrite H; by left|].
      destruct (IH H) as [?|?]; [by left|]. right. by right.
Qed.

(** Every element of the map that [readElements] returns was returned by
    [readDataElement], and is kept under the name of its tag. *)
Lemma readElements_from_reads (P : Element -> Prop) cs B st :
  (forall fuel els r buf off implicit e b,
     DicomParser.readDataElement env tb fuel els r buf off implicit = Ok (e, b) -> P e) ->
  DicomParser.readElements env tb cs [] B = Ok st ->
  forall key e, (key, e) ∈ DicomParser.dicomElements st ->
    key = default "undefined" (name (tag e)) /\ P e.
Proof.
  intros HP. unfold DicomParser.readElements.
  set (I := fun st : DicomParser.ParseState =>
              forall key e, (key, e) ∈ DicomParser.dicomElements st ->
                key = default "undefined" (name (tag e)) /\ P e).
  assert (Hstore : forall e b st fuel els r buf off implicit,
             DicomParser.readDataElement env tb fuel els r buf off implicit = Ok (e, b) ->
             I st -> I (DicomParser.store e b st)).
  { intros e b s fuel els r buf off implicit Hr Hs key e' Hin.
    apply elem_of_set_any in Hin as [[-> ->]|Hin]; [|by apply Hs].
    split; [done|]. eapply HP, Hr. }
  destruct (DicomParser.readMeta env tb (length B) [] B) as [stm|] eqn:Hm; [|done].
  cbn [mbind result_bind].
  destruct (DicomParser.readSyntax (DicomParser.dicomElements stm)) as [syntax|]; [|done].
  cbn [mbind result_bind]. cbv zeta.
  assert (Hstm : I stm).
  { revert Hm. unfold DicomParser.readMeta.
    destruct (DicomParser.readString B 128 4) as [magic|]; [|done].
    cbn -[DicomParser.loop DicomParser.readDataElement].
    destruct (negb (String.eqb magic "DICM")); [done|].
    destruct (DicomParser.readDataElement env tb (length B) [] (DataReader.new true) B 132 false)
      as [[e1 b1]|] eqn:H1; [|done].
    cbn -[DicomParser.loop DicomParser.readDataElement].
    destruct (index0 (value e1)); [|done].
    cbn -[DicomParser.loop DicomParser.readDataElement].
    destruct (DicomParser.parseIntV _) as [metaLength|]; [|done].
    cbn -[DicomParser.loop DicomParser.readDataElement].
    intros Hloop.
    match type of Hloop with
    | DicomParser.loop ?n ?body ?s = _ =>
        pose proof (loop_invariant I I n body s) as Hinv
    end.
    rewrite Hloop in Hinv. apply Hinv; clear Hinv Hloop.
    - apply (Hstore _ _ _ _ _ _ _ _ _ H1). intros key e Hin. by apply elem_of_nil in Hin.
    - intros s Hs.
      destruct (match _ with Some m => _ | None => false end); [|done].
      destruct (DicomParser.readDataElement env tb (length B) (DicomParser.dicomElements s)
                  (DataReader.new true) (DicomParser.buffer s) (DicomParser.offset s) false)
        as [[e b]|] eqn:Hr; [|done].
      simpl. by apply (Hstore _ _ _ _ _ _ _ _ _ Hr). }
  unfold DicomParser.readDataSet.
  match goal with
  | |- snd <$> DicomParser.loop ?n ?body ?s = _ -> _ =>
      pose proof (loop_invariant (fun x => I x.2) (fun x => I x.2) n body s) as Hinv;
      destruct (DicomParser.loop n body s) as [[dr' st']|] eqn:Hloop; [|done]
  end.
  simpl. intros [= <-]. apply Hinv; clear Hinv Hloop; [done|].
  intros [r s] Hs. simpl in Hs.
  destruct (DicomParser.offset s <? length (DicomParser.buffer s))%nat; [|done].
  match goal with
  | |- whenOk _ (DicomParser.readDataElement ?e ?t ?f ?els ?r ?b ?o ?i ≫= _) =>
      destruct (DicomParser.readDataElement e t f els r b o i) as [[e1 b1]|] eqn:Hr; [|done]
  end.
  cbn [mbind result_bind].
  match goal with |- whenOk _ (?m ≫= _) => destruct m as [r'|]; [|done] end.
  simpl. by apply (Hstore _ _ _ _ _ _ _ _ _ Hr).
Qed.

Lemma reshapePixelData_elem_of els els' key e :
  DicomParser.reshapePixelData els = Ok els' -> (key, e) ∈ els' ->
  exists e0, (key, e0) ∈ els /\ tag e = tag e0.
Proof.
  unfold DicomParser.reshapePixelData. intros H Hin.
  destruct (get "x7FE00010" els) as [pix|] eqn:Hp; [|injection H as <-; by exists e].
  apply get_Some_elem_of in Hp.
  assert (Hset : forall v, (key, e) ∈ set "x7FE00010"
                   (mkElement (tag pix) (vr pix) (vl pix) v (startOffset pix) (endOffset pix)) els ->
                 exists e0, (key, e0) ∈ els /\ tag e = tag e0).
  { intros v [[-> ->]|Hi]%elem_of_set_any; [by exists pix|by exists e]. }
  destruct (match get "x00280008" els with Some e => _ | None => _ end) as [nf|]; [|done].
  cbn [mbind result_bind] in H. cbv zeta in H.
  destruct (negb (isUndefinedLength (vl pix))).
  - destruct (DicomParser.firstNumber "x00280011" els); [|done]. cbn [mbind result_bind] in H.
    destruct (DicomParser.firstNumber "x00280010" els); [|done]. cbn [mbind result_bind] in H.
    destruct (DicomParser.firstNumber "x00280002" els); [|done]. cbn [mbind result_bind] in H.
    destruct (DicomParser.sliceFrames _ _ _); [|done]. cbn [mbind result_bind] in H.
    injection H as <-. by eapply Hset.
  - destruct (value pix); try done.
    destruct (_ && _).
    + destruct (mapM _ _); [|done]. cbn [mbind result_bind] in H.
      injection H as <-. by eapply Hset.
    + injection H as <-. by exists e.
Qed.

(** X7: every element of the map that [parse] returns is kept under
    the key of its own tag, the letter x followed by the group and the
    element without their prefix 0x, which is also the name of the tag. *)
Theorem parsed_elements_are_keyed_by_tag B els B' :
  DicomParser.parse env tb B = Ok (els, B') ->
  forall key e, (key, e) ∈ els ->
    key = getGroupElementKey (group (tag e)) (element (tag e)) /\
    name (tag e) = Some key.
Proof.
  unfold DicomParser.parse, DicomParser.parseFrom.
  destruct (DicomParser.readElements env tb None [] B) as [st|] eqn:Hst; [|done].
  cbn [mbind result_bind].
  destruct (DicomParser.reshapePixelData (DicomParser.dicomElements st)) as [els'|] eqn:Hre;
    [|done].
  cbn [mbind result_bind]. intros [= <- <-] key e Hin.
  destruct (reshapePixelData_elem_of _ _ _ _ Hre Hin) as (e0 & Hin0 & ->).
  destruct (readElements_from_reads
              (fun e => name (tag e) = Some (getGroupElementKey (group (tag e)) (element (tag e))))
              None B st (readDataElement_name env tb) Hst key e0 Hin0) as [Hk Hn].
  rewrite Hn in Hk. simpl in Hk. by rewrite Hn, Hk.
Qed.


Lemma readArray_length r k get buf off size d b :
  readArray env r k get buf off size = Ok (d, b) -> length buf = length b.
Proof.
  unfold readArray. cbv zeta. case_decide.
  - destruct (view env k buf off (size / BYTES_PER_ELEMENT k)) as [v|] eqn:Hv; [|done].
    apply view_Ok in Hv as [Hle _]. cbn [mbind result_bind].
    destruct (needFlip env r).
    + destruct (view env k (flipped _ _ _ _) off _); [|done]. simpl. intros [= _ <-].
      symmetry. by apply flipped_length.
    + simpl. by intros [= _ <-].
  - destruct (fill _ _ _ _ _ _); [|done]. simpl. by intros [= _ <-].
Qed.

(** X8: an element that [readDataElement] returns ends at least 8
    bytes after the offset where it was read, and the buffer that is
    returned has the length of the one that was read, so that the loops
    of [parse], which go on at the end of the element while it is before
    the end of the buffer, come to an end; for a reader of the byte order
    of the platform the buffer is returned as it was. *)
Theorem read_element_advances fuel els r buf off implicit e b :
  DicomParser.readDataElement env tb fuel els r buf off implicit = Ok (e, b) ->
  (off + 8 <= endOffset e)%nat /\ length b = length buf /\
  (needFlip env r = false -> b = buf).
Proof.
  intros H. split; [|split].
  - pose proof (readDataElement_advances env tb fuel els r buf off implicit) as Ha.
    by rewrite H in Ha.
  - assert (Hl : whenOk (fun x : Element * list byte =>
                           length buf = length x.2 /\ (off + 8 <= endOffset x.1)%nat)
                   (DicomParser.readDataElement env tb fuel els r buf off implicit)).
    { clear H. revert buf off implicit. induction fuel as [|fuel IH]; intros; [done|].
      cbn [DicomParser.readDataElement].
      apply (advances_readDataElementBody env tb (fun a b => length a = length b)); try done.
      - intros a b' c. congruence.
      - apply readArray_length.
      - intros buf' off' implicit'. unfold steady. eapply whenOk_mono; [apply IH|].
        intros [e' b'] [? ?]. simpl in *. split; [done|lia]. }
    rewrite H in Hl. destruct Hl as [Hl _]. by symmetry.
  - intros Hnf.
    pose proof (advances_readDataElement env tb fuel els r buf off implicit Hnf) as Ha.
    rewrite H in Ha. by destruct Ha.
Qed.


(** Under implicit VR, and for an item or a delimitation tag
    under explicit VR as well, no VR is read from the buffer: the VR is
    the one of the dictionary for the tag, UN for a tag that the
    dictionary does not have and for an item or delimitation tag; the
    value length is the 32-bit number that follows the tag, and the value
    starts 8 bytes after the start of the tag. *)
Theorem implicit_vr_header r buf offset tg o4 :
  DicomParser.readTag r buf offset = Ok (tg, o4) ->
  DicomParser.readHeader tb r buf offset true
  = (vl ← readUint32 r buf (offset + 4);
     Ok (headerOf tg
           (if isTagWithVR (group tg) (element tg)
            then match lookupDict tb (group tg) (element tg) with
                 | Some entry => entry_vr entry
                 | None => "UN"
                 end
            else "UN")
           true vl (offset + 8))) /\
  (isTagWithVR (group tg) (element tg) = false ->
   DicomParser.readHeader tb r buf offset false
   = (vl ← readUint32 r buf (offset + 4); Ok (headerOf tg "UN" true vl (offset + 8)))).
Proof.
  intros Ht.
  assert (Ho : o4 = (offset + 4)%nat).
  { revert Ht. unfold DicomParser.readTag.
    destruct (DicomParser.readHex r buf offset); [|done]. simpl.
    destruct (DicomParser.readHex r buf (offset + 2)); [|done]. simpl. by intros [= _ <-]. }
  subst o4. unfold DicomParser.readHeader. rewrite Ht. cbn [mbind result_bind].
  split.
  - destruct (isTagWithVR (group tg) (element tg)); cbn [mbind result_bind];
      (destruct (readUint32 r buf (offset + 4)) as [vl|]; [|done]); cbn [mbind result_bind];
      unfold headerOf; do 2 f_equal; lia.
  - intros ->. cbn [mbind result_bind].
    destruct (readUint32 r buf (offset + 4)) as [vl|]; [|done]. cbn [mbind result_bind].
    unfold headerOf. do 2 f_equal. lia.
Qed.


End Elements.

(** The three elements of [studyFile] and the two of its File Meta group. *)
Lemma parsed_elements_are_keyed_by_tag_witness :
  Forall (fun p : string * Dicom.Element =>
            p.1 = Dicom.getGroupElementKey (Dicom.group (Dicom.tag p.2))
                                           (Dicom.element (Dicom.tag p.2)) /\
            Dicom.name (Dicom.tag p.2) = Some p.1)
         studyElements.
Proof.
  apply Forall_forall. intros [key e] Hin.
  apply (parsed_elements_are_keyed_by_tag exampleEnv exampleTables studyFile studyElements
           studyFile); [|exact Hin].
  vm_compute. reflexivity.
Defined.

(** The patient name of [patientFile], read at byte 172. *)
Lemma read_element_advances_witness :
  (172 + 8 <= Dicom.endOffset (patientName "DOE^JOHN" 188))%nat /\
  length patientFile = length patientFile /\
  (DataReader.needFlip exampleEnv (DataReader.new true) = false -> patientFile = patientFile).
Proof.
  apply (read_element_advances exampleEnv exampleTables 3 [] (DataReader.new true)
           patientFile 172 false).
  vm_compute. reflexivity.
Defined.

(** The header of an unknown tag and of an item, under implicit VR. *)
Lemma implicit_vr_header_witness :
  DicomParser.readHeader noTables (DataReader.new true)
    [x09; x00; x10; x00; x02; x00; x00; x00; x2a; x00]%byte 0 true
  = Ok (headerOf {| Dicom.group := "0x0009"; Dicom.element := "0x0010";
                    Dicom.name := Some "x00090010" |} "UN" true 2 8).
Proof.
  etransitivity.
  - apply (implicit_vr_header noTables (DataReader.new true)
             [x09; x00; x10; x00; x02; x00; x00; x00; x2a; x00]%byte 0
             {| Dicom.group := "0x0009"; Dicom.element := "0x0010";
                Dicom.name := Some "x00090010" |} 4).
    vm_compute. reflexivity.
  - vm_compute. reflexivity.
Defined.

(** ** Transfer syntaxes and the names of the dictionary *)

Section Syntaxes.
Import Dicom.

(** X10: a transfer syntax that [isReadSupportedTransferSyntax]
    accepts has a name other than Unknown, and it is one of the three
    syntaxes without compression or it has a decompression name; [parse]
    goes on only with such a syntax. *)
Theorem supported_syntax_is_named syntax :
  isReadSupportedTransferSyntax syntax = true ->
  DicomParser.getTransferSyntaxName syntax <> "Unknown" /\
  (syntax = "1.2.840.10008.1.2" \/ syntax = "1.2.840.10008.1.2.1"
   \/ syntax = "1.2.840.10008.1.2.2"
   \/ exists algo, Syntax.getSyntaxDecompressionName syntax = Some algo) /\
  forall els s, DicomParser.readSyntax els = Ok s -> isReadSupportedTransferSyntax s = true.
Proof.
  intros H. split; [|split].
  - revert H.
    unfold isReadSupportedTransferSyntax, DicomParser.getTransferSyntaxName.
    destruct (String.eqb syntax "1.2.840.10008.1.2"); [done|].
    destruct (String.eqb syntax "1.2.840.10008.1.2.1"); [done|].
    destruct (String.eqb syntax "1.2.840.10008.1.2.1.99"); [done|].
    destruct (String.eqb syntax "1.2.840.10008.1.2.2"); [done|].
    destruct (isJpegBaselineTransferSyntax syntax).
    { by destruct (String.eqb syntax "1.2.840.10008.1.2.4.50"). }
    destruct (isJpegLosslessTransferSyntax syntax).
    { by destruct (String.eqb syntax "1.2.840.10008.1.2.4.57"). }
    destruct (DicomParser.isJpegRetiredTransferSyntax syntax); [done|].
    destruct (DicomParser.isJpeglsTransferSyntax syntax); [done|].
    destruct (isJpeg2000TransferSyntax syntax); [|done].
    by destruct (String.eqb syntax "1.2.840.10008.1.2.4.91").
  - revert H. unfold isReadSupportedTransferSyntax, Syntax.getSyntaxDecompressionName.
    destruct (String.eqb_spec syntax "1.2.840.10008.1.2"); [auto|].
    destruct (String.eqb_spec syntax "1.2.840.10008.1.2.1"); [auto|].
    destruct (String.eqb_spec syntax "1.2.840.10008.1.2.2"); [auto|].
    destruct (isJpeg2000TransferSyntax syntax); [eauto 10|].
    destruct (isJpegBaselineTransferSyntax syntax); [eauto 10|].
    destruct (isJpegLosslessTransferSyntax syntax); [eauto 10|done].
  - intros els s. unfold DicomParser.readSyntax.
    destruct (get "x00020010" els) as [e|]; [|done].
    destruct (index0 (value e)) as [v|]; [|done]. cbn [mbind result_bind].
    destruct (DicomParser.cleanStringV v) as [v'|]; [|done]. cbn [mbind result_bind].
    destruct v'; try done.
    destruct (isReadSupportedTransferSyntax s0) eqn:E; [|done]. by intros [= <-].
Qed.

Lemma supported_syntax_is_named_witness :
  DicomParser.getTransferSyntaxName "1.2.840.10008.1.2.4.70" <> "Unknown" /\
  ("1.2.840.10008.1.2.4.70" = "1.2.840.10008.1.2"
   \/ "1.2.840.10008.1.2.4.70" = "1.2.840.10008.1.2.1"
   \/ "1.2.840.10008.1.2.4.70" = "1.2.840.10008.1.2.2"
   \/ exists algo, Syntax.getSyntaxDecompressionName "1.2.840.10008.1.2.4.70" = Some algo) /\
  forall els s, DicomParser.readSyntax els = Ok s -> isReadSupportedTransferSyntax s = true.
Proof.
  apply (supported_syntax_is_named "1.2.840.10008.1.2.4.70"). reflexivity.
Defined.

Lemma matches_app_l pat pre s : JS.matches pat s = true -> JS.matches pat (pre ++ s) = true.
Proof.
  intros H. induction pre as [|c pre IH]; [done|].
  change (String c pre ++ s)%string with (String c (pre ++ s)%string).
  cbn [JS.matches]. rewrite IH. apply orb_true_r.
Qed.

Lemma matchHere_app_r pat s post :
  JS.matchHere pat s = true -> JS.matchHere pat (s ++ post) = true.
Proof.
  revert s. induction pat as [|p pat IH]; intros s; [done|].
  destruct s as [|c s]; [done|]. change (String c s ++ post)%string with (String c (s ++ post)%string).
  cbn [JS.matchHere].
  intros [-> H]%andb_true_iff. by rewrite IH.
Qed.

Lemma matches_here pat s : JS.matchHere pat s = true -> JS.matches pat s = true.
Proof. intros H. destruct s; simpl; rewrite H; done. Qed.

(** X11: the test of the JPEG 2000 syntaxes looks for its pattern
    anywhere in the text, so that every text that holds
    1.2.840.10008.1.2.4.9 is a JPEG 2000 syntax: such a text is supported
    for reading and its decompression name is jpeg2000, whatever comes
    before and after. *)
Theorem jpeg2000_test_is_not_anchored pre post :
  let syntax := (pre ++ "1.2.840.10008.1.2.4.9" ++ post)%string in
  isJpeg2000TransferSyntax syntax = true /\
  isReadSupportedTransferSyntax syntax = true /\
  Syntax.getSyntaxDecompressionName syntax = Some "jpeg2000".
Proof.
  intros syntax.
  assert (H : isJpeg2000TransferSyntax syntax = true).
  { unfold isJpeg2000TransferSyntax, syntax. apply matches_app_l, matches_here.
    apply matchHere_app_r. reflexivity. }
  split; [done|]. split.
  - unfold isReadSupportedTransferSyntax. rewrite H. by rewrite !orb_true_r.
  - unfold Syntax.getSyntaxDecompressionName. by rewrite H.
Qed.

End Syntaxes.

Section Names.
Import Dicom.

Lemma scanElements_none tagName els element :
  (forall e entry, (e, entry) ∈ els -> entry_keyword entry <> tagName) ->
  scanElements tagName els element
  = (match last els with Some p => Some p.1 | None => element end, false).
Proof.
  revert element. induction els as [|[e entry] els IH]; intros element H; [done|].
  cbn [scanElements].
  destruct (String.eqb_spec (entry_keyword entry) tagName) as [Heq|_].
  { exfalso. by apply (H e entry); [left|]. }
  rewrite IH by (intros e' entry' Hin; apply (H e' entry'); by right).
  destruct els as [|p els]; [reflexivity|]. rewrite last_cons_cons.
  destruct (last (p :: els)) eqn:E; [done|]. by apply last_None in E.
Qed.

Lemma scanElements_found tagName es1 e entry es2 element :
  (forall e' entry', (e', entry') ∈ es1 -> entry_keyword entry' <> tagName) ->
  entry_keyword entry = tagName ->
  scanElements tagName (es1 ++ (e, entry) :: es2) element = (Some e, true).
Proof.
  revert element. induction es1 as [|[e1 entry1] es1 IH]; intros element H Hk.
  - cbn [app scanElements]. by rewrite Hk, String.eqb_refl.
  - cbn [app scanElements].
    destruct (String.eqb_spec (entry_keyword entry1) tagName) as [Heq|_].
    { exfalso. by apply (H e1 entry1); [left|]. }
    apply IH; [|done]. intros e' entry' Hin. apply (H e' entry'). by right.
Qed.

Lemma scanGroups_found tagName gs1 g es1 e entry es2 gs2 group element :
  (forall g' es' e' entry',
     (g', es') ∈ gs1 -> (e', entry') ∈ es' -> entry_keyword entry' <> tagName) ->
  (forall e' entry', (e', entry') ∈ es1 -> entry_keyword entry' <> tagName) ->
  entry_keyword entry = tagName ->
  scanGroups tagName (gs1 ++ (g, es1 ++ (e, entry) :: es2) :: gs2) group element
  = (Some g, Some e).
Proof.
  revert group element. induction gs1 as [|[g1 els1] gs1 IH]; intros group element H1 H2 Hk.
  - cbn [app scanGroups]. by rewrite scanElements_found.
  - cbn [app scanGroups].
    rewrite scanElements_none by (intros e' entry' Hin; apply (H1 g1 els1 e' entry'); [by left|done]).
    apply IH; [|done|done].
    intros g' es' e' entry' Hg. apply (H1 g' es' e' entry'). by right.
Qed.

Lemma scanGroups_none tagName gs g es e entry group element :
  (forall g' es' e' entry',
     (g', es') ∈ gs ++ [(g, es ++ [(e, entry)])] -> (e', entry') ∈ es' ->
     entry_keyword entry' <> tagName) ->
  scanGroups tagName (gs ++ [(g, es ++ [(e, entry)])]) group element = (Some g, Some e).
Proof.
  revert group element. induction gs as [|[g1 els1] gs IH]; intros group element H.
  - cbn [app scanGroups].
    rewrite scanElements_none
      by (intros e' entry' Hin; apply (H g (es ++ [(e, entry)]) e' entry'); [by left|done]).
    by rewrite last_snoc.
  - cbn [app scanGroups].
    rewrite scanElements_none
      by (intros e' entry' Hin; apply (H g1 els1 e' entry'); [by left|done]).
    apply IH. intros g' es' e' entry' Hg. apply (H g' es' e' entry'). by right.
Qed.

Lemma no_keyword_in_groups tagName (gs : list (string * list (string * DictEntry))) :
  forallb (fun p => forallb (fun q => negb (String.eqb (entry_keyword q.2) tagName)) p.2) gs
  = true ->
  forall g' es' e' entry',
    (g', es') ∈ gs -> (e', entry') ∈ es' -> entry_keyword entry' <> tagName.
Proof.
  rewrite forallb_forall. intros H g' es' e' entry' Hg He.
  specialize (H (g', es')). rewrite <- list_elem_of_In in H. specialize (H Hg).
  rewrite forallb_forall in H. specialize (H (e', entry')).
  rewrite <- list_elem_of_In in H. specialize (H He). simpl in H.
  apply negb_true_iff in H. by apply String.eqb_neq.
Qed.

(** X12: [getGroupElementFromName] answers with the first entry
    of the dictionary, in the order of its keys, that has the name as its
    keyword, and [getFromName] of the wrapper is [getFromKey] for the key
    of that entry. *)
Theorem name_is_found_in_the_dictionary tb m tagName gs1 g es1 e entry es2 gs2 :
  dictionary tb = gs1 ++ (g, es1 ++ (e, entry) :: es2) :: gs2 ->
  entry_keyword entry = tagName ->
  (forall g' es' e' entry',
     (g', es') ∈ gs1 -> (e', entry') ∈ es' -> entry_keyword entry' <> tagName) ->
  (forall e' entry', (e', entry') ∈ es1 -> entry_keyword entry' <> tagName) ->
  getGroupElementFromName tb tagName = (Some g, Some e) /\
  DicomElementsWrapper.getFromName tb m tagName
  = DicomElementsWrapper.getFromKey m (getGroupElementKey g e) false.
Proof.
  intros Hd Hk H1 H2.
  assert (H : getGroupElementFromName tb tagName = (Some g, Some e)).
  { unfold getGroupElementFromName. rewrite Hd. by apply scanGroups_found. }
  split; [done|]. unfold DicomElementsWrapper.getFromName. by rewrite H.
Qed.

(** X13: for a name that no entry of the dictionary has as its
    keyword, [getGroupElementFromName] answers with the last group and the
    last element of the dictionary, not with [null], so that [getFromName]
    of the wrapper answers with the value of the last tag of the
    dictionary. *)
Theorem unknown_name_is_the_last_entry tb m tagName gs g es e entry :
  dictionary tb = gs ++ [(g, es ++ [(e, entry)])] ->
  (forall g' es' e' entry',
     (g', es') ∈ dictionary tb -> (e', entry') ∈ es' -> entry_keyword entry' <> tagName) ->
  getGroupElementFromName tb tagName = (Some g, Some e) /\
  DicomElementsWrapper.getFromName tb m tagName
  = DicomElementsWrapper.getFromKey m (getGroupElementKey g e) false.
Proof.
  intros Hd Hn.
  assert (H : getGroupElementFromName tb tagName = (Some g, Some e)).
  { unfold getGroupElementFromName. rewrite Hd. apply scanGroups_none. by rewrite <- Hd. }
  split; [done|]. unfold DicomElementsWrapper.getFromName. by rewrite H.
Qed.

End Names.

(** The patient name is the only entry of its group in [exampleTables]. *)
Lemma name_is_found_in_the_dictionary_witness :
  Dicom.getGroupElementFromName exampleTables "PatientName" = (Some "0x0010", Some "0x0010") /\
  DicomElementsWrapper.getFromName exampleTables studyElements "PatientName"
  = DicomElementsWrapper.getFromKey studyElements
      (Dicom.getGroupElementKey "0x0010" "0x0010") false.
Proof.
  apply (name_is_found_in_the_dictionary exampleTables studyElements "PatientName"
           (take 2 (Dicom.dictionary exampleTables)) "0x0010" [] "0x0010"
           (Dicom.Build_DictEntry "PN" "1" "PatientName") []
           (drop 3 (Dicom.dictionary exampleTables))).
  - reflexivity.
  - reflexivity.
  - apply no_keyword_in_groups. vm_compute. reflexivity.
  - intros e' entry' Hin. by apply elem_of_nil in Hin.
Defined.

(** The last entry of [exampleTables] is the one of the pixel data. *)
Lemma unknown_name_is_the_last_entry_witness :
  Dicom.getGroupElementFromName exampleTables "NoSuchName" = (Some "0x7FE0", Some "0x0010") /\
  DicomElementsWrapper.getFromName exampleTables twoFramesElements "NoSuchName"
  = DicomElementsWrapper.getFromKey twoFramesElements
      (Dicom.getGroupElementKey "0x7FE0" "0x0010") false.
Proof.
  apply (unknown_name_is_the_last_entry exampleTables twoFramesElements "NoSuchName"
           (take 4 (Dicom.dictionary exampleTables)) "0x7FE0" [] "0x0010"
           (Dicom.Build_DictEntry "ox" "1" "PixelData")).
  - reflexivity.
  - apply no_keyword_in_groups. vm_compute. reflexivity.
Defined.
(** ** Geometry and image: offsets, slice index, rescaled values, data range, appended slices *)

Section GeometryFacts.
Import Math.
Import Geometry.

(** X14: for an index within the bounds of the size, [indexToOffset]
    is an offset from 0 to the total size, excluded, and two indices
    within the bounds that have the same offset are the same; [getValue]
    of an image whose frame holds as many values as the total size
    returns the value at that offset. *)
Theorem offsets_within_bounds (img : Image.t) (f : nat) kind data i j k :
  let g := Image.getGeometry img in
  isInBounds (getSize g) i j k = true ->
  Image.getBuffer img !! f = Some (kind, data) ->
  Z.of_nat (length data) = getTotalSize (getSize g) ->
  0 <= indexToOffset g i j k < getTotalSize (getSize g) /\
  (forall i' j' k', isInBounds (getSize g) i' j' k' = true ->
     indexToOffset g i j k = indexToOffset g i' j' k' -> i = i' /\ j = j' /\ k = k') /\
  exists v, Image.getValue img i j k f = Ok (Some v) /\
            data !! Z.to_nat (indexToOffset g i j k) = Some v.
Proof.
  intros g Hb Hf Hlen.
  assert (Hin : forall i j k, isInBounds (getSize g) i j k = true ->
            0 <= i <= getNumberOfColumns (getSize g) - 1 /\
            0 <= j <= getNumberOfRows (getSize g) - 1 /\
            0 <= k <= getNumberOfSlices (getSize g) - 1).
  { intros a b c. unfold isInBounds. rewrite negb_true_iff, !orb_false_iff.
    intros [[[[[H1 H2] H3] H4] H5] H6]. lia. }
  pose proof (Hin _ _ _ Hb) as (Hi & Hj & Hk).
  assert (Hoff : 0 <= indexToOffset g i j k < getTotalSize (getSize g)).
  { unfold indexToOffset, getTotalSize, getSliceSize.
    set (C := getNumberOfColumns (getSize g)) in *.
    set (R := getNumberOfRows (getSize g)) in *.
    set (S := getNumberOfSlices (getSize g)) in *.
    assert (0 <= j * C <= (R - 1) * C) by nia.
    assert (0 <= k * (C * R) <= (S - 1) * (C * R)) by nia.
    assert ((R - 1) * C = C * R - C) by ring.
    assert ((S - 1) * (C * R) = C * R * S - C * R) by ring.
    lia. }
  split; [done|]. split.
  - intros i' j' k' Hb'. pose proof (Hin _ _ _ Hb') as (Hi' & Hj' & Hk').
    unfold indexToOffset, getSliceSize.
    set (C := getNumberOfColumns (getSize g)) in *.
    set (R := getNumberOfRows (getSize g)) in *.
    intros Heq.
    assert (Hrow : forall a b, 0 <= a <= C - 1 -> 0 <= b <= R - 1 -> 0 <= a + b * C < C * R).
    { intros a b Ha Hb1. assert (0 <= b * C <= (R - 1) * C) by nia.
      assert ((R - 1) * C = C * R - C) by ring. lia. }
    pose proof (Hrow i j Hi Hj). pose proof (Hrow i' j' Hi' Hj').
    assert (k = k') by nia. subst k'.
    assert (j = j') by nia. subst j'. split; [lia|done].
  - unfold Image.getValue, Image.getValueAtOffset. fold g. rewrite Hf.
    cbn [of_option mbind result_bind snd].
    destruct (indexToOffset g i j k <? 0) eqn:E; [lia|].
    destruct (data !! Z.to_nat (indexToOffset g i j k)) as [v|] eqn:Hv; [by exists v|].
    apply lookup_ge_None in Hv. lia.
Qed.

Lemma closest_spec point l : forall i m c,
  let c' := closest point l i m c in
  (c' = c /\ forall o, o ∈ l -> m <= getDistance point o) \/
  (exists o, l !! (c' - i)%nat = Some o /\ (i <= c')%nat /\ getDistance point o < m /\
             forall o', o' ∈ l -> getDistance point o <= getDistance point o').
Proof.
  induction l as [|o l IH]; intros i m c; cbn [closest].
  - left. split; [done|]. intros o Hin. by apply elem_of_nil in Hin.
  - destruct (getDistance point o <? m) eqn:E.
    + apply Z.ltb_lt in E.
      destruct (IH (S i) (getDistance point o) i) as [[Hc Hall]|(o1 & Hl & Hi & Hd & Hall)].
      * right. exists o. cbv zeta in Hc. rewrite Hc, Nat.sub_diag.
        split; [done|]. split; [done|]. split; [done|].
        intros o' [->|Hin]%elem_of_cons; [lia|by apply Hall].
      * right. exists o1. cbv zeta in Hl, Hi.
        replace (closest point l (S i) (getDistance point o) i - i)%nat
          with (S (closest point l (S i) (getDistance point o) i - S i)) by lia.
        split; [done|]. split; [lia|]. split; [lia|].
        intros o' [->|Hin]%elem_of_cons; [lia|by apply Hall].
    + apply Z.ltb_ge in E.
      destruct (IH (S i) m c) as [[Hc Hall]|(o1 & Hl & Hi & Hd & Hall)].
      * left. split; [done|].
        intros o' [->|Hin]%elem_of_cons; [lia|by apply Hall].
      * right. exists o1. cbv zeta in Hl, Hi.
        replace (closest point l (S i) m c - i)%nat
          with (S (closest point l (S i) m c - S i)) by lia.
        split; [done|]. split; [lia|]. split; [lia|].
        intros o' [->|Hin]%elem_of_cons; [lia|by apply Hall].
Qed.

(** X15: the index that [getSliceIndex] returns is the index of
    an origin that is as close to the point as any origin of the
    geometry, or the index after it when the point is on the side of
    the normal of the slices; it is at most the number of origins. *)
Theorem slice_index_is_next_to_the_closest g point n :
  getSliceIndex g point = Ok n ->
  exists c o,
    getOrigins g !! c = Some o /\
    (forall o', o' ∈ getOrigins g -> getDistance point o <= getDistance point o') /\
    n = (if 0 <? dotProduct (row2 (getOrientation g)) (minus point o) then S c else c) /\
    (n <= length (getOrigins g))%nat.
Proof.
  unfold getSliceIndex.
  destruct (getOrigins g !! 0%nat) as [first|] eqn:H0; [|done].
  cbn [of_option mbind result_bind].
  set (c := closest point (getOrigins g) 0 (getDistance point first) 0).
  destruct (getOrigins g !! c) as [o|] eqn:Hc; [|done].
  cbn [of_option mbind result_bind]. intros [= <-].
  exists c, o. split; [done|]. split; [|split; [done|]].
  - destruct (closest_spec point (getOrigins g) 0 (getDistance point first) 0)
      as [[Hc0 Hall]|(o1 & Hl & _ & Hd & Hall)]; fold c in Hc0 || fold c in Hl.
    + rewrite Hc0 in Hc. rewrite H0 in Hc. injection Hc as <-. done.
    + rewrite Nat.sub_0_r in Hl. rewrite Hc in Hl. injection Hl as <-. done.
  - apply lookup_lt_Some in Hc. destruct (0 <? _); lia.
Qed.

End GeometryFacts.

(** A slice of two pixels: the offsets of its two indices. *)
Lemma offsets_within_bounds_witness :
  0 <= Geometry.indexToOffset (Image.getGeometry (sliceAt 0 [7; 9])) 1 0 0
    < Geometry.getTotalSize (Geometry.getSize (Image.getGeometry (sliceAt 0 [7; 9]))) /\
  (forall i' j' k',
     Geometry.isInBounds (Geometry.getSize (Image.getGeometry (sliceAt 0 [7; 9]))) i' j' k'
     = true ->
     Geometry.indexToOffset (Image.getGeometry (sliceAt 0 [7; 9])) 1 0 0
     = Geometry.indexToOffset (Image.getGeometry (sliceAt 0 [7; 9])) i' j' k' ->
     1 = i' /\ 0 = j' /\ 0 = k') /\
  exists v, Image.getValue (sliceAt 0 [7; 9]) 1 0 0 0 = Ok (Some v) /\
            [7; 9] !! Z.to_nat (Geometry.indexToOffset (Image.getGeometry (sliceAt 0 [7; 9])) 1 0 0)
            = Some v.
Proof.
  apply (offsets_within_bounds (sliceAt 0 [7; 9]) 0 Uint8Array [7; 9] 1 0 0); reflexivity.
Defined.

(** The slice of [sliceAt 0] and a point above it. *)
Lemma slice_index_is_next_to_the_closest_witness :
  exists c o,
    Geometry.getOrigins (Image.getGeometry (sliceAt 0 [7; 9])) !! c = Some o /\
    (forall o', o' ∈ Geometry.getOrigins (Image.getGeometry (sliceAt 0 [7; 9])) ->
       Math.getDistance {| Math.getX := 0; Math.getY := 0; Math.getZ := 3 |} o
       <= Math.getDistance {| Math.getX := 0; Math.getY := 0; Math.getZ := 3 |} o') /\
    1%nat = (if 0 <? Math.dotProduct
                      (Math.row2 (Geometry.getOrientation (Image.getGeometry (sliceAt 0 [7; 9]))))
                      (Math.minus {| Math.getX := 0; Math.getY := 0; Math.getZ := 3 |} o)
             then S c else c) /\
    (1 <= length (Geometry.getOrigins (Image.getGeometry (sliceAt 0%Z [7%Z; 9%Z]))))%nat.
Proof.
  apply (slice_index_is_next_to_the_closest (Image.getGeometry (sliceAt 0 [7; 9]))
           {| Math.getX := 0; Math.getY := 0; Math.getZ := 3 |} 1).
  reflexivity.
Defined.

Section ImageFacts.
Import Image.
Import ImageRange.

Lemma allConstant_spec l :
  allConstant l = true <-> forall a b, a ∈ l -> b ∈ l -> a = b.
Proof.
  assert (Heq : forall a b, equals a b = true <-> a = b).
  { intros [s1 i1] [s2 i2]. unfold equals. simpl. rewrite andb_true_iff, !Z.eqb_eq.
    split; [by intros [-> ->]|by intros [= -> ->]]. }
  induction l as [|a [|b l] IH].
  - split; [|done]. intros _ a b Ha. by apply elem_of_nil in Ha.
  - split; [|done]. intros _ x y ->%list_elem_of_singleton ->%list_elem_of_singleton. done.
  - cbn [allConstant]. rewrite andb_true_iff, Heq, IH. split.
    + intros [-> Hl] x y [->|Hx]%elem_of_cons [->|Hy]%elem_of_cons; try done.
      * apply Hl; [by left|done].
      * apply Hl; [done|by left].
      * by apply Hl.
    + intros H. split.
      * apply H; [right; by left|by left].
      * intros x y Hx Hy. apply H; by right.
Qed.


Lemma range_fold img kind data :
  getBuffer img !! 0%nat = Some (kind, data) ->
  forall n s lo hi,
    (s + n <= length data)%nat ->
    exists lo' hi',
      foldM (fun '(min, max) i =>
               value ← getValueAtOffset img (Z.of_nat i) 0;
               let max := if gt value max then value else max in
               let min := if lt value min then value else min in
               Ok (min, max))
            (Some lo, Some hi) (seq s n) = Ok (Some lo', Some hi') /\
      lo' <= lo /\ hi <= hi' /\
      (forall i v, (s <= i < s + n)%nat -> data !! i = Some v -> lo' <= v <= hi') /\
      (lo' = lo \/ exists i, (s <= i < s + n)%nat /\ data !! i = Some lo') /\
      (hi' = hi \/ exists i, (s <= i < s + n)%nat /\ data !! i = Some hi').
Proof.
  intros Hf.
  assert (Hget : forall i, getValueAtOffset img (Z.of_nat i) 0 = Ok (data !! i)).
  { intros i. unfold getValueAtOffset. rewrite Hf. cbn [of_option mbind result_bind snd].
    destruct (Z.ltb_spec (Z.of_nat i) 0); [exfalso; lia|]. by rewrite Nat2Z.id. }
  induction n as [|n IH]; intros s lo hi Hle.
  - exists lo, hi. cbn [seq foldM].
    split; [done|]. split; [lia|]. split; [lia|]. split; [|by split; left].
    intros i v Hi. lia.
  - cbn [seq foldM]. rewrite (Hget s).
    destruct (data !! s) as [v|] eqn:Hv; [|apply lookup_ge_None in Hv; lia].
    cbn [mbind result_bind gt lt].
    destruct (IH (S s) (if v <? lo then v else lo) (if hi <? v then v else hi) ltac:(lia))
      as (lo' & hi' & Hfold & Hlo & Hhi & Hall & Hmin & Hmax).
    exists lo', hi'.
    split.
    { destruct (hi <? v), (v <? lo); exact Hfold. }
    assert (Hlo2 : lo' <= lo /\ lo' <= v) by (destruct (Z.ltb_spec v lo); lia).
    assert (Hhi2 : hi <= hi' /\ v <= hi') by (destruct (Z.ltb_spec hi v); lia).
    split; [lia|]. split; [lia|]. split; [|split].
    + intros i w Hi Hw. destruct (decide (i = s)) as [->|Hne].
      * rewrite Hv in Hw. injection Hw as <-. lia.
      * apply (Hall i w); [lia|done].
    + destruct Hmin as [->|(i & Hi & Hd)].
      * destruct (Z.ltb_spec v lo); [right; exists s; split; [lia|done]|by left].
      * right. exists i. split; [lia|done].
    + destruct Hmax as [->|(i & Hi & Hd)].
      * destruct (Z.ltb_spec hi v); [right; exists s; split; [lia|done]|by left].
      * right. exists i. split; [lia|done].
Qed.

Lemma calculateDataRange_spec img kind data :
  let size := Z.to_nat (Geometry.getTotalSize (Geometry.getSize (getGeometry img))) in
  getBuffer img !! 0%nat = Some (kind, data) ->
  (0 < size <= length data)%nat ->
  exists lo hi,
    calculateDataRange img = Ok (Some lo, Some hi) /\
    lo ∈ take size data /\ hi ∈ take size data /\
    forall v, v ∈ take size data -> lo <= v <= hi.
Proof.
  intros size Hf Hsize.
  destruct (data !! 0%nat) as [d0|] eqn:Hd0; [|apply lookup_ge_None in Hd0; lia].
  destruct (range_fold img kind data Hf size 0 d0 d0 ltac:(lia))
    as (lo & hi & Hfold & Hlo & Hhi & Hall & Hmin & Hmax).
  exists lo, hi. split; [|split; [|split]].
  - unfold calculateDataRange.
    assert (Hget : getValueAtOffset img 0 0 = Ok (Some d0)).
    { unfold getValueAtOffset. rewrite Hf. cbn [of_option mbind result_bind snd].
      change (0 <? 0) with false. cbv iota. change (Z.to_nat 0) with 0%nat. by rewrite Hd0. }
    rewrite Hget. cbn [mbind result_bind]. exact Hfold.
  - apply list_elem_of_lookup.
    destruct Hmin as [->|(i & Hi & Hd)].
    + exists 0%nat. rewrite lookup_take_lt by lia. done.
    + exists i. rewrite lookup_take_lt by lia. done.
  - apply list_elem_of_lookup.
    destruct Hmax as [->|(i & Hi & Hd)].
    + exists 0%nat. rewrite lookup_take_lt by lia. done.
    + exists i. rewrite lookup_take_lt by lia. done.
  - intros v [i Hi]%list_elem_of_lookup.
    assert (i < size)%nat by (apply lookup_lt_Some in Hi; rewrite length_take in Hi; lia).
    rewrite lookup_take_lt in Hi by done. apply (Hall i v); [lia|done].
Qed.



End ImageFacts.




Section Append.
Import Image.

Lemma typedSet_Ok k dest src off b :
  typedSet k dest src off = Ok b ->
  (off + length src <= length dest)%nat /\ length b = length dest /\
  b = take off dest ++ (wrap k <$> src) ++ drop (off + length src) dest.
Proof.
  unfold typedSet. case_decide as Hle; [|done]. intros [= <-].
  split; [done|]. split; [|done].
  rewrite !length_app, length_take, length_fmap, length_drop. lia.
Qed.


End Append.

(** ** Frames, anonymisation rules and padding *)

Section Frames2.
Import Dicom.

Lemma mapM_total {A B} (f : A -> result B) (g : A -> B) (l : list A) :
  (forall x, x ∈ l -> f x = Ok (g x)) -> mapM f l = Ok (g <$> l).
Proof.
  induction l as [|x l IH]; intros H; [done|].
  cbn [mapM]. rewrite (H x) by (by left). cbn [mbind result_bind].
  rewrite IH by (intros y Hy; apply H; by right). done.
Qed.

Lemma typedSet_fits k dest src off :
  (off + length src <= length dest)%nat ->
  typedSet k dest src off
  = Ok (take off dest ++ (wrap k <$> src) ++ drop (off + length src) dest).
Proof. intros H. unfold typedSet. by rewrite decide_True. Qed.

Lemma flatten_fold k sz (chunks : list (list Z)) base (filled : list Z) :
  Forall (fun c => length c = sz) chunks -> length filled = (base * sz)%nat ->
  foldM (fun data '(i, x) =>
           match x with
           | JTypedArray _ d => typedSet k data d (i * sz)
           | JUndefined | JNull => Throw TypeError
           | _ => Throw Unmodelled
           end)
        (filled ++ replicate (length chunks * sz) 0)
        (imap (fun i x => ((base + i)%nat, x)) (JTypedArray k <$> chunks))
  = Ok (filled ++ (wrap k <$> concat chunks)).
Proof.
  revert base filled. induction chunks as [|c chunks IH]; intros base filled Hall Hf.
  - simpl. by rewrite app_nil_r.
  - apply Forall_cons in Hall as [Hc Hall].
    rewrite fmap_cons. cbn [imap foldM]. rewrite Nat.add_0_r.
    rewrite typedSet_fits by (rewrite length_app, length_replicate; cbn [length]; lia).
    cbn [mbind result_bind].
    rewrite take_app_length' by lia.
    rewrite drop_app_ge by lia.
    replace (base * sz + length c - length filled)%nat with sz by lia.
    cbn [length]. replace (S (length chunks) * sz)%nat with (sz + length chunks * sz)%nat by lia.
    rewrite replicate_add, drop_app_length' by (by rewrite length_replicate).
    specialize (IH (S base) (filled ++ (wrap k <$> c)) Hall).
    rewrite length_app, length_fmap in IH. specialize (IH ltac:(lia)).
    rewrite <- app_assoc in IH.
    erewrite imap_ext; [rewrite IH|].
    + cbn [concat]. by rewrite fmap_app, app_assoc.
    + intros i x _. simpl. f_equal. lia.
Qed.

Lemma flatten_chunks k sz c rest :
  Forall (fun c => length c = sz) (c :: rest) ->
  DataWriter.flattenArrayOfTypedArrays (JTypedArray k <$> (c :: rest))
  = Ok (JTypedArray k (wrap k <$> concat (c :: rest))).
Proof.
  intros Hall. pose proof (Forall_inv Hall) as Hc. simpl in Hc.
  pose proof (flatten_fold k sz (c :: rest) 0 [] Hall eq_refl) as Hfold.
  rewrite app_nil_l in Hfold.
  unfold DataWriter.flattenArrayOfTypedArrays. rewrite fmap_cons.
  change (JTypedArray k c :: (JTypedArray k <$> rest)) with (JTypedArray k <$> (c :: rest)).
  rewrite Hc, length_fmap.
  erewrite imap_ext in Hfold; [rewrite Hfold|intros i x _; reflexivity].
  cbn [mbind result_bind]. by rewrite app_nil_l.
Qed.

(** X20: the frames into which [parse] slices pixel data of whole
    frames are put together again by [flattenArrayOfTypedArrays], the
    function of the writer for pixel data: the numbers of the pixel data,
    converted to the kind of the array. *)
Theorem sliced_frames_are_flattened_back k d sliceSize numberOfFrames frames :
  0 < sliceSize -> 0 < numberOfFrames ->
  Z.of_nat (length d) = numberOfFrames * sliceSize ->
  DicomParser.sliceFrames (JTypedArray k d) (Some sliceSize) (Some numberOfFrames) = Ok frames ->
  length frames = Z.to_nat numberOfFrames /\
  (forall g, (g < Z.to_nat numberOfFrames)%nat ->
     frames !! g = Some (JTypedArray k (take (Z.to_nat sliceSize) (drop (g * Z.to_nat sliceSize) d)))) /\
  DataWriter.flattenArrayOfTypedArrays frames = Ok (JTypedArray k (wrap k <$> d)).
Proof.
  intros Hs Hn Hlen.
  set (sz := Z.to_nat sliceSize). set (n := Z.to_nat numberOfFrames).
  set (chunk := fun g : nat => take sz (drop (g * sz) d)).
  assert (Hf : DicomParser.sliceFrames (JTypedArray k d) (Some sliceSize) (Some numberOfFrames)
               = Ok ((fun g => JTypedArray k (chunk g)) <$> seq 0 n)).
  { unfold DicomParser.sliceFrames. apply mapM_total. intros g _.
    cbn [DicomParser.mulNum DicomParser.addNum mbind option_bind DicomParser.slice].
    by rewrite sliceList_window by lia. }
  rewrite Hf. intros [= <-].
  split; [by rewrite length_fmap, length_seq|]. split.
  { intros g Hg. rewrite list_lookup_fmap, lookup_seq_lt by done. done. }
  assert (Hn1 : (0 < n)%nat) by (unfold n; lia).
  assert (Hchunks : Forall (fun c => length c = sz) (chunk <$> seq 0 n)).
  { apply Forall_fmap, Forall_forall. intros g Hg%elem_of_seq. unfold chunk. simpl.
    rewrite length_take, length_drop. unfold sz, n in *. nia. }
  assert (Hcat : concat (chunk <$> seq 0 n) = d).
  { unfold chunk. apply (concat_chunks sz n d). unfold sz, n. nia. }
  rewrite (list_fmap_compose chunk (JTypedArray k)).
  destruct (chunk <$> seq 0 n) as [|c rest] eqn:Ec.
  { apply (f_equal length) in Ec. rewrite length_fmap, length_seq in Ec. simpl in Ec. lia. }
  rewrite (flatten_chunks k sz c rest Hchunks). by rewrite Hcat.
Qed.
End Frames2.

(** Two frames of two pixels. *)
Lemma sliced_frames_are_flattened_back_witness :
  length [Dicom.JTypedArray Uint8Array [1; 2]; Dicom.JTypedArray Uint8Array [3; 4]]
  = Z.to_nat 2 /\
  (forall g, (g < Z.to_nat 2)%nat ->
     [Dicom.JTypedArray Uint8Array [1; 2]; Dicom.JTypedArray Uint8Array [3; 4]] !! g
     = Some (Dicom.JTypedArray Uint8Array
               (take (Z.to_nat 2) (drop (g * Z.to_nat 2) [1; 2; 3; 4])))) /\
  DataWriter.flattenArrayOfTypedArrays
    [Dicom.JTypedArray Uint8Array [1; 2]; Dicom.JTypedArray Uint8Array [3; 4]]
  = Ok (Dicom.JTypedArray Uint8Array (wrap Uint8Array <$> [1; 2; 3; 4])).
Proof.
  apply (sliced_frames_are_flattened_back Uint8Array [1; 2; 3; 4] 2 2); try lia; reflexivity.
Defined.

Section Anonymisation.
Import Dicom.
Import DicomWriter.
Context (tb : Tables).

(** X21: with the anonymisation rules, for an element whose key
    is not the name of a rule: the element with the keyword PatientName
    and an array as its value is written with Anonymized as its first
    value, the length 10 and its end 10 after its start; an element whose keyword is not
    the name of a rule is written as it is when the name of its group is
    Meta Element, Acquisition, Image Presentation, Procedure or Pixel
    Data, and is not written when the name of its group is not the name
    of a rule. *)
Theorem anonymisation_rules_effect e key :
  name (tag e) = Some key -> anonymisationRules !! key = None ->
  let keyword := entry_keyword <$> lookupDict tb (group (tag e)) (element (tag e)) in
  let groupName := default "undefined" (groupNameOf tb e) in
  (keyword = Some "PatientName" ->
   forall x r, value e = JArray (x :: r) ->
   let e' := mkElement (tag e) (vr e) (VLnum 10) (JArray (JString "Anonymized" :: r))
                       (startOffset e) (startOffset e + 10) in
   getElementToWrite tb anonymisationRules e = Ok (e', Some e')) /\
  ((forall n, keyword = Some n -> anonymisationRules !! n = None) ->
   (groupName ∈ ["Meta Element"; "Acquisition"; "Image Presentation"; "Procedure"; "Pixel Data"] ->
    getElementToWrite tb anonymisationRules e = Ok (e, Some e)) /\
   (anonymisationRules !! groupName = None ->
    getElementToWrite tb anonymisationRules e = Ok (e, None))).
Proof.
  intros Hname Hkey keyword groupName.
  unfold getElementToWrite, selectRule. fold keyword groupName.
  rewrite Hname. change (default "undefined" (Some key)) with key. rewrite Hkey.
  split.
  - intros -> x r Hv. cbn [mbind option_bind].
    change (of_option TypeError _ ≫= _) with (replace e (JString "Anonymized")).
    unfold replace. rewrite Hv. reflexivity.
  - intros Hkw.
    assert (Hk : keyword ≫= (fun n => anonymisationRules !! n) = None).
    { destruct keyword as [n|]; [|done]. cbn [mbind option_bind]. by apply Hkw. }
    rewrite Hk. split.
    + intros Hg. repeat (apply elem_of_cons in Hg as [->|Hg]); try reflexivity.
      by apply elem_of_nil in Hg.
    + intros ->. reflexivity.
Qed.

End Anonymisation.

(** The patient name of [patientFile], with the dictionary of the examples. *)
Lemma anonymisation_rules_effect_witness :
  DicomWriter.getElementToWrite exampleTables DicomWriter.anonymisationRules
    (patientName "DOE^JOHN" 188)
  = Ok (Dicom.mkElement (Dicom.tag (patientName "DOE^JOHN" 188)) "PN" (Dicom.VLnum 10)
          (Dicom.JArray [Dicom.JString "Anonymized"]) 180 190,
        Some (Dicom.mkElement (Dicom.tag (patientName "DOE^JOHN" 188)) "PN" (Dicom.VLnum 10)
          (Dicom.JArray [Dicom.JString "Anonymized"]) 180 190)).
Proof.
  exact (proj1 (anonymisation_rules_effect exampleTables (patientName "DOE^JOHN" 188)
                  "x00100010" eq_refl eq_refl) eq_refl (Dicom.JString "DOE^JOHN") [] eq_refl).
Defined.

Section Cleaning.
Import Dicom.

Lemma append_cons c s t : (String c s ++ t)%string = String c (s ++ t)%string.
Proof. reflexivity. Qed.

Lemma list_ascii_app a b :
  list_ascii_of_string (a ++ b)%string = list_ascii_of_string a ++ list_ascii_of_string b.
Proof. induction a as [|c a IH]; [done|]. simpl. by rewrite IH. Qed.

Lemma reverse_snoc s c : JS.reverse (s ++ String c EmptyString)%string = String c (JS.reverse s).
Proof. unfold JS.reverse. by rewrite list_ascii_app, rev_app_distr. Qed.

Lemma string_of_list_app l k :
  string_of_list_ascii (l ++ k) = (string_of_list_ascii l ++ string_of_list_ascii k)%string.
Proof. induction l as [|c l IH]; [done|]. simpl. by rewrite IH. Qed.

Lemma js_reverse_cons s c : JS.reverse (String c s) = (JS.reverse s ++ String c EmptyString)%string.
Proof. unfold JS.reverse. cbn. by rewrite string_of_list_app. Qed.

Lemma reverse_reverse s : JS.reverse (JS.reverse s) = s.
Proof.
  unfold JS.reverse.
  by rewrite list_ascii_of_string_of_list_ascii, rev_involutive, string_of_list_ascii_of_string.
Qed.

Lemma trimStart_length s : (String.length (JS.trimStart s) <= String.length s)%nat.
Proof.
  induction s as [|c s IH]; [done|].
  change (JS.trimStart (String c s))
    with (if JS.isWhiteSpace c then JS.trimStart s else String c s).
  destruct (JS.isWhiteSpace c); simpl; lia.
Qed.

Lemma trimStart_fixed c s : JS.trimStart (String c s) = String c s -> JS.isWhiteSpace c = false.
Proof.
  change (JS.trimStart (String c s))
    with (if JS.isWhiteSpace c then JS.trimStart s else String c s).
  destruct (JS.isWhiteSpace c); [|done]. intros H.
  pose proof (trimStart_length s) as Hl. rewrite H in Hl. simpl in Hl. lia.
Qed.

Lemma trimStart_app s t : s <> EmptyString -> JS.trimStart s = s ->
  JS.trimStart (s ++ t)%string = (s ++ t)%string.
Proof.
  destruct s as [|c s]; [done|]. intros _ H%trimStart_fixed.
  change (JS.trimStart (String c s ++ t)%string)
    with (if JS.isWhiteSpace c then JS.trimStart (s ++ t)%string else String c (s ++ t)%string).
  by rewrite H.
Qed.

Lemma lastChar_snoc s c : JS.lastChar (s ++ String c EmptyString)%string = Some c.
Proof. unfold JS.lastChar. rewrite list_ascii_app. apply last_snoc. Qed.

Lemma substring_prefix s t : substring 0 (String.length s) (s ++ t)%string = s.
Proof.
  induction s as [|c s IH]; [by destruct t|]. rewrite append_cons. simpl. by rewrite IH.
Qed.

Lemma length_snoc s c : String.length (s ++ String c EmptyString)%string = S (String.length s).
Proof. induction s as [|a s IH]; [done|]. rewrite append_cons. simpl. by rewrite IH. Qed.

Lemma cleanString_nonempty x : x <> EmptyString ->
  cleanString x =
  match JS.lastChar (JS.trim x) with
  | Some c => if (JS.code c =? 0)
              then JS.substring' (JS.trim x) 0 (String.length (JS.trim x) - 1)
              else JS.trim x
  | None => JS.trim x
  end.
Proof. by destruct x. Qed.

Lemma cleanString_nul s : JS.trimStart s = s ->
  cleanString (s ++ String NUL EmptyString)%string = s.
Proof.
  intros Hs.
  assert (Ht : JS.trim (s ++ String NUL EmptyString)%string = (s ++ String NUL EmptyString)%string).
  { unfold JS.trim, JS.trimEnd.
    assert (JS.trimStart (s ++ String NUL EmptyString)%string = (s ++ String NUL EmptyString)%string) as ->.
    { destruct s as [|c s]; [done|]. by apply trimStart_app. }
    rewrite reverse_snoc.
    change (JS.trimStart (String NUL ?x)) with (String NUL x).
    by rewrite js_reverse_cons, reverse_reverse. }
  rewrite cleanString_nonempty by (by destruct s).
  rewrite Ht, lastChar_snoc. change (JS.code NUL =? 0) with true. cbn match.
  unfold JS.substring'. rewrite length_snoc.
  replace (S (String.length s) - 1 - 0)%nat with (String.length s) by lia.
  apply substring_prefix.
Qed.

Lemma trimStart_spaces n s : JS.trimStart (spaces n ++ s)%string = JS.trimStart s.
Proof. induction n as [|n IH]; [done|]. exact IH. Qed.

Lemma reverse_app a b : JS.reverse (a ++ b)%string = (JS.reverse b ++ JS.reverse a)%string.
Proof. unfold JS.reverse. by rewrite list_ascii_app, rev_app_distr, string_of_list_app. Qed.

Lemma reverse_spaces n : JS.reverse (spaces n) = spaces n.
Proof.
  unfold JS.reverse, spaces. rewrite list_ascii_of_string_of_list_ascii.
  f_equal. induction n as [|n IH]; [done|]. cbn [replicate rev]. rewrite IH.
  clear IH. induction n as [|n IH]; [done|]. cbn. by rewrite IH.
Qed.

Lemma append_empty_r s : (s ++ EmptyString)%string = s.
Proof. induction s as [|c s IH]; [done|]. by rewrite append_cons, IH. Qed.

Lemma reverse_length x : String.length (JS.reverse x) = String.length x.
Proof.
  assert (Hlen : forall k, String.length (string_of_list_ascii k) = length k).
  { induction k as [|c k IH]; [done|]. simpl. by rewrite IH. }
  unfold JS.reverse. rewrite <- (string_of_list_ascii_of_string x) at 2.
  by rewrite !Hlen, length_rev.
Qed.

Lemma trim_fixed_start s : JS.trim s = s -> JS.trimStart s = s.
Proof.
  intros Ht.
  assert (Hl : (String.length s <= String.length (JS.trimStart s))%nat).
  { rewrite <- Ht at 1. unfold JS.trim, JS.trimEnd. rewrite reverse_length.
    etrans; [apply trimStart_length|]. by rewrite reverse_length. }
  clear Ht. destruct s as [|c s]; [done|]. revert Hl.
  change (JS.trimStart (String c s))
    with (if JS.isWhiteSpace c then JS.trimStart s else String c s).
  destruct (JS.isWhiteSpace c); [|done].
  pose proof (trimStart_length s). simpl. lia.
Qed.

Lemma cleanString_spaces s n :
  JS.trim s = s -> JS.lastChar s <> Some NUL -> cleanString (s ++ spaces n)%string = s.
Proof.
  intros Ht Hl.
  assert (Hs : JS.trimStart s = s) by by apply trim_fixed_start.
  assert (Htrim : JS.trim (s ++ spaces n)%string = s).
  { unfold JS.trim, JS.trimEnd.
    destruct s as [|c s].
    - change (EmptyString ++ spaces n)%string with (spaces n).
      by rewrite <- (append_empty_r (spaces n)), trimStart_spaces.
    - rewrite trimStart_app by done.
      rewrite reverse_app, reverse_spaces, trimStart_spaces.
      unfold JS.trim, JS.trimEnd in Ht. by rewrite Hs in Ht. }
  destruct (decide (s ++ spaces n = EmptyString)%string) as [E|E].
  { rewrite E. destruct s; [done|]. discriminate E. }
  rewrite cleanString_nonempty by done.
  rewrite Htrim.
  destruct (JS.lastChar s) as [a|] eqn:Ea; [|done].
  destruct (JS.code a =? 0) eqn:Eq; [|done].
  exfalso. apply Hl. f_equal. apply Z.eqb_eq in Eq.
  unfold JS.code in Eq. assert (N_of_ascii a = 0%N) as Hn by lia.
  rewrite <- (ascii_N_embedding a), Hn. reflexivity.
Qed.

(** X22: the padding of a value is removed.  For a string [s] that
    does not start with white space, [cleanString] of [s] followed by one
    character of code 0 is [s], and of [s] followed by two of them is [s]
    followed by one: no more than one is removed.  When [s] does not end
    with white space or with the character of code 0 either, [cleanString]
    of [s] followed by any number of spaces is [s]. *)
Theorem padding_is_cleaned s :
  JS.trimStart s = s ->
  cleanString (s ++ String NUL EmptyString)%string = s /\
  cleanString (s ++ String NUL (String NUL EmptyString))%string
  = (s ++ String NUL EmptyString)%string /\
  (JS.trim s = s -> JS.lastChar s <> Some NUL ->
   forall n, cleanString (s ++ spaces n)%string = s).
Proof.
  intros Hs. split; [by apply cleanString_nul|]. split.
  - replace (s ++ String NUL (String NUL EmptyString))%string
      with ((s ++ String NUL EmptyString) ++ String NUL EmptyString)%string.
    + apply cleanString_nul. destruct s as [|c s]; [done|]. by apply trimStart_app.
    + clear Hs. induction s as [|c s IH]; [done|]. by rewrite !append_cons, IH.
  - intros Ht Hl n. by apply cleanString_spaces.
Qed.

End Cleaning.

(** A transfer syntax UID of odd length, padded. *)
Lemma padding_is_cleaned_witness :
  Dicom.cleanString ("1.2.840.10008.1.2" ++ String NUL EmptyString)%string = "1.2.840.10008.1.2" /\
  Dicom.cleanString ("DOE^JOHN" ++ spaces 2%nat)%string = "DOE^JOHN".
Proof.
  split.
  - exact (proj1 (padding_is_cleaned "1.2.840.10008.1.2" eq_refl)).
  - refine (proj2 (proj2 (padding_is_cleaned "DOE^JOHN" eq_refl)) eq_refl _ 2%nat).
    vm_compute. discriminate.
Defined.
